(** * artsapp-builder-api: the revision content model and its editing rules

    A shallow embedding of the data-transformation functions of
    [src/utils/character.js], [src/utils/media.js], [src/utils/taxon.js],
    [src/utils/revision.js] and of the route handlers of [src/routes] that
    call them, followed by the properties of the specification that they
    satisfy (or fail to satisfy).

    Conventions.
    - A JSON object of the content document is a record; an optional
      property is an [option]; [undefined] is [None].
    - JavaScript truthiness of a string-valued property is [Js.truthy]:
      [undefined] and the empty string are falsy.
    - Functions that mutate their argument in place return the mutated
      value; the taxa tree, whose nodes are reached through several
      references, lives in an explicit object store ([Taxon.heap]).
    - JSON numbers are rationals ([Q]): every finite double is one, and
      [<], [>] and [!==] on finite doubles are the comparisons of [Q].
    - Case mapping and white space are spelled out on ASCII strings; on
      the other strings they are the parameter [Js.Unicode], over which
      every statement is universal. *)

From Stdlib Require Import Ascii String QArith.
From stdpp Require Import base option list strings gmap pretty.

Local Open Scope string_scope.
Local Open Scope Z_scope.
Local Open Scope list_scope.

(** ** JavaScript primitives *)

Module Js.

(** [!!s] for a string-valued property that may be [undefined]. *)
Definition truthy (o : option string) : bool :=
  match o with
  | Some s => negb (String.eqb s "")
  | None => false
  end.

(** [a || undefined] on such a property. *)
Definition or_undefined (o : option string) : option string :=
  if truthy o then o else None.

(** Template literal [`${n}`] of an integer. *)
Definition template (n : Z) : string := pretty n.

(** [arr.findIndex(p)]: [None] stands for the result [-1]. *)
Fixpoint findIndex {A} (p : A → bool) (arr : list A) : option nat :=
  match arr with
  | [] => None
  | x :: rest => if p x then Some 0%nat else S <$> findIndex p rest
  end.

(** [arr.splice(i, 1)] where [i] is the result of [findIndex]: a negative
    start counts from the end, so [-1] removes the last element. *)
Definition splice1 {A} (i : option nat) (arr : list A) : list A :=
  match i with
  | Some n => delete n arr
  | None => removelast arr
  end.

(** *** Strings

    A string of the program is written in an encoding such as UTF-8, in
    which the ASCII characters are the bytes below 128 and every other
    character is a sequence of bytes above 127: a string consists of ASCII
    characters exactly when none of its bytes is above 127. On such a
    string [toUpperCase] and [toLowerCase] map the letters [a-z]
    and [A-Z], and [\s] matches the tab, the line feed, the vertical tab,
    the form feed, the carriage return and the space. *)
Definition is_ascii (s : string) : bool :=
  forallb (λ c, (nat_of_ascii c <? 128)%nat) (list_ascii_of_string s).

Definition upper_ascii (c : ascii) : ascii :=
  let n := nat_of_ascii c in
  if (97 <=? n)%nat && (n <=? 122)%nat then ascii_of_nat (n - 32) else c.

Definition lower_ascii (c : ascii) : ascii :=
  let n := nat_of_ascii c in
  if (65 <=? n)%nat && (n <=? 90)%nat then ascii_of_nat (n + 32) else c.

Definition is_whitespace (c : ascii) : bool :=
  let n := nat_of_ascii c in
  ((9 <=? n)%nat && (n <=? 13)%nat) || (n =? 32)%nat.

Fixpoint map_ascii (f : ascii → ascii) (s : string) : string :=
  match s with
  | EmptyString => EmptyString
  | String c rest => String (f c) (map_ascii f rest)
  end.

Fixpoint strip_ascii (s : string) : string :=
  match s with
  | EmptyString => EmptyString
  | String c rest =>
      if is_whitespace c then strip_ascii rest
      else String c (strip_ascii rest)
  end.

(** On a string with a character beyond ASCII the three operations follow
    the case mappings and the white-space class of Unicode. These tables
    are not spelled out: what the operations return on such a string is a
    parameter of the development, and every statement below holds
    whatever the tables are. *)
Class Unicode := {
  upper_beyond_ascii : string → string;
  lower_beyond_ascii : string → string;
  strip_beyond_ascii : string → string
}.

(** [s.toUpperCase()] and [s.toLowerCase()]. *)
Definition toUpperCase `{!Unicode} (s : string) : string :=
  if is_ascii s then map_ascii upper_ascii s else upper_beyond_ascii s.
Definition toLowerCase `{!Unicode} (s : string) : string :=
  if is_ascii s then map_ascii lower_ascii s else lower_beyond_ascii s.

(** [s.replace(/\s+/g, '')], which is also [s.replace(/\s/g, '')]. *)
Definition remove_whitespace `{!Unicode} (s : string) : string :=
  if is_ascii s then strip_ascii s else strip_beyond_ascii s.

(** The tables of the sample documents, whose strings are all ASCII: they
    are never consulted there. *)
Definition sample_tables : Unicode :=
  {| upper_beyond_ascii := λ s, s;
     lower_beyond_ascii := λ s, s;
     strip_beyond_ascii := λ s, s |}.

(** A JSON value of a request body where the validator admits any: a
    number, a string, or something else ([null], a boolean, an array, an
    object). *)
Inductive value :=
| Num (n : Z)
| Str (s : string)
| Other.

#[global] Instance value_eq_dec : EqDecision value.
Proof. solve_decision. Defined.

(** A finite JSON number. *)
Definition number := Q.

(** [a < b], [a > b] and [a !== b] on numbers. *)
Definition lt (a b : number) : bool := negb (Qle_bool b a).
Definition gt (a b : number) : bool := negb (Qle_bool a b).
Definition strict_ne (a b : number) : bool := negb (Qeq_bool a b).

End Js.

(** Titles, descriptions, units: [{ no?, en? }]. *)
Record LangText := mkLangText { no : option string; en : option string }.

(** A media id inside the content document: the relational id, pushed either
    as the number ([taxon.media], [character.media]) or as its template
    literal ([state.media], [mediaElement.id]). *)
Inductive MediaId :=
| IdNum (n : Z)
| IdStr (s : string).

(** [`${element}`] of a media id. *)
Definition MediaId_template (m : MediaId) : string :=
  match m with
  | IdNum n => Js.template n
  | IdStr s => s
  end.

(** A media id as a JSON value of a request. *)
Definition MediaId_value (m : MediaId) : Js.value :=
  match m with
  | IdNum n => Js.Num n
  | IdStr s => Js.Str s
  end.

(** ** Characters and logical premises ([src/utils/character.js]) *)

Module Character.

(** One entry of a disjunction: [{ characterId, stateId }]. *)
Record PremiseEntry := mkEntry { characterId : string; stateId : string }.

(** A logical premise is an array of disjunctions, each an array of
    entries (data model of the content document), so that
    [Array.isArray(subElement)] holds of every sub-element. *)
Abbreviation Clause := (list PremiseEntry).
Abbreviation Premise := (list (list PremiseEntry)).

Record State := mkState {
  state_id : string;
  state_title : option LangText;
  state_description : option LangText;
  state_media : option (list MediaId)
}.

(** The single state object of a numerical character. *)
Record NumericalState := mkNumerical {
  num_id : string;
  unit : option LangText;
  min : Js.number;
  max : Js.number;
  stepSize : Js.number
}.

Inductive States :=
| Alternatives (l : list State)
| Numerical (s : NumericalState).

Record t := mkCharacter {
  id : string;
  title : LangText;
  description : LangText;
  type : string;
  states : States;
  logicalPremise : option Premise;
  media : option (list MediaId)
}.

(** [element.logicalPremise = p]. *)
Definition set_logicalPremise (p : option Premise) (c : t) : t :=
  mkCharacter (id c) (title c) (description c) (type c) (states c) p (media c).

(** [arr.forEach((element) => { ... })] on the shallow copy [[...chars]]:
    every element object is mutated in place and stays at its index. *)
Definition forEach_mutating (body : t → t) (arr : list t) : list t :=
  body <$> arr.

(** [removeStatePremises(id, chars)]. *)
Definition removeStatePremises (id : string) (chars : list t) : list t :=
  forEach_mutating (λ element,
    match logicalPremise element with
    | Some premise =>
        let element1 :=
          set_logicalPremise
            (Some ((λ subElement, filter (λ el, stateId el ≠ id) subElement)
                     <$> premise)) element in
        let element2 :=
          set_logicalPremise
            (filter (λ subElement, (1 < length subElement)%nat)
               <$> logicalPremise element1) element1 in
        match logicalPremise element2 with
        | Some p =>
            if decide (length p = 1%nat)
            then set_logicalPremise None element2
            else element2
        | None => element2
        end
    | None => element
    end) chars.

(** [removeCharacterPremises(id, chars)]. *)
Definition removeCharacterPremises (id : string) (chars : list t) : list t :=
  forEach_mutating (λ element,
    match logicalPremise element with
    | Some premise =>
        let element1 :=
          set_logicalPremise
            (Some ((λ subElement, filter (λ el, characterId el ≠ id) subElement)
                     <$> premise)) element in
        set_logicalPremise
          (filter (λ subElement, (1 < length subElement)%nat)
             <$> logicalPremise element1) element1
    | None => element
    end) chars.

(** [checkMinMaxValues(id, newValues, existingValues, characters)]. *)
Definition checkMinMaxValues (id : string) (newValues existingValues : NumericalState)
    (characters : list t) : list t :=
  let arr := characters in
  if Js.strict_ne (stepSize existingValues) (stepSize newValues)
     || Js.lt (min existingValues) (min newValues)
     || Js.gt (max existingValues) (max newValues)
  then removeCharacterPremises id arr
  else arr.

End Character.

(** ** Results of calls that may throw *)

(** [Return a]: the call returns [a]; [Throws]: it throws (a [TypeError] on
    a property of [undefined]); [Stuck]: the object store is not a finite
    tree within the given recursion depth, or holds a dangling reference. *)
Inductive outcome (A : Type) :=
| Return (a : A)
| Throws
| Stuck.
Arguments Return {A} a.
Arguments Throws {A}.
Arguments Stuck {A}.

#[global] Instance outcome_bind : MBind outcome := λ A B k m,
  match m with
  | Return a => k a
  | Throws => Throws
  | Stuck => Stuck
  end.

(** A dereference of a location of the store. *)
Definition deref {A} (o : option A) : outcome A :=
  match o with
  | Some a => Return a
  | None => Stuck
  end.

(** [arr.forEach((element) => { ... })] threading the variables the loop
    body assigns. *)
Fixpoint forEach {S E} (body : S → E → outcome S) (s : S) (arr : list E) : outcome S :=
  match arr with
  | [] => Return s
  | element :: rest => s' ← body s element ; forEach body s' rest
  end.

(** ** The taxa tree ([src/utils/taxon.js]) *)

Module Taxon.

(** Taxon objects are JavaScript objects reached through references:
    the result of [findTaxonById] is the very node of the tree, and the
    routes mutate it. A reference is a location of the store. *)
Abbreviation loc := nat.

Record t := mkTaxon {
  id : string;
  scientificName : string;
  vernacularName : option LangText;
  description : option LangText;
  media : option (list MediaId);
  parentId : option string;
  children : option (list loc)
}.

Abbreviation heap := (list t).

Definition set_scientificName (v : string) (o : t) : t :=
  mkTaxon (id o) v (vernacularName o) (description o) (media o) (parentId o) (children o).
Definition set_vernacularName (v : option LangText) (o : t) : t :=
  mkTaxon (id o) (scientificName o) v (description o) (media o) (parentId o) (children o).
Definition set_description (v : option LangText) (o : t) : t :=
  mkTaxon (id o) (scientificName o) (vernacularName o) v (media o) (parentId o) (children o).
Definition set_media (v : option (list MediaId)) (o : t) : t :=
  mkTaxon (id o) (scientificName o) (vernacularName o) (description o) v (parentId o) (children o).
Definition set_parentId (v : option string) (o : t) : t :=
  mkTaxon (id o) (scientificName o) (vernacularName o) (description o) (media o) v (children o).
Definition set_children (v : option (list loc)) (o : t) : t :=
  mkTaxon (id o) (scientificName o) (vernacularName o) (description o) (media o) (parentId o) v.

(** The request body of the taxa routes: [scientificName] is a string,
    [parentId] an optional integer sent as a JSON number. (The validator
    [isInt()] also admits an integer written as a string; such a request
    is not among the inputs modelled here.) *)
Record Body := mkBody {
  keyId : string;
  revisionId : string;
  body_scientificName : string;
  vernacularNameNo : option string;
  vernacularNameEn : option string;
  descriptionNo : option string;
  descriptionEn : option string;
  body_parentId : option Z
}.

(** [setTaxonInfo(body)]: the pair [{ vernacularName, description }]. *)
Definition setTaxonInfo (body : Body) : option LangText * option LangText :=
  let vernacularName :=
    if Js.truthy (vernacularNameNo body) || Js.truthy (vernacularNameEn body)
    then Some (mkLangText (Js.or_undefined (vernacularNameNo body))
                          (Js.or_undefined (vernacularNameEn body)))
    else None in
  let description :=
    if Js.truthy (descriptionNo body) || Js.truthy (descriptionEn body)
    then Some (mkLangText (Js.or_undefined (descriptionNo body))
                          (Js.or_undefined (descriptionEn body)))
    else None in
  (vernacularName, description).

(** [findTaxonById(arr, id, include)]. The loop variable is [taxon]; the
    assignment [taxon.parentId = element.id] writes to the store. The
    recursive call is [findTaxonById(element.children, id)]: its third
    argument is [undefined]. *)
Fixpoint findTaxonById (fuel : nat) (h : heap) (arr : option (list loc))
    (id' : string) (include : bool) : outcome (heap * option loc) :=
  match fuel with
  | O => Stuck
  | S fuel' =>
      match arr with
      | None => Return (h, None)
      | Some elements =>
          forEach (λ '(h, taxon) e,
            element ← deref (h !! e) ;
            if decide (id element = id') then Return (h, Some e)
            else
              match children element with
              | Some cs =>
                  '(h, tmp) ← findTaxonById fuel' h (Some cs) id' false ;
                  match tmp with
                  | Some tmp =>
                      Return (if include
                              then alter (set_parentId (Some (id element))) tmp h
                              else h,
                              Some tmp)
                  | None => Return (h, taxon)
                  end
              | None => Return (h, taxon)
              end) (h, None) elements
      end
  end.

(** The loop of [findTaxonByName(arr, name, ignoreId)]; the recursive call
    is [findTaxonByName(element.children, name)], without [ignoreId]. *)
Fixpoint findTaxonByName_loop `{!Js.Unicode} (fuel : nat) (h : heap)
    (arr : option (list loc)) (name : string) : outcome (option loc) :=
  match fuel with
  | O => Stuck
  | S fuel' =>
      match arr with
      | None => Return None
      | Some elements =>
          forEach (λ taxon e,
            element ← deref (h !! e) ;
            if decide (Js.toUpperCase (scientificName element) = Js.toUpperCase name)
            then Return (Some e)
            else
              match children element with
              | Some cs =>
                  tmp ← findTaxonByName_loop fuel' h (Some cs) name;
                  match tmp with
                  | Some tmp => Return (Some tmp)
                  | None => Return taxon
                  end
              | None => Return taxon
              end) None elements
      end
  end.

(** [findTaxonByName(arr, name, ignoreId)]. *)
Definition findTaxonByName `{!Js.Unicode} (fuel : nat) (h : heap)
    (arr : option (list loc)) (name : string) (ignoreId : option string)
    : outcome (option loc) :=
  taxon ← findTaxonByName_loop fuel h arr name;
  match taxon with
  | Some y =>
      found ← deref (h !! y);
      if Js.truthy ignoreId && bool_decide (Some (id found) = ignoreId)
      then Return None
      else Return (Some y)
  | None => Return None
  end.

(** [addToParent(taxa, taxon, parentId)]. *)
Definition addToParent (fuel : nat) (h : heap) (taxa : option (list loc))
    (taxon : loc) (parentId : Z) : outcome heap :=
  '(h1, parent) ← findTaxonById fuel h taxa (Js.template parentId) false;
  match parent with
  | Some p =>
      _ ← deref ((h1 : heap) !! (p : loc));
      let init (o : t) : t :=
        match children o with
        | Some _ => o
        | None => set_children (Some []) o
        end in
      let push (o : t) : t :=
        set_children (Some (default [] (children o) ++ [taxon])) o in
      Return (alter push p (alter init p h1))
  | None => Return h1
  end.

(** [obj.no = v] and [obj.en = v] on a property that is either an object
    [{ no?, en? }] or still [undefined], as [modifyTaxonNames] does it. *)
Definition assign_no (v : string) (l : option LangText) : option LangText :=
  match l with
  | Some l => Some (mkLangText (Some v) (en l))
  | None => Some (mkLangText (Some v) None)
  end.
Definition assign_en (v : string) (l : option LangText) : option LangText :=
  match l with
  | Some l => Some (mkLangText (no l) (Some v))
  | None => Some (mkLangText None (Some v))
  end.

(** The four [if (body.x) { ... }] blocks of [modifyTaxonNames] that follow
    the scientific name, on the taxon object. *)
Definition modifyTaxonInfo (body : Body) (taxon : t) : t :=
  let taxon :=
    match vernacularNameNo body with
    | Some v => if Js.truthy (Some v)
                then set_vernacularName (assign_no v (vernacularName taxon)) taxon
                else taxon
    | None => taxon
    end in
  let taxon :=
    match vernacularNameEn body with
    | Some v => if Js.truthy (Some v)
                then set_vernacularName (assign_en v (vernacularName taxon)) taxon
                else taxon
    | None => taxon
    end in
  let taxon :=
    match descriptionNo body with
    | Some v => if Js.truthy (Some v)
                then set_description (assign_no v (description taxon)) taxon
                else taxon
    | None => taxon
    end in
  match descriptionEn body with
  | Some v => if Js.truthy (Some v)
              then set_description (assign_en v (description taxon)) taxon
              else taxon
  | None => taxon
  end.

(** [modifyTaxonNames(taxon, taxonId, taxa, body)]: the store after the
    call and the returned [valid]. *)
Definition modifyTaxonNames `{!Js.Unicode} (fuel : nat) (h : heap) (taxon : loc)
    (taxonId : string) (taxa : option (list loc)) (body : Body) : outcome (heap * bool) :=
  '(h1, valid) ←
    if Js.truthy (Some (body_scientificName body)) then
      found ← findTaxonByName fuel h taxa (body_scientificName body) (Some taxonId);
      match found with
      | Some _ => Return (h, false)
      | None => Return (alter (set_scientificName (body_scientificName body)) taxon h, true)
      end
    else Return (h, true);
  _ ← deref ((h1 : heap) !! taxon);
  Return (alter (modifyTaxonInfo body) taxon h1, (valid : bool)).

(** [(element) => element.id === `${taxonId}`] on a reference. *)
Definition has_id (h : heap) (s : string) (e : loc) : bool :=
  match h !! e with
  | Some element => bool_decide (id element = s)
  | None => false
  end.

(** [updateParentTaxon(tmpTaxon, parentId, taxa, taxonId)]: the store and
    the array [taxa] after the call. *)
Definition updateParentTaxon (fuel : nat) (h : heap) (tmpTaxon : loc) (parentId : Z)
    (taxa : list loc) (taxonId : Z) : outcome (heap * list loc) :=
  tmp ← deref (h !! tmpTaxon);
  if Js.truthy (Taxon.parentId tmp) then
    '(h1, parentTaxon) ←
      findTaxonById fuel h (Some taxa) (default "" (Taxon.parentId tmp)) false;
    match parentTaxon with
    | None => Throws
    | Some p =>
        parent ← deref ((h1 : heap) !! (p : loc));
        match children parent with
        | None => Throws
        | Some cs =>
            let cs := Js.splice1 (Js.findIndex (has_id h1 (Js.template taxonId)) cs) cs in
            let h2 : heap := alter (set_children (Some cs)) p h1 in
            if decide (parentId = 0) then Return (h2, taxa ++ [tmpTaxon])
            else
              h3 ← addToParent fuel h2 (Some taxa) tmpTaxon parentId;
              Return (h3, taxa)
        end
    end
  else if decide (parentId ≠ 0) then
    let taxa := Js.splice1 (Js.findIndex (has_id h (Js.template taxonId)) taxa) taxa in
    h ← addToParent fuel h (Some taxa) tmpTaxon parentId;
    Return (h, taxa)
  else Return (h, taxa).

(** [JSON.stringify] of the array [arr] of taxon objects, as far as it can
    fail: it keeps the stack of the objects it is inside of and throws a
    [TypeError] (converting a circular structure) on an object that is on
    the stack; an object reached twice on different branches is written
    twice. *)
Fixpoint stringify (fuel : nat) (h : heap) (stack : list loc) (arr : list loc)
    : outcome unit :=
  match fuel with
  | O => Stuck
  | S fuel' =>
      forEach (λ _ e,
        if bool_decide (e ∈ stack) then Throws
        else
          element ← deref (h !! e);
          match children element with
          | Some cs => stringify fuel' h (e :: stack) cs
          | None => Return ()
          end) () arr
  end.

End Taxon.

(** ** Media of the revision ([src/utils/media.js]) *)

Module Media.

(** The revision-embedded counterpart of a media row. *)
Record MediaElement := mkMediaElement {
  id : MediaId;
  title : option LangText;
  license : option string;
  creators : option (list string)
}.

Record Person := mkPerson { person_id : string; name : string }.

(** [revision.media]: [{ mediaElements?, persons? }]. *)
Record RevisionMedia := mkRevisionMedia {
  mediaElements : option (list MediaElement);
  persons : option (list Person)
}.

(** [body.media.includes(s)] for a string [s]: the comparison is
    SameValueZero, which no number (and no other value that is not a
    string) passes. The validator of [body.media] is [isArray()]. *)
Definition includes (arr : list Js.value) (s : string) : bool :=
  bool_decide (Js.Str s ∈ arr).

(** [removeEntityMedia(entity, media, body)], on the only property of
    [entity] it reads and writes, [entity.media]: the pair of
    [entity.media] and [media] after the call. The two accumulators are
    [arr] and [elements]. *)
Definition removeEntityMedia (entity_media : list MediaId) (media : RevisionMedia)
    (body_media : list Js.value) : list MediaId * RevisionMedia :=
  let arr :=
    fold_left (λ arr element,
      if negb (includes body_media (MediaId_template element))
      then arr ++ [IdStr (MediaId_template element)]
      else arr) entity_media [] in
  let elements :=
    match mediaElements media with
    | Some mes =>
        fold_left (λ elements element,
          if negb (includes body_media (MediaId_template (id element)))
          then elements ++ [element]
          else elements) mes []
    | None => []
    end in
  (arr, mkRevisionMedia (Some elements) (persons media)).

(** *** Deleting a media file *)

(** Error codes of [fs.unlink]. *)
Inductive fault := EACCES | EPERM | EBUSY | EISDIR.
Inductive errno :=
| ENOENT
| Fault (f : fault).

#[global] Instance fault_eq_dec : EqDecision fault.
Proof. solve_decision. Defined.
#[global] Instance errno_eq_dec : EqDecision errno.
Proof. solve_decision. Defined.

(** A path of the storage holds a file that [fs.unlink] removes, or one
    on which it fails with the given fault; on a path that holds nothing
    it fails with [ENOENT]. *)
Inductive file :=
| Regular
| Failing (f : fault).

Record MediaRow := mkMediaRow {
  media_id : Z;
  filePath : option string;
  thumbnailPath : option string
}.

Record MediaInfoRow := mkMediaInfoRow {
  info_id : Z;
  mediaId : Z;
  languageCode : string;
  info_title : string
}.

Record world := mkWorld {
  files : gmap string file;
  mediaTable : gmap Z MediaRow;
  mediaInfoTable : list MediaInfoRow
}.

Inductive error :=
| FsError (e : errno)
| TypeError.

(** How a promise settles. *)
Inductive settled :=
| Resolved
| Rejected (err : error).

(** [fs.unlink(path, callback)]: the storage afterwards and the [err]
    passed to the callback. *)
Definition unlink (fs : gmap string file) (path : string)
    : gmap string file * option errno :=
  match fs !! path with
  | None => (fs, Some ENOENT)
  | Some Regular => (delete path fs, None)
  | Some (Failing f) => (fs, Some (Fault f))
  end.

(** The callback passed to [fs.unlink], twice the same in the source:
    [if (err && err.code === 'ENOENT') reject(err); else if (err)
    reject(err); else resolve();]. *)
Definition unlink_callback (err : option errno) : settled :=
  match err with
  | Some e =>
      if decide (e = ENOENT) then Rejected (FsError e)
      else Rejected (FsError e)
  | None => Resolved
  end.

(** [Promise.all(promises)]: resolved when all are, rejected with a
    rejection among them otherwise (here the first in the array). *)
Fixpoint Promise_all (promises : list settled) : settled :=
  match promises with
  | [] => Resolved
  | Resolved :: rest => Promise_all rest
  | Rejected err :: _ => Rejected err
  end.

(** [MediaInfo.destroy({ where: { mediaId } })]. *)
Definition MediaInfo_destroy (mid : Z) (rows : list MediaInfoRow) : list MediaInfoRow :=
  filter (λ row, mediaId row ≠ mid) rows.

(** [deleteMediaFile(media)]: both [fs.unlink] calls are issued by the
    executor; the rows are destroyed in the [then] of [Promise.all]. *)
Definition deleteMediaFile (w : world) (media : MediaRow) : world * settled :=
  let '(fs1, promises1) :=
    match filePath media with
    | Some path =>
        if Js.truthy (Some path)
        then let '(fs, err) := unlink (files w) path in (fs, [unlink_callback err])
        else (files w, [])
    | None => (files w, [])
    end in
  let '(fs2, promises2) :=
    match thumbnailPath media with
    | Some path =>
        if Js.truthy (Some path)
        then let '(fs, err) := unlink fs1 path in (fs, promises1 ++ [unlink_callback err])
        else (fs1, promises1)
    | None => (fs1, promises1)
    end in
  match Promise_all promises2 with
  | Resolved =>
      (mkWorld fs2
         (delete (media_id media) (mediaTable w))
         (MediaInfo_destroy (media_id media) (mediaInfoTable w)),
       Resolved)
  | Rejected err => (mkWorld fs2 (mediaTable w) (mediaInfoTable w), Rejected err)
  end.

(** [deleteMedia(id)]: [Media.findByPk(id)] is [null] when there is no
    such row, and [media.filePath] then throws inside the executor. *)
Definition deleteMedia (w : world) (id : Z) : world * settled :=
  match mediaTable w !! id with
  | Some media => deleteMediaFile w media
  | None => (w, Rejected TypeError)
  end.

End Media.

(** ** Revisions and keys ([src/utils/revision.js]) *)

Module Revision.

Inductive Status := DRAFT | REVIEW | ACCEPTED.

#[global] Instance Status_eq_dec : EqDecision Status.
Proof. solve_decision. Defined.

(** A statement of the content document, with the properties the routes
    read. *)
Record Statement := mkStatement { taxonId : string; state : string }.

(** The content document [{ taxa, characters, statements }] of a revision,
    as an object graph: [objects] holds the taxon objects that [taxa] and
    the [children] arrays refer to. *)
Record Content := mkContent {
  objects : Taxon.heap;
  taxa : option (list Taxon.loc);
  characters : option (list Character.t);
  statements : option (list Statement)
}.

Record t := mkRevision {
  id : string;
  content : Content;
  media : Media.RevisionMedia;
  note : option string;
  createdBy : string;
  status : Status;
  mode : option Z
}.

Definition set_status (s : Status) (r : t) : t :=
  mkRevision (id r) (content r) (media r) (note r) (createdBy r) s (mode r).

(** A key, with the columns the revision workflow reads and writes. *)
Record Key := mkKey { key_id : string; revisionId : option string }.

Definition set_revisionId (v : option string) (k : Key) : Key :=
  mkKey (key_id k) v.

(** Modelled from the spec: the relational store (section 6; the models of
    [lib/database/models] are not among the sources) with the tables
    [Key], [Revision], the join table [Revisions] of rows [(keyId,
    revisionId)] and the table [Taxon] of rows [(id, keyId)]; it offers
    create-with-generated-id, find-by-id, find-with-filter and
    update-by-id. *)
Record Db := mkDb {
  Key_table : gmap string Key;
  Revision_table : gmap string t;
  Revisions_table : list (string * string);
  Taxon_table : list (Z * string)
}.

(** Modelled from the spec: [Revision.create(values)], create with a
    generated id; [uuid] is the id the store generates. *)
Definition Revision_create (db : Db) (uuid : string) (content : Content)
    (media : Media.RevisionMedia) (note : option string) (createdBy : string)
    (status : Status) (mode : option Z) : Db * t :=
  let revision := mkRevision uuid content media note createdBy status mode in
  (mkDb (Key_table db) (<[uuid := revision]> (Revision_table db))
        (Revisions_table db) (Taxon_table db),
   revision).

(** Modelled from the spec: [Revisions.create({ keyId, revisionId })]. *)
Definition Revisions_create (db : Db) (keyId revisionId : string) : Db * (string * string) :=
  (mkDb (Key_table db) (Revision_table db)
        (Revisions_table db ++ [(keyId, revisionId)]) (Taxon_table db),
   (keyId, revisionId)).

(** Modelled from the spec: [Revision.update({ status }, { where: { id } })]
    and [revision.update({ status })], update by id. *)
Definition Revision_update_status (db : Db) (id : string) (s : Status) : Db :=
  mkDb (Key_table db) (alter (set_status s) id (Revision_table db))
       (Revisions_table db) (Taxon_table db).

(** Modelled from the spec: [key.update({ revisionId })], update by id. *)
Definition Key_update_revisionId (db : Db) (id : string) (v : option string) : Db :=
  mkDb (alter (set_revisionId v) id (Key_table db)) (Revision_table db)
       (Revisions_table db) (Taxon_table db).

(** Modelled from the spec: [Revisions.findOne({ where: { revisionId,
    keyId } })], find with a filter. *)
Definition Revisions_findOne (db : Db) (revisionId keyId : string) : option (string * string) :=
  List.find (λ row, bool_decide (row = (keyId, revisionId))) (Revisions_table db).

(** Modelled from the spec: [Taxon.create({ keyId })], create with a
    generated (serial) id, and [Taxon.findByPk(id)]. *)
Definition Taxon_create (db : Db) (keyId : string) : Db * (Z * string) :=
  let row := (Z.of_nat (length (Taxon_table db)) + 1, keyId) in
  (mkDb (Key_table db) (Revision_table db) (Revisions_table db)
        (Taxon_table db ++ [row]),
   row).
Definition Taxon_findByPk (db : Db) (id : Z) : option (Z * string) :=
  List.find (λ row, bool_decide (row.1 = id)) (Taxon_table db).

(** [mode || parseInt(process.env.DEFAULT_KEY_MODE, 10)]; the second
    operand is [NaN], here [None], when the variable is not a number. *)
Definition mode_or_default (mode DEFAULT_KEY_MODE : option Z) : option Z :=
  match mode with
  | Some m => if decide (m = 0) then DEFAULT_KEY_MODE else Some m
  | None => DEFAULT_KEY_MODE
  end.

(** [createRevision(key, content, media, createdBy, note, mode)]: the
    store and the key instance after the call, and the returned
    [keyRevision.revisionId]. *)
Definition createRevision (DEFAULT_KEY_MODE : option Z) (db : Db) (key : Key)
    (content : Content) (media : Media.RevisionMedia) (createdBy : string)
    (note : option string) (mode : option Z) (uuid : string) : Db * Key * string :=
  let '(db, revision) :=
    Revision_create db uuid content media note createdBy DRAFT
      (mode_or_default mode DEFAULT_KEY_MODE) in
  let '(db, keyRevision) := Revisions_create db (key_id key) (id revision) in
  if negb (Js.truthy (revisionId key)) then
    let db := Revision_update_status db (id revision) ACCEPTED in
    let db := Key_update_revisionId db (key_id key) (Some (id revision)) in
    (db, set_revisionId (Some (id revision)) key, keyRevision.2)
  else (db, key, keyRevision.2).

(** The earlier [createRevision(key, content, media, createdBy, note)],
    which sets no [mode]. *)
Definition createRevision_without_mode (db : Db) (key : Key)
    (content : Content) (media : Media.RevisionMedia) (createdBy : string)
    (note : option string) (uuid : string) : Db * Key * string :=
  let '(db, revision) :=
    Revision_create db uuid content media note createdBy DRAFT None in
  let '(db, keyRevision) := Revisions_create db (key_id key) (id revision) in
  if negb (Js.truthy (revisionId key)) then
    let db := Revision_update_status db (id revision) ACCEPTED in
    let db := Key_update_revisionId db (key_id key) (Some (id revision)) in
    (db, set_revisionId (Some (id revision)) key, keyRevision.2)
  else (db, key, keyRevision.2).

(** Modelled from the spec: the store keeps the content document of a
    revision as serialised JSON (sections 2 and 6; the model [Revision] is
    not among the sources), so that [Revision.create] serialises the
    document it is given before it writes the row, and throws when the
    document is circular. *)
Definition serialise (fuel : nat) (content : Content) : outcome unit :=
  Taxon.stringify fuel (objects content) [] (default [] (taxa content)).

(** [findRevisionForKey(revisionId, keyId)], returning [{ revision, key }];
    [key] is [null] when [Key.findByPk] finds none. *)
Definition findRevisionForKey (db : Db) (revisionId keyId : string)
    : outcome (t * option Key) :=
  match Revisions_findOne db revisionId keyId with
  | Some keyRevision =>
      let revision := Revision_table db !! revisionId in
      let key := Key_table db !! keyId in
      match revision with
      | Some revision => Return (revision, key)
      | None => Throws
      end
  | None => Throws
  end.

End Revision.

(** ** Route handlers ([src/routes/revisions.js], [src/routes/taxa.js]) *)

Module Routes.

Import Revision.

Inductive JsonBody :=
| RevisionId (revisionId : string)
| Created (revisionId taxonId : string).

(** [res.sendStatus(code)] and [res.status(code).json(body)]. *)
Inductive Response :=
| sendStatus (code : Z)
| json (code : Z) (body : JsonBody).

(** [try { ... } catch (err) { logError(...); res.sendStatus(500); }]. The
    handlers below write to the store only after the last call that can
    throw, so the store at the [catch] is the one the handler started
    with. [None]: the handler does not terminate on this store. *)
Definition try_catch (db : Db) (body : outcome (Db * Response)) : option (Db * Response) :=
  match body with
  | Return r => Some r
  | Throws => Some (db, sendStatus 500)
  | Stuck => None
  end.

(** [router.put('/status/:revisionId', ...)], the handler after the
    validators and the permission check. *)
Definition put_status (db : Db) (param_revisionId body_keyId : string)
    (body_status : Status) : Db * Response :=
  match findRevisionForKey db param_revisionId body_keyId with
  | Return (revision, Some key) =>
      if bool_decide (revisionId key ≠ Some param_revisionId)
      then (Revision_update_status db param_revisionId body_status, sendStatus 200)
      else (db, sendStatus 409)
  | Return (revision, None) => (db, sendStatus 409)
  | _ => (db, sendStatus 500)
  end.

(** [delete tmpTaxon.parentId]. *)
Definition delete_parentId (tmpTaxon : Taxon.loc) (h : Taxon.heap) : Taxon.heap :=
  alter (Taxon.set_parentId None) tmpTaxon h.

(** [router.put('/:taxonId', ...)]. The comparison
    [req.body.parentId !== tmpTaxon.parentId] is between a number and a
    string or [undefined], hence true. The document that [createRevision]
    passes to [Revision.create] is the one [updateParentTaxon] has edited:
    when a taxon has become its own descendant, its serialisation throws
    and nothing is stored. *)
Definition put_taxon `{!Js.Unicode} (fuel : nat) (DEFAULT_KEY_MODE : option Z) (db : Db)
    (param_taxonId : Z) (body : Taxon.Body) (user : string) (uuid : string)
    : option (Db * Response) :=
  try_catch db (
    '(revision, key) ← findRevisionForKey db (Taxon.revisionId body) (Taxon.keyId body);
    match key with
    | None => Return (db, sendStatus 404)
    | Some key =>
    match Taxon_findByPk db param_taxonId with
    | None => Return (db, sendStatus 404)
    | Some taxon =>
    let content := Revision.content revision in
    match taxa content with
    | None => Return (db, sendStatus 404)
    | Some content_taxa =>
    '(h, tmpTaxon) ←
      Taxon.findTaxonById fuel (objects content) (Some content_taxa)
        (Js.template taxon.1) true;
    match tmpTaxon with
    | None => Return (db, sendStatus 404)
    | Some tmpTaxon =>
    '(h, valid) ←
      Taxon.modifyTaxonNames fuel h tmpTaxon (Js.template taxon.1)
        (Some content_taxa) body;
    '(h, content_taxa, content_statements) ←
      match Taxon.body_parentId body with
      | Some parentId =>
          tmp ← deref ((h : Taxon.heap) !! (tmpTaxon : Taxon.loc));
          let content_statements :=
            match statements content with
            | Some sts => Some (filter (λ element, taxonId element ≠ Taxon.id tmp) sts)
            | None => None
            end in
          '(h, content_taxa) ←
            Taxon.updateParentTaxon fuel h tmpTaxon parentId content_taxa taxon.1;
          Return (h, content_taxa, content_statements)
      | None => Return (h, content_taxa, statements content)
      end;
    let h := delete_parentId tmpTaxon h in
    let content :=
      mkContent h (Some content_taxa) (characters content) content_statements in
    if (valid : bool) then
      _ ← serialise fuel content;
      let '(db, _, revisionId) :=
        createRevision DEFAULT_KEY_MODE db key content (Revision.media revision) user
          (Some ("Updated taxon: " +:+ Taxon.body_scientificName body))
          (mode revision) uuid in
      Return (db, json 200 (RevisionId revisionId))
    else Return (db, sendStatus 409)
    end end end end).

(** [router.post('/', ...)] of the taxa routes. The object literal
    [newTaxon] is a new object of the store. The document passed to
    [createRevision] is the one [findTaxonByName] has walked through to
    its leaves, with the new leaf added: it is not circular. *)
Definition post_taxon `{!Js.Unicode} (fuel : nat) (DEFAULT_KEY_MODE : option Z) (db : Db)
    (body : Taxon.Body) (user : string) (uuid : string) : option (Db * Response) :=
  try_catch db (
    '(revision, key) ← findRevisionForKey db (Taxon.revisionId body) (Taxon.keyId body);
    match key with
    | None => Return (db, sendStatus 404)
    | Some key =>
    let content := Revision.content revision in
    let content_taxa := default [] (taxa content) in
    found ←
      Taxon.findTaxonByName fuel (objects content) (Some content_taxa)
        (Taxon.body_scientificName body) None;
    match found with
    | Some _ => Return (db, sendStatus 409)
    | None =>
    let '(vernacularName, description) := Taxon.setTaxonInfo body in
    let '(db, taxon) := Taxon_create db (Taxon.keyId body) in
    let newTaxon : Taxon.loc := length (objects content) in
    let h : Taxon.heap :=
      objects content ++
      [Taxon.mkTaxon (Js.template taxon.1) (Taxon.body_scientificName body)
         vernacularName description None None None] in
    '(h, content_taxa) ←
      match Taxon.body_parentId body with
      | Some parentId =>
          if decide (parentId ≠ 0) then
            h ← Taxon.addToParent fuel h (Some content_taxa) newTaxon parentId;
            Return (h, content_taxa)
          else Return (h, content_taxa ++ [newTaxon])
      | None => Return (h, content_taxa ++ [newTaxon])
      end;
    let content :=
      mkContent h (Some content_taxa) (characters content) (statements content) in
    let '(db, _, revisionId) :=
      createRevision DEFAULT_KEY_MODE db key content (Revision.media revision) user
        (Some ("Created new taxon: " +:+ Taxon.body_scientificName body))
        (mode revision) uuid in
    Return (db, json 200 (Created revisionId (Js.template taxon.1)))
    end end).

End Routes.

(** ** Notions of the specification *)

Module Spec.

Import Character.

(** Premise invalidation on state removal, in the words of section 4.2:
    filter each disjunction clause removing the entries whose [stateId] is
    the removed one, drop any now-degenerate disjunction (length at most
    1), and clear the premise if only one disjunction remains overall. *)
Definition clause_without_state (removed : string) (clause : Clause) : Clause :=
  filter (λ entry, stateId entry ≠ removed) clause.

Definition degenerate (clause : Clause) : Prop := (length clause ≤ 1)%nat.

Definition invalidated_premise (removed : string) (premise : Premise) : option Premise :=
  let remaining :=
    filter (λ clause, ¬ degenerate clause) (clause_without_state removed <$> premise) in
  if decide (length remaining = 1%nat) then None else Some remaining.

(** A premise no longer mentions character [cid] and has no degenerate
    disjunction. *)
Definition purged_of_character (cid : string) (c : Character.t) : Prop :=
  ∀ premise, logicalPremise c = Some premise →
    Forall (λ clause, ¬ degenerate clause ∧
                      Forall (λ entry, characterId entry ≠ cid) clause) premise.

(** The condition under which a numerical update purges the premises, in
    the words of the claim: the step size changes, or the new min is below
    the existing min, or the existing max is greater than the new max. *)
Definition purge_condition_as_claimed (newValues existingValues : NumericalState) : Prop :=
  (¬ stepSize existingValues == stepSize newValues
   ∨ min newValues < min existingValues
   ∨ max newValues < max existingValues)%Q.

(** The condition of the code: the step size changes, or the existing min
    is below the new min, or the existing max is greater than the new
    max. *)
Definition purge_condition (newValues existingValues : NumericalState) : Prop :=
  (¬ stepSize existingValues == stepSize newValues
   ∨ min existingValues < min newValues
   ∨ max newValues < max existingValues)%Q.

(** What the loop body of [removeStatePremises] amounts to on one
    character, and what the one of [removeCharacterPremises] does. *)
Definition state_removed (removed : string) (c : Character.t) : Character.t :=
  match logicalPremise c with
  | Some premise => set_logicalPremise (invalidated_premise removed premise) c
  | None => c
  end.

Definition character_removed (cid : string) (c : Character.t) : Character.t :=
  match logicalPremise c with
  | Some premise =>
      set_logicalPremise
        (Some (filter (λ clause, ¬ degenerate clause)
                 (filter (λ entry, characterId entry ≠ cid) <$> premise))) c
  | None => c
  end.

(** The ids of an entity's media list, as the strings the code compares. *)
Definition media_ids (entity_media : list MediaId) : list string :=
  MediaId_template <$> entity_media.

(** The text of one language after an update that may request it. *)
Definition updated_text (requested current : option string) : option string :=
  if Js.truthy requested then requested else current.

Import Taxon.

(** The references reachable from the array [arr], in document order;
    [None] when the store is not a finite tree of depth below [fuel]. *)
Fixpoint tree_nodes (fuel : nat) (h : heap) (arr : list loc) : option (list loc) :=
  match fuel with
  | O => None
  | S fuel' =>
      subtrees ←
        mapM (λ e,
          element ← h !! e;
          below ← match children element with
                  | Some cs => tree_nodes fuel' h cs
                  | None => Some []
                  end;
          Some (e :: below)) arr;
      Some (concat subtrees)
  end.

(** The scientific name of a node, upper-cased, and its id. *)
Definition upper_name `{!Js.Unicode} (h : heap) (l : loc) : option string :=
  (λ o, Js.toUpperCase (scientificName o)) <$> h !! l.
Definition node_id (h : heap) (l : loc) : option string :=
  id <$> h !! l.

(** The search both [findTaxonById] and [findTaxonByName] perform: the last
    match in document order, without descending below a match. *)
Fixpoint search (fuel : nat) (h : heap) (p : Taxon.t → bool) (arr : list loc)
    : outcome (option loc) :=
  match fuel with
  | O => Stuck
  | S fuel' =>
      forEach (λ taxon e,
        element ← deref (h !! e);
        if p element then Return (Some e)
        else
          match children element with
          | Some cs =>
              tmp ← search fuel' h p cs;
              match tmp with
              | Some tmp => Return (Some tmp)
              | None => Return taxon
              end
          | None => Return taxon
          end) None arr
  end.

(** The result [r] of a search among the nodes [ns]: a node that passes
    the test, or none when no node passes it. *)
Definition search_result (h : heap) (p : Taxon.t → bool) (ns : list loc)
    (r : option loc) : Prop :=
  match r with
  | Some y => y ∈ ns ∧ ∃ o, h !! y = Some o ∧ p o = true
  | None => ∀ y o, y ∈ ns → h !! y = Some o → p o = false
  end.

(** What [findTaxonById(arr, id, true)] may have done to an object [o] of
    the store: nothing, or the assignment of the id of an element of [arr]
    that has children to [parentId]. *)
Definition annotation (h : heap) (arr : list loc) (o o1 : Taxon.t) : Prop :=
  o1 = o ∨
  ∃ e element, e ∈ arr ∧ h !! e = Some element ∧ is_Some (children element) ∧
               o1 = set_parentId (Some (id element)) o.

(** Two stores with the same objects up to the properties other than [id]
    and [children]. *)
Definition same_links (h h' : heap) : Prop :=
  Forall2 (λ o o', id o' = id o ∧ children o' = children o) h h'.

End Spec.

(** ** Sample documents *)

Module Examples.

Import Character.

Definition two_clause_character : Character.t :=
  mkCharacter "7" (mkLangText None (Some "leaf shape")) (mkLangText None None)
    "exclusive" (Alternatives [])
    (Some [[mkEntry "1" "a"; mkEntry "1" "b"]]) None.

Definition size_character : Character.t :=
  mkCharacter "8" (mkLangText None (Some "wing colour")) (mkLangText None None)
    "exclusive" (Alternatives [])
    (Some [[mkEntry "7" "70"; mkEntry "7" "71"; mkEntry "9" "90"]]) None.

Definition range (lo hi step : Z) : NumericalState :=
  mkNumerical "70" None (inject_Z lo) (inject_Z hi) (inject_Z step).

Import Media.

Definition two_photos : list MediaId := [IdNum 5; IdNum 6].

Definition ledger : RevisionMedia :=
  mkRevisionMedia
    (Some [mkMediaElement (IdStr "5") None None (Some ["anna"]);
           mkMediaElement (IdStr "6") None None None])
    (Some [mkPerson "anna" "Anna"]).

Definition photo : MediaRow :=
  mkMediaRow 7 (Some "media/keys/k1/7.jpg") (Some "media/keys/k1/7-thumbnail.jpg").

(** The primary file of [photo] is gone from the storage, its thumbnail
    is there. *)
Definition world_without_primary_file : world :=
  mkWorld {[ "media/keys/k1/7-thumbnail.jpg" := Regular ]}
          {[ 7 := photo ]}
          [mkMediaInfoRow 1 7 "no" "Blomst"; mkMediaInfoRow 2 7 "en" "Flower"].

Import Revision.

Definition empty_content : Content := mkContent [] None None None.
Definition empty_media : RevisionMedia := mkRevisionMedia None None.
Definition fresh_key : Key := mkKey "k1" None.
Definition db_with_fresh_key : Db := mkDb {[ "k1" := fresh_key ]} ∅ [] [].

Definition accepted_revision : Revision.t :=
  mkRevision "r1" empty_content empty_media None "user" ACCEPTED (Some 1).
Definition draft_revision : Revision.t :=
  mkRevision "r2" empty_content empty_media None "user" DRAFT (Some 1).
Definition db_with_two_revisions : Db :=
  mkDb {[ "k1" := mkKey "k1" (Some "r1") ]}
       (<[ "r2" := draft_revision ]> {[ "r1" := accepted_revision ]})
       [("k1", "r1"); ("k1", "r2")] [].

Import Taxon.

Definition leaf (i name : string) : Taxon.t :=
  mkTaxon i name None None None None None.
Definition inner (i name : string) (cs : list loc) : Taxon.t :=
  mkTaxon i name None None None None (Some cs).

(** The tree
    [[ Aves [ Passeriformes [ Corvus ], Strigiformes ], Mammalia ]]:
    [Corvus] is a grandchild of the top-level [Aves]. *)
Definition birds : heap :=
  [inner "1" "Aves" [1%nat; 3%nat];
   inner "2" "Passeriformes" [2%nat];
   leaf "3" "Corvus";
   leaf "4" "Strigiformes";
   leaf "5" "Mammalia"].
Definition birds_taxa : list loc := [0%nat; 4%nat].

Definition birds_revision : Revision.t :=
  mkRevision "r1" (mkContent birds (Some birds_taxa) None None) empty_media
    None "user" ACCEPTED (Some 1).
Definition birds_db : Db :=
  mkDb {[ "k1" := mkKey "k1" (Some "r1") ]} {[ "r1" := birds_revision ]}
       [("k1", "r1")] [(1, "k1"); (2, "k1"); (3, "k1"); (4, "k1"); (5, "k1")].

(** A request body of the taxa routes on [birds_revision]. *)
Definition request (name : string) (vernacularNameNo : option string)
    (parentId : option Z) : Body :=
  mkBody "k1" "r1" name vernacularNameNo None None None parentId.

End Examples.

(** * Further functions of the sources *)

(** ** Invariants of the revision store *)

Module Invariant.

Import Revision.

(** The revision a key points to exists and is [ACCEPTED]; a pointer is a
    non-empty string. *)
Definition current_accepted (db : Db) : Prop :=
  ∀ k key rid, Key_table db !! k = Some key → revisionId key = Some rid → rid ≠ "" →
    ∃ revision, Revision_table db !! rid = Some revision ∧ status revision = ACCEPTED.

(** The revision a key points to is linked to that key. *)
Definition current_linked (db : Db) : Prop :=
  ∀ k key rid, Key_table db !! k = Some key → revisionId key = Some rid → rid ≠ "" →
    (k, rid) ∈ Revisions_table db.

(** A revision is linked to one key at most. *)
Definition single_owner (db : Db) : Prop :=
  ∀ k1 k2 rid, (k1, rid) ∈ Revisions_table db → (k2, rid) ∈ Revisions_table db → k1 = k2.

Definition well_formed (db : Db) : Prop :=
  current_accepted db ∧ current_linked db ∧ single_owner db.

(** The rows of the [Key] table are stored under their id. *)
Definition keys_indexed (db : Db) : Prop :=
  ∀ k key, Key_table db !! k = Some key → key_id key = k.

(** A character's premise has no entry on state [s]. *)
Definition free_of_state (s : string) (c : Character.t) : Prop :=
  ∀ premise, Character.logicalPremise c = Some premise →
    Forall (λ clause, Forall (λ entry, Character.stateId entry ≠ s) clause) premise.

End Invariant.

(** ** Revisions edited in place ([src/routes/characters.js]) *)

Module InPlace.

Import Revision Routes.

Definition set_objects (v : Taxon.heap) (c : Content) : Content :=
  mkContent v (taxa c) (characters c) (statements c).
Definition set_characters (v : option (list Character.t)) (c : Content) : Content :=
  mkContent (objects c) (taxa c) v (statements c).

Definition set_content (v : Content) (r : Revision.t) : Revision.t :=
  mkRevision (id r) v (media r) (note r) (createdBy r) (status r) (mode r).
Definition set_media (v : Media.RevisionMedia) (r : Revision.t) : Revision.t :=
  mkRevision (id r) (content r) v (note r) (createdBy r) (status r) (mode r).

(** Modelled from the spec: [Revision.update({ content }, { where: { id } })],
    [Revision.update({ media }, ...)] and [Revision.update({ content,
    media }, ...)], update by id. *)
Definition Revision_update_content (db : Db) (id : string) (content : Content) : Db :=
  mkDb (Key_table db) (alter (set_content content) id (Revision_table db))
       (Revisions_table db) (Taxon_table db).
Definition Revision_update_media (db : Db) (id : string) (media : Media.RevisionMedia) : Db :=
  mkDb (Key_table db) (alter (set_media media) id (Revision_table db))
       (Revisions_table db) (Taxon_table db).
Definition Revision_update_content_media (db : Db) (id : string) (content : Content)
    (media : Media.RevisionMedia) : Db :=
  Revision_update_media (Revision_update_content db id content) id media.

(** [req.body.states.forEach((state) => { content.characters =
    removeStatePremises(state, content.characters); })]. *)
Definition remove_states (states : list string) (characters : list Character.t)
    : list Character.t :=
  fold_left (λ characters state, Character.removeStatePremises state characters)
    states characters.

(** [router.put('/states/revision/:revisionId', ...)], the handler after
    the validators and the permission check. *)
Definition put_states_revision (db : Db) (param_revisionId body_keyId : string)
    (body_states : list string) : Db * Response :=
  match findRevisionForKey db param_revisionId body_keyId with
  | Return (revision, Some key) =>
      match characters (content revision) with
      | Some content_characters =>
          let content :=
            set_characters (Some (remove_states body_states content_characters))
              (content revision) in
          (Revision_update_content db param_revisionId content, sendStatus 200)
      | None => (db, sendStatus 404)
      end
  | Return (revision, None) => (db, sendStatus 404)
  | _ => (db, sendStatus 500)
  end.

(** [router.put('/mode/:revisionId', ...)] of the revision routes. *)
Definition put_mode (DEFAULT_KEY_MODE : option Z) (db : Db)
    (param_revisionId body_keyId : string) (body_mode : Z) (user uuid : string)
    : Db * Response :=
  match findRevisionForKey db param_revisionId body_keyId with
  | Return (revision, Some key) =>
      let '(db, _, revisionId) :=
        createRevision DEFAULT_KEY_MODE db key (content revision) (media revision) user
          (Some ("Changed key mode to " +:+
                 (if decide (body_mode = 1) then "simple" else "advanced")))
          (Some body_mode) uuid in
      (db, json 200 (RevisionId revisionId))
  | Return (revision, None) => (db, sendStatus 403)
  | _ => (db, sendStatus 500)
  end.

(** [handleUpdateKey(keyId, body)] ([src/utils/key.js]), on the column
    [revisionId] of the key: [revision.status] throws when
    [Revision.findByPk] finds none. *)
Definition handleUpdateKey (db : Db) (keyId body_revisionId : string) : outcome Db :=
  match Revision_table db !! body_revisionId with
  | Some revision =>
      if decide (status revision = ACCEPTED)
      then Return (Key_update_revisionId db keyId (Some body_revisionId))
      else Throws
  | None => Throws
  end.

End InPlace.

(** ** The media ledger of a revision ([src/utils/media.js]) *)

Module Ledger.

Import Media.

(** [name.replace(/\s+/g, '').toLowerCase()], the id of a person. *)
Definition person_id_of `{!Js.Unicode} (name : string) : string :=
  Js.toLowerCase (Js.remove_whitespace name).

(** The file info of an upload and the body of a ledger update: the same
    four properties. *)
Record FileInfo := mkFileInfo {
  titleNo : option string;
  titleEn : option string;
  creators : option (list string);
  licenseUrl : option string
}.

(** [addToRevisionMedia(revision, media, fileInfo)], on [revision.media]
    and [media.id]: the returned [{ mediaElements, persons }]. *)
Definition addToRevisionMedia `{!Js.Unicode} (revision_media : RevisionMedia) (media_id : Z)
    (fileInfo : option FileInfo) : RevisionMedia :=
  let mediaElements := default [] (mediaElements revision_media) in
  let persons := default [] (persons revision_media) in
  let title :=
    match fileInfo with
    | Some fi =>
        if Js.truthy (titleNo fi) || Js.truthy (titleEn fi)
        then Some (mkLangText (Js.or_undefined (titleNo fi)) (Js.or_undefined (titleEn fi)))
        else None
    | None => None
    end in
  let '(persons, creators) :=
    match fileInfo ≫= creators with
    | Some names =>
        fold_left (λ '(persons, creators) name,
          let id := person_id_of name in
          (persons ++ [mkPerson id name], creators ++ [id])) names (persons, [])
    | None => (persons, [])
    end in
  mkRevisionMedia
    (Some (mediaElements ++
           [mkMediaElement (IdStr (Js.template media_id)) title
              (fileInfo ≫= licenseUrl)
              (if (0 <? length creators)%nat then Some creators else None)]))
    (Some persons).

Definition set_title (v : option LangText) (e : MediaElement) : MediaElement :=
  mkMediaElement (id e) v (license e) (Media.creators e).
Definition set_license (v : option string) (e : MediaElement) : MediaElement :=
  mkMediaElement (id e) (title e) v (Media.creators e).
Definition set_creators (v : option (list string)) (e : MediaElement) : MediaElement :=
  mkMediaElement (id e) (title e) (license e) v.

(** [media.persons.find((person) => person.id === id)] as a test. *)
Definition known_person (persons : list Person) (id : string) : bool :=
  bool_decide (id ∈ person_id <$> persons).

(** [updateMediaElement(body, mediaElement, media)]: the element and
    [media.persons] after the call. [media.persons.find] throws when
    [media.persons] is [undefined]. *)
Definition updateMediaElement `{!Js.Unicode} (body : FileInfo) (mediaElement : MediaElement)
    (persons : option (list Person)) : outcome (MediaElement * option (list Person)) :=
  let mediaElement :=
    if Js.truthy (titleNo body) || Js.truthy (titleEn body) then
      let mediaElement :=
        match title mediaElement with
        | Some _ => mediaElement
        | None => set_title (Some (mkLangText None None)) mediaElement
        end in
      let mediaElement :=
        match titleNo body with
        | Some v => if Js.truthy (Some v)
                    then set_title (Taxon.assign_no v (title mediaElement)) mediaElement
                    else mediaElement
        | None => mediaElement
        end in
      match titleEn body with
      | Some v => if Js.truthy (Some v)
                  then set_title (Taxon.assign_en v (title mediaElement)) mediaElement
                  else mediaElement
      | None => mediaElement
      end
    else mediaElement in
  let mediaElement :=
    if Js.truthy (licenseUrl body) then set_license (licenseUrl body) mediaElement
    else mediaElement in
  match creators body with
  | Some names =>
      let mediaElement := set_creators (Some (person_id_of <$> names)) mediaElement in
      persons ←
        forEach (λ (persons : option (list Person)) creator,
          match persons with
          | Some ps =>
              let id := person_id_of creator in
              if negb (known_person ps id)
              then Return (Some (ps ++ [mkPerson id creator]))
              else Return (Some ps)
          | None => Throws
          end) persons names;
      Return (mediaElement, persons)
  | None => Return (mediaElement, persons)
  end.

(** The body of the request that detaches media from an entity. *)
Record RemoveBody := mkRemoveBody {
  entityId : string;
  stateId : option string;
  body_media : list Js.value
}.

Definition set_character_media (v : option (list MediaId)) (c : Character.t) : Character.t :=
  Character.mkCharacter (Character.id c) (Character.title c) (Character.description c)
    (Character.type c) (Character.states c) (Character.logicalPremise c) v.
Definition set_states (v : Character.States) (c : Character.t) : Character.t :=
  Character.mkCharacter (Character.id c) (Character.title c) (Character.description c)
    (Character.type c) v (Character.logicalPremise c) (Character.media c).
Definition set_state_media (v : option (list MediaId)) (s : Character.State)
    : Character.State :=
  Character.mkState (Character.state_id s) (Character.state_title s)
    (Character.state_description s) v.

(** [removeFromRevision(url, body, taxa, characters, media)]: the store,
    [characters] and [media] after the call. The found entity is the very
    object of the document; [characters.find] throws on [undefined], and so
    does [character.states.find] when no character is found or when
    [states] is the object of a numerical character. *)
Definition removeFromRevision (fuel : nat) (url : string) (body : RemoveBody)
    (h : Taxon.heap) (taxa : option (list Taxon.loc))
    (characters : option (list Character.t)) (media : RevisionMedia)
    : outcome (Taxon.heap * option (list Character.t) * RevisionMedia) :=
  if decide (url = "/taxon") then
    '(h, taxon) ← Taxon.findTaxonById fuel h taxa (entityId body) false;
    match taxon with
    | Some t =>
        o ← deref ((h : Taxon.heap) !! (t : Taxon.loc));
        match Taxon.media o with
        | Some entity_media =>
            let '(arr, media) := removeEntityMedia entity_media media (body_media body) in
            Return (alter (Taxon.set_media (Some arr)) t h, characters, media)
        | None => Return (h, characters, media)
        end
    | None => Return (h, characters, media)
    end
  else if decide (url = "/character") then
    match characters with
    | Some chars =>
        match list_find (λ element, Character.id element = entityId body) chars with
        | Some (i, character) =>
            match Character.media character with
            | Some entity_media =>
                let '(arr, media) :=
                  removeEntityMedia entity_media media (body_media body) in
                Return (h, Some (alter (set_character_media (Some arr)) i chars), media)
            | None => Return (h, characters, media)
            end
        | None => Return (h, characters, media)
        end
    | None => Throws
    end
  else if decide (url = "/state") then
    match characters with
    | Some chars =>
        match list_find (λ element, Character.id element = entityId body) chars with
        | Some (i, character) =>
            match Character.states character with
            | Character.Alternatives states =>
                match list_find (λ element, Some (Character.state_id element) = stateId body)
                        states with
                | Some (j, state) =>
                    match Character.state_media state with
                    | Some entity_media =>
                        let '(arr, media) :=
                          removeEntityMedia entity_media media (body_media body) in
                        let states := alter (set_state_media (Some arr)) j states in
                        Return (h,
                                Some (alter (set_states (Character.Alternatives states)) i chars),
                                media)
                    | None => Return (h, characters, media)
                    end
                | None => Return (h, characters, media)
                end
            | Character.Numerical _ => Throws
            end
        | None => Throws
        end
    | None => Throws
    end
  else Return (h, characters, media).

Import Revision Routes InPlace.

(** [addMediaToRevision(media, fileInfo, keyId, revisionId, entityId,
    entity, characterId)]: the store after the call. [state.media] throws
    when the character has no such state. *)
Definition addMediaToRevision `{!Js.Unicode} (fuel : nat) (db : Db) (media_id : Z)
    (fileInfo : option FileInfo) (keyId revisionId entityId entity : string)
    (characterId : option string) : outcome Db :=
  match Revisions_findOne db revisionId keyId with
  | Some keyRevision =>
      match Revision_table db !! revisionId with
      | Some revision =>
          let content := Revision.content revision in
          let revisionMedia := addToRevisionMedia (Revision.media revision) media_id fileInfo in
          content ←
            if decide (entity = "taxa") then
              '(h, taxon) ←
                Taxon.findTaxonById fuel (objects content) (taxa content) entityId false;
              match taxon with
              | Some t =>
                  o ← deref ((h : Taxon.heap) !! (t : Taxon.loc));
                  let arr := default [] (Taxon.media o) ++ [IdNum media_id] in
                  Return (set_objects (alter (Taxon.set_media (Some arr)) t h) content)
              | None => Return (set_objects h content)
              end
            else if decide (entity = "characters") then
              match characters content with
              | Some chars =>
                  match list_find (λ element, Character.id element = entityId) chars with
                  | Some (i, character) =>
                      let arr := default [] (Character.media character) ++ [IdNum media_id] in
                      Return (set_characters
                                (Some (alter (set_character_media (Some arr)) i chars)) content)
                  | None => Return content
                  end
              | None => Throws
              end
            else if decide (entity = "state") then
              match characters content with
              | Some chars =>
                  match list_find (λ element, Some (Character.id element) = characterId)
                          chars with
                  | Some (i, character) =>
                      match Character.states character with
                      | Character.Alternatives states =>
                          match list_find (λ element, Character.state_id element = entityId)
                                  states with
                          | Some (j, state) =>
                              let arr :=
                                default [] (Character.state_media state)
                                ++ [IdStr (Js.template media_id)] in
                              let states := alter (set_state_media (Some arr)) j states in
                              Return (set_characters
                                        (Some (alter (set_states (Character.Alternatives states))
                                                 i chars)) content)
                          | None => Throws
                          end
                      | Character.Numerical _ => Throws
                      end
                  | None => Return content
                  end
              | None => Throws
              end
            else Return content;
          Return (Revision_update_content_media db revisionId content revisionMedia)
      | None => Throws
      end
  | None => Throws
  end.

(** [router.put('/revision/:revisionId', ...)] of the media routes. The
    found element is an object of [media.mediaElements], updated where it
    stands. *)
Definition put_revision_media `{!Js.Unicode} (db : Db) (param_revisionId : string)
    (body_mediaId : Z) (body : FileInfo) : option (Db * Response) :=
  try_catch db (
    match Revision_table db !! param_revisionId with
    | Some revision =>
        let media := Revision.media revision in
        match mediaElements media with
        | Some elements =>
            let mediaElement :=
              list_find (λ element, MediaId_template (Media.id element)
                                    = Js.template body_mediaId) elements in
            let persons :=
              match persons media with
              | Some ps => Some ps
              | None => Some []
              end in
            match mediaElement with
            | Some (i, mediaElement) =>
                '(mediaElement, persons) ← updateMediaElement body mediaElement persons;
                let media := mkRevisionMedia (Some (<[i := mediaElement]> elements)) persons in
                Return (Revision_update_media db param_revisionId media, sendStatus 200)
            | None => Return (db, sendStatus 404)
            end
        | None => Return (db, sendStatus 404)
        end
    | None => Return (db, sendStatus 404)
    end).

(** [router.delete(['/taxon', '/character', '/state'], ...)] of the media
    routes; [const { content, media } = revision] throws when
    [Revision.findByPk] finds none. *)
Definition delete_entity_media (fuel : nat) (db : Db) (url : string)
    (body_revisionId : string) (body : RemoveBody) : option (Db * Response) :=
  try_catch db (
    match Revision_table db !! body_revisionId with
    | Some revision =>
        let content := Revision.content revision in
        '(h, characters, media) ←
          removeFromRevision fuel url body (objects content) (taxa content)
            (characters content) (Revision.media revision);
        let content := set_characters characters (set_objects h content) in
        Return (Revision_update_content_media db body_revisionId content media,
                sendStatus 200)
    | None => Throws
    end).

End Ledger.

(** ** States of a character ([src/utils/character.js]) *)

Module States.

(** An alternative of the request body. *)
Record Alternative := mkAlternative {
  alt_id : Z;
  alt_title : option LangText;
  alt_description : option LangText;
  alt_media : option (list MediaId)
}.

(** Modelled from the spec: the table [CharacterState] of rows
    [(id, characterId)], the character being optional, and
    [CharacterState.update({ characterId }, { where: { id } })], update by
    id, which answers the number of rows it changed. *)
Abbreviation CharacterState_table := (gmap Z (option Z)).

Definition CharacterState_update (table : CharacterState_table) (characterId id : Z)
    : CharacterState_table * Z :=
  match table !! id with
  | Some _ => (<[id := Some characterId]> table, 1)
  | None => (table, 0)
  end.

(** The object [title] (or [description]) built from an alternative:
    [undefined] when it has no entry. *)
Definition entries (text : option LangText) : option LangText :=
  let title :=
    match text with
    | Some l => mkLangText (Js.or_undefined (no l)) (Js.or_undefined (en l))
    | None => mkLangText None None
    end in
  if bool_decide (no title = None ∧ en title = None) then None else Some title.

(** The state resolved for an alternative whose row exists. *)
Definition state_of (alternative : Alternative) : Character.State :=
  Character.mkState (Js.template (alt_id alternative))
    (entries (alt_title alternative)) (entries (alt_description alternative))
    (alt_media alternative).

(** [createMultiStates(character, alternatives)]: every update is issued
    by the loop; the promise of an alternative is rejected when its update
    changed no row, and [Promise.all] then rejects. The table after the
    call and the awaited result. *)
Definition createMultiStates (table : CharacterState_table) (characterId : Z)
    (alternatives : list Alternative)
    : CharacterState_table * outcome (list Character.State) :=
  let '(table, promises) :=
    fold_left (λ '(table, promises) alternative,
      let '(table, response) := CharacterState_update table characterId (alt_id alternative) in
      (table,
       promises ++ [if decide (response ≠ 0) then Return (state_of alternative) else Throws]))
      alternatives (table, []) in
  (table,
   forEach (λ states (promise : outcome Character.State),
     state ← promise; Return (states ++ [state])) [] promises).

End States.

(** ** Collections of a key ([src/utils/key.js]) *)

Module KeyAdmin.

(** Modelled from the spec: the join table [Collections] of rows
    [(id, keyId, collectionId)] with a generated (serial) id, and its
    find-with-filter, destroy-by-ids and create. *)
Record CollectionsRow := mkCollectionsRow {
  row_id : Z;
  keyId : string;
  collectionId : Z
}.

Definition Collections_findAll (rows : list CollectionsRow) (k : string)
    : list CollectionsRow :=
  filter (λ row, keyId row = k) rows.

Definition Collections_destroy (rows : list CollectionsRow) (ids : list Z)
    : list CollectionsRow :=
  filter (λ row, row_id row ∉ ids) rows.

(** The next value of the serial: above every id in use. *)
Definition serial (rows : list CollectionsRow) : Z :=
  1 + foldr (λ row m, Z.max (row_id row) m) 0 rows.

Definition Collections_create (rows : list CollectionsRow) (k : string) (c : Z)
    : list CollectionsRow :=
  rows ++ [mkCollectionsRow (serial rows) k c].

(** [updateCollections(keyId, collectionIds)]; [collectionIds] is
    [undefined] when the request has no [collections], and reading it
    throws. The rows are created in a table that still holds the rows to
    destroy, so that no id is used again. *)
Definition updateCollections (rows : list CollectionsRow) (k : string)
    (collectionIds : option (list Z)) : outcome (list CollectionsRow) :=
  let collections := Collections_findAll rows k in
  match collectionIds with
  | Some collectionIds =>
      let removed :=
        row_id <$> filter (λ element, collectionId element ∉ collectionIds) collections in
      let added :=
        filter (λ id, id ∉ collectionId <$> collections) collectionIds in
      let rows := fold_left (λ rows c, Collections_create rows k c) added rows in
      Return (if (0 <? length removed)%nat then Collections_destroy rows removed else rows)
  | None => Throws
  end.

End KeyAdmin.

(** ** Parents of key groups ([src/utils/group.js]) *)

Module Groups.

(** Modelled from the spec: the table [GroupParents] of rows
    [(id, groupId, parentId)] with find-with-filter, [row.destroy()],
    [row.update({ parentId })] and create with a generated id. *)
Record ParentRow := mkParentRow {
  row_id : Z;
  groupId : Z;
  parentId : Z
}.

Definition GroupParents_findOne (rows : list ParentRow) (g : Z) : option ParentRow :=
  snd <$> list_find (λ row, groupId row = g) rows.

Definition destroy (rows : list ParentRow) (row : ParentRow) : list ParentRow :=
  filter (λ r, row_id r ≠ row_id row) rows.

Definition update (rows : list ParentRow) (row : ParentRow) (p : Z) : list ParentRow :=
  (λ r, if decide (row_id r = row_id row) then mkParentRow (row_id r) (groupId r) p else r)
    <$> rows.

Definition GroupParents_create (rows : list ParentRow) (new_id g p : Z) : list ParentRow :=
  rows ++ [mkParentRow new_id g p].

(** [updateGroupParents(groupId, parentId)]; [new_id] is the id the store
    generates if a row is created. *)
Definition updateGroupParents (rows : list ParentRow) (new_id g p : Z) : list ParentRow :=
  match GroupParents_findOne rows g with
  | Some parent =>
      if decide (parentId parent ≠ p) then
        if decide (p = 0) then destroy rows parent
        else update rows parent p
      else rows
  | None =>
      if decide (p ≠ 0) then GroupParents_create rows new_id g p else rows
  end.

End Groups.

(** ** Permission on a key ([src/middleware/auth.js]) *)

Module Auth.

(** A row of [getUserPermissions]: a permission of the user's role and
    one of the user's workgroups, [null] when the user has none. *)
Record PermissionRow := mkPermissionRow {
  permission_name : string;
  workgroup_id : option Z
}.

(** The columns of a key the middleware reads. *)
Record KeyRow := mkKeyRow {
  createdBy : string;
  workgroupId : option Z
}.

(** The middleware calls [next()], leaving [res.locals.permissions], or
    answers with a status. *)
Inductive Verdict :=
| next (permissions : list string)
| refused (code : Z).

(** A [Set] of strings, in insertion order. *)
Definition Set_add (s : string) (set : list string) : list string :=
  if bool_decide (s ∈ set) then set else set ++ [s].
Definition new_Set (l : list string) : list string :=
  fold_left (λ set s, Set_add s set) l [].

(** [isPermittedKey(permission)], on the results of its four queries:
    [user] is the row of [User.findByPk(req.user)] ([null] makes
    [user.organization_id] throw), [permissions] the rows of
    [getUserPermissions(req.user, [permission])], [keys] the rows of
    [Key.findAll], [editors] those of [Editors.findAll]. *)
Definition isPermittedKey {User Editor} (permission : string) (req_user : option string)
    (user : option User) (permissions : list PermissionRow) (keys : list KeyRow)
    (editors : list Editor) : Verdict :=
  if Js.truthy req_user then
    match user with
    | Some _ =>
        let permissionsSet := new_Set (permission_name <$> permissions) in
        let workgroups := (workgroup_id <$> permissions) ++ [None] in
        let permissionsSet :=
          match keys with
          | key :: _ =>
              if bool_decide (Some (createdBy key) = req_user) then
                Set_add "EDIT_KEY_INFO"
                  (Set_add "EDIT_KEY" (Set_add "SHARE_KEY" (Set_add "PUBLISH_KEY" permissionsSet)))
              else if bool_decide (workgroupId key = None)
                      || negb (bool_decide (workgroupId key ∈ workgroups))
              then []
              else permissionsSet
          | [] => []
          end in
        let permissionsSet :=
          if (0 <? length editors)%nat then Set_add "EDIT_KEY" permissionsSet
          else permissionsSet in
        if bool_decide (permission ∈ permissionsSet) then next permissionsSet
        else refused 403
    | None => refused 500
    end
  else refused 403.

End Auth.

(** ** Titles of a media row ([src/utils/media.js]) *)

Module Titles.

Import Media.

(** Modelled from the spec: [MediaInfo.update({ title }, { where: { id } })],
    [MediaInfo.create(values)] with a generated id and
    [MediaInfo.destroy({ where: { id } })] on the table [MediaInfo]. *)
Definition MediaInfo_update (rows : list MediaInfoRow) (id : Z) (title : string)
    : list MediaInfoRow :=
  (λ row, if decide (info_id row = id)
          then mkMediaInfoRow (info_id row) (mediaId row) (languageCode row) title
          else row) <$> rows.

Definition MediaInfo_create (rows : list MediaInfoRow) (new_id m : Z)
    (title languageCode : string) : list MediaInfoRow :=
  rows ++ [mkMediaInfoRow new_id m languageCode title].

Definition MediaInfo_destroy_id (rows : list MediaInfoRow) (id : Z) : list MediaInfoRow :=
  filter (λ row, info_id row ≠ id) rows.

(** [mediaInfo.find((info) => info.languageCode === code)]. *)
Definition find_info (mediaInfo : list MediaInfoRow) (code : string) : option MediaInfoRow :=
  snd <$> list_find (λ info, languageCode info = code) mediaInfo.

(** One of the two blocks of [handleSetMediaInfo], the same for ['no'] and
    ['en']: update, create or destroy the row of one language. *)
Definition set_info (rows : list MediaInfoRow) (new_id m : Z) (code : string)
    (title : option string) (info : option MediaInfoRow) : list MediaInfoRow :=
  if Js.truthy title then
    match info with
    | Some info => MediaInfo_update rows (info_id info) (default "" title)
    | None => MediaInfo_create rows new_id m (default "" title) code
    end
  else
    match info with
    | Some info => MediaInfo_destroy_id rows (info_id info)
    | None => rows
    end.

(** [handleSetMediaInfo(mediaId, mediaInfo, titleNo, titleEn)]; [new_no]
    and [new_en] are the ids the store generates for the rows it creates.
    The operations are on different rows. *)
Definition handleSetMediaInfo (rows : list MediaInfoRow) (new_no new_en : Z) (m : Z)
    (mediaInfo : list MediaInfoRow) (titleNo titleEn : option string)
    : list MediaInfoRow :=
  let infoNo := find_info mediaInfo "no" in
  let infoEn := find_info mediaInfo "en" in
  let rows := set_info rows new_no m "no" titleNo infoNo in
  set_info rows new_en m "en" titleEn infoEn.

(** [MediaInfo.findAll({ where: { mediaId } })]. *)
Definition MediaInfo_findAll (rows : list MediaInfoRow) (m : Z) : list MediaInfoRow :=
  filter (λ row, mediaId row = m) rows.

(** [router.put('/:mediaId', ...)] of the media routes, on the tables
    [Media] and [MediaInfo]; the columns [creators] and [licenseUrl] that
    [media.update] writes are not among those of [MediaRow]. *)
Definition put_media (w : world) (new_no new_en : Z) (param_mediaId : Z)
    (titleNo titleEn : option string) : world * Routes.Response :=
  match mediaTable w !! param_mediaId with
  | Some media =>
      let mediaInfo := MediaInfo_findAll (mediaInfoTable w) param_mediaId in
      (mkWorld (files w) (mediaTable w)
         (handleSetMediaInfo (mediaInfoTable w) new_no new_en param_mediaId mediaInfo
            titleNo titleEn),
       Routes.sendStatus 200)
  | None => (w, Routes.sendStatus 404)
  end.

(** The row that holds the title of a media row in a language, and that
    title. *)
Definition slot (row : MediaInfoRow) : Z * string := (mediaId row, languageCode row).
Definition get_info (rows : list MediaInfoRow) (m : Z) (code : string)
    : option MediaInfoRow :=
  snd <$> list_find (λ row, mediaId row = m ∧ languageCode row = code) rows.
Definition title_of (rows : list MediaInfoRow) (m : Z) (code : string) : option string :=
  info_title <$> get_info rows m code.

(** Ids are distinct, and a media row has one title at most in a
    language. *)
Definition titles_well_formed (rows : list MediaInfoRow) : Prop :=
  NoDup (info_id <$> rows) ∧ NoDup (slot <$> rows).

End Titles.

(** ** Further sample documents *)

Module Samples.

Import Revision Examples.

(** A key whose current, accepted revision has one character with a
    premise of one disjunction. *)
Definition db_with_premises : Db :=
  mkDb {[ "k1" := mkKey "k1" (Some "r1") ]}
       {[ "r1" := mkRevision "r1" (mkContent [] None (Some [two_clause_character]) None)
                    empty_media None "user" ACCEPTED (Some 1) ]}
       [("k1", "r1")] [].

(** The birds, [Corvus] with two photos recorded in the ledger. *)
Definition birds_with_photos : Taxon.heap :=
  alter (Taxon.set_media (Some two_photos)) 2%nat birds.

Definition db_with_media : Db :=
  mkDb {[ "k1" := mkKey "k1" (Some "r1") ]}
       {[ "r1" := mkRevision "r1" (mkContent birds_with_photos (Some birds_taxa) None None)
                    ledger None "user" ACCEPTED (Some 1) ]}
       [("k1", "r1")] [(1, "k1"); (2, "k1"); (3, "k1"); (4, "k1"); (5, "k1")].

(** A storage that holds both files of [photo]. *)
Definition world_with_files : Media.world :=
  Media.mkWorld {[ "media/keys/k1/7.jpg" := Media.Regular;
                   "media/keys/k1/7-thumbnail.jpg" := Media.Regular ]}
                {[ 7 := photo ]}
                [Media.mkMediaInfoRow 1 7 "no" "Blomst"; Media.mkMediaInfoRow 2 8 "en" "Bird"].

(** A document in which two taxa bear the same scientific name, in two
    spellings. *)
Definition twins : Taxon.heap :=
  [Examples.leaf "1" "Corvus"; Examples.leaf "2" "corvus"].
Definition twins_revision : Revision.t :=
  Revision.mkRevision "r1" (Revision.mkContent twins (Some [0%nat; 1%nat]) None None)
    Examples.empty_media None "user" Revision.ACCEPTED (Some 1).
Definition twins_db : Revision.Db :=
  Revision.mkDb {[ "k1" := Revision.mkKey "k1" (Some "r1") ]} {[ "r1" := twins_revision ]}
    [("k1", "r1")] [(1, "k1"); (2, "k1")].

End Samples.

(** * Properties *)

#[local] Arguments Spec.tree_nodes : simpl never.

(** Case analysis on the membership of a node in an explicit list. *)
Ltac each_node Hy :=
  repeat (apply elem_of_cons in Hy as [->|Hy]); [..|by apply elem_of_nil in Hy].

(** ** Premise invalidation on state removal *)

Section premises.
Import Character Spec Examples.

Lemma set_logicalPremise_frame p c :
  Character.id (set_logicalPremise p c) = Character.id c ∧
  title (set_logicalPremise p c) = title c ∧
  description (set_logicalPremise p c) = description c ∧
  type (set_logicalPremise p c) = type c ∧
  states (set_logicalPremise p c) = states c ∧
  media (set_logicalPremise p c) = media c ∧
  logicalPremise (set_logicalPremise p c) = p.
Proof. by destruct c. Qed.

Lemma removeStatePremises_map removed chars :
  removeStatePremises removed chars = state_removed removed <$> chars.
Proof.
  unfold removeStatePremises, forEach_mutating.
  apply list_fmap_ext. intros _ c _.
  unfold state_removed. destruct c as [i t d ty st [premise|] m]; simpl; [|done].
  unfold invalidated_premise, clause_without_state, degenerate.
  assert (Heq : filter (λ subElement : list PremiseEntry, (1 < length subElement)%nat)
     ((λ subElement, filter (λ el, stateId el ≠ removed) subElement) <$> premise)
     = filter (λ clause : Clause, ¬ (length clause ≤ 1)%nat)
     ((λ clause, filter (λ entry, stateId entry ≠ removed) clause) <$> premise)).
  { apply list_filter_iff. intros x. lia. }
  rewrite Heq. by case_decide.
Qed.

Lemma invalidated_premise_clean removed premise p :
  invalidated_premise removed premise = Some p →
  Forall (λ clause, ¬ degenerate clause ∧
                    Forall (λ entry, stateId entry ≠ removed) clause) p.
Proof.
  unfold invalidated_premise. case_decide; [done|]. intros [= <-].
  apply Forall_forall. intros clause Hin.
  apply list_elem_of_filter in Hin as [Hlen Hin].
  apply list_elem_of_fmap in Hin as (c0 & -> & _).
  split; [done|]. apply Forall_forall. intros e He.
  by apply list_elem_of_filter in He as [? _].
Qed.

(** Claim C3. [removeStatePremises] keeps the characters in place and
    touches only [logicalPremise]: a character without a premise is
    unchanged; in a premise, the entries of the removed state are filtered
    out of every disjunction, the disjunctions left with at most one entry
    are dropped, and the premise is cleared to [undefined] when exactly one
    disjunction remains. *)
Theorem removeStatePremises_spec (removed : string) (chars : list Character.t) :
  length (removeStatePremises removed chars) = length chars ∧
  ∀ (i : nat) (c : Character.t), chars !! i = Some c →
    ∃ c', removeStatePremises removed chars !! i = Some c' ∧
      Character.id c' = Character.id c ∧ title c' = title c ∧
      description c' = description c ∧ type c' = type c ∧
      states c' = states c ∧ media c' = media c ∧
      match logicalPremise c with
      | None => c' = c
      | Some premise =>
          logicalPremise c' = invalidated_premise removed premise ∧
          ∀ p, logicalPremise c' = Some p →
            length p ≠ 1%nat ∧
            Forall (λ clause, ¬ degenerate clause ∧
                              Forall (λ entry, stateId entry ≠ removed) clause) p
      end.
Proof.
  rewrite removeStatePremises_map. split; [by rewrite length_fmap|].
  intros i c Hi. exists (state_removed removed c).
  split; [by rewrite list_lookup_fmap, Hi|].
  unfold state_removed. destruct (logicalPremise c) as [premise|] eqn:Hp.
  - destruct (set_logicalPremise_frame (invalidated_premise removed premise) c)
      as (-> & -> & -> & -> & -> & -> & ->).
    do 7 (split; [done|]). intros p Hp'. split.
    + revert Hp'. unfold invalidated_premise.
      case_decide; [done|]. by intros [= <-].
    + by eapply invalidated_premise_clean.
  - done.
Qed.

Lemma removeStatePremises_spec_witness :
  ∃ c', removeStatePremises "a" [two_clause_character] !! 0%nat = Some c' ∧
        logicalPremise c' = Some [].
Proof.
  destruct (removeStatePremises_spec "a" [two_clause_character]) as [_ H].
  destruct (H 0%nat two_clause_character eq_refl) as (c' & Hc' & _ & _ & _ & _ & _ & _ & Hp & _).
  exists c'. split; [exact Hc'|]. rewrite Hp. reflexivity.
Defined.
End premises.

(** ** Premise purge on a numerical update *)

Section numerical.
Import Character Spec Examples.

Lemma removeCharacterPremises_map cid chars :
  removeCharacterPremises cid chars = character_removed cid <$> chars.
Proof.
  unfold removeCharacterPremises, forEach_mutating.
  apply list_fmap_ext. intros _ c _.
  unfold character_removed. destruct c as [i t d ty st [premise|] m]; simpl; [|done].
  unfold set_logicalPremise; simpl. do 2 f_equal.
  apply list_filter_iff. intros x. unfold degenerate. lia.
Qed.

Lemma removeCharacterPremises_purged cid chars :
  Forall (purged_of_character cid) (removeCharacterPremises cid chars).
Proof.
  rewrite removeCharacterPremises_map. apply Forall_fmap, Forall_forall.
  intros c _ p. unfold character_removed.
  destruct c as [i t d ty st [premise|] m]; simpl; [|done].
  intros [= <-]. apply Forall_forall. intros clause Hin.
  apply list_elem_of_filter in Hin as [Hlen Hin].
  apply list_elem_of_fmap in Hin as (c0 & -> & _).
  split; [done|]. apply Forall_forall. intros e He.
  by apply list_elem_of_filter in He as [? _].
Qed.

Lemma purge_condition_decides newValues existingValues :
  Js.strict_ne (stepSize existingValues) (stepSize newValues)
  || Js.lt (min existingValues) (min newValues)
  || Js.gt (max existingValues) (max newValues) = true
  ↔ purge_condition newValues existingValues.
Proof.
  unfold purge_condition, Js.strict_ne, Js.lt, Js.gt.
  rewrite !orb_true_iff, !negb_true_iff.
  rewrite <- !not_true_iff_false, Qeq_bool_iff, !Qle_bool_iff.
  split; (intros [[H|H]|H]; [left | right; left | right; right]) || 
         (intros [H|[H|H]]; [left; left | left; right | right]);
    try done; try (by apply Qnot_le_lt); try (by apply Qlt_not_le).
Qed.

(** Claim C5, amended. [checkMinMaxValues] purges the character's id from
    all premises exactly when the step size changes, or the existing min is
    below the new min, or the existing max is greater than the new max;
    otherwise the characters are returned unchanged. The purge removes the
    entries of the character from every disjunction and drops the
    disjunctions left with at most one entry. *)
Theorem checkMinMaxValues_spec (cid : string) (newValues existingValues : NumericalState)
    (characters : list Character.t) :
  (purge_condition newValues existingValues →
     checkMinMaxValues cid newValues existingValues characters
     = removeCharacterPremises cid characters) ∧
  (¬ purge_condition newValues existingValues →
     checkMinMaxValues cid newValues existingValues characters = characters) ∧
  removeCharacterPremises cid characters = character_removed cid <$> characters ∧
  Forall (purged_of_character cid) (removeCharacterPremises cid characters).
Proof.
  split; [|split; [|split]].
  - intros H%purge_condition_decides. unfold checkMinMaxValues. by rewrite H.
  - intros H. unfold checkMinMaxValues.
    destruct (_ || _ || _) eqn:E; [|done].
    by apply purge_condition_decides in E.
  - apply removeCharacterPremises_map.
  - apply removeCharacterPremises_purged.
Qed.

Lemma checkMinMaxValues_spec_witness :
  checkMinMaxValues "7" (range 5 10 1) (range 0 10 1) [size_character]
  = removeCharacterPremises "7" [size_character]
  ∧ checkMinMaxValues "7" (range 0 10 1) (range 5 10 1) [size_character]
    = [size_character].
Proof.
  split.
  - destruct (checkMinMaxValues_spec "7" (range 5 10 1) (range 0 10 1) [size_character])
      as (Hpurge & _).
    apply Hpurge. right; left. reflexivity.
  - destruct (checkMinMaxValues_spec "7" (range 0 10 1) (range 5 10 1) [size_character])
      as (_ & Hkeep & _).
    apply Hkeep. intros [H|[H|H]]; [by apply H | discriminate H | discriminate H].
Defined.

(** Claim C5 as stated fails. Lowering the minimum from 5 to 0: the
    claimed condition holds, the code leaves the premises alone. Raising it
    from 0 to 5: the claimed condition fails, the code purges. *)
Lemma checkMinMaxValues_claimed_condition_counterexample :
  (purge_condition_as_claimed (range 0 10 1) (range 5 10 1)
   ∧ checkMinMaxValues "7" (range 0 10 1) (range 5 10 1) [size_character]
     ≠ removeCharacterPremises "7" [size_character])
  ∧ (¬ purge_condition_as_claimed (range 5 10 1) (range 0 10 1)
     ∧ checkMinMaxValues "7" (range 5 10 1) (range 0 10 1) [size_character]
       ≠ [size_character]).
Proof.
  split; split.
  - right; left. reflexivity.
  - discriminate.
  - intros [H|[H|H]]; [by apply H | discriminate H | discriminate H].
  - discriminate.
Qed.
End numerical.

(** ** Detaching media from an entity *)

Section detach.
Import Media Spec Examples.

(** A [forEach] that pushes the elements passing a test is a filter. *)
Lemma fold_left_push_filter {A B} (keep : A → bool) (g : A → B) (l : list A) (acc : list B) :
  fold_left (λ acc x, if keep x then acc ++ [g x] else acc) l acc
  = acc ++ (g <$> filter (λ x, keep x = true) l).
Proof.
  revert acc. induction l as [|x l IH]; intros acc; simpl.
  - by rewrite app_nil_r.
  - rewrite IH, filter_cons. case_decide as E; rewrite E || (apply not_true_is_false in E; rewrite E).
    + simpl. by rewrite <- app_assoc.
    + done.
Qed.

Lemma not_includes_iff arr s : negb (includes arr s) = true ↔ Js.Str s ∉ arr.
Proof. unfold includes. rewrite negb_true_iff, bool_decide_eq_false. done. Qed.

(** Claim C8, amended. [removeEntityMedia] removes from the entity's media
    list and from [media.mediaElements] exactly the ids whose string form
    is an element of the removal list: an id is removed when it is
    requested as a string, and an element of the list that is a number
    removes nothing. For a removal list whose strings are ids of the
    entity, the ids gone from the entity's list are exactly the requested
    strings. Every other id of both lists is kept, in order, those of the
    entity's list as strings; [persons] is left as it is. *)
Theorem removeEntityMedia_spec (entity_media : list MediaId) (media : RevisionMedia)
    (body_media : list Js.value) :
  (∀ s, Js.Str s ∈ body_media → s ∈ media_ids entity_media) →
  let result := removeEntityMedia entity_media media body_media in
  result.1 = IdStr <$> filter (λ s, Js.Str s ∉ body_media) (media_ids entity_media) ∧
  mediaElements result.2
    = Some (filter (λ element, Js.Str (MediaId_template (id element)) ∉ body_media)
              (default [] (mediaElements media))) ∧
  persons result.2 = persons media ∧
  (∀ s, s ∈ media_ids entity_media ∧ s ∉ media_ids result.1 ↔ Js.Str s ∈ body_media) ∧
  (∀ s, Js.Str s ∉ body_media → s ∈ media_ids entity_media → s ∈ media_ids result.1) ∧
  (∀ element, element ∈ default [] (mediaElements media) →
     (element ∈ default [] (mediaElements result.2)
      ↔ Js.Str (MediaId_template (id element)) ∉ body_media)).
Proof.
  intros Hsub result.
  assert (H1 : result.1
               = IdStr <$> filter (λ s, Js.Str s ∉ body_media) (media_ids entity_media)).
  { unfold result, removeEntityMedia; simpl.
    rewrite (fold_left_push_filter
               (λ element, negb (includes body_media (MediaId_template element)))
               (λ element, IdStr (MediaId_template element))).
    simpl. unfold media_ids. clear.
    induction entity_media as [|x l IH]; [done|].
    rewrite fmap_cons, !filter_cons. cbv beta.
    pose proof (not_includes_iff body_media (MediaId_template x)) as Hiff.
    repeat case_decide; rewrite ?fmap_cons, ?IH; try done; tauto. }
  assert (H2 : mediaElements result.2
    = Some (filter (λ element, Js.Str (MediaId_template (id element)) ∉ body_media)
              (default [] (mediaElements media)))).
  { unfold result, removeEntityMedia; simpl. f_equal.
    destruct (mediaElements media) as [mes|]; [|done]. simpl.
    rewrite (fold_left_push_filter
               (λ element, negb (includes body_media (MediaId_template (id element))))
               (λ element, element)).
    simpl. rewrite list_fmap_id. apply list_filter_iff. intros x.
    apply not_includes_iff. }
  assert (Hids : media_ids result.1
                 = filter (λ s, Js.Str s ∉ body_media) (media_ids entity_media)).
  { rewrite H1. unfold media_ids at 1. rewrite <- list_fmap_compose.
    simpl. apply list_fmap_id. }
  split; [done|]. split; [done|]. split; [done|]. split; [|split].
  - intros s. rewrite Hids, list_elem_of_filter. split.
    + intros [Hin Hnot]. destruct (decide (Js.Str s ∈ body_media)); [done|]. by destruct Hnot.
    + intros Hin. split; [by apply Hsub|]. by intros [? _].
  - intros s Hnot Hin. rewrite Hids. by apply list_elem_of_filter.
  - intros element Hin. rewrite H2. simpl. rewrite list_elem_of_filter. tauto.
Qed.

Lemma removeEntityMedia_spec_witness :
  (removeEntityMedia two_photos ledger [Js.Str "5"]).1 = [IdStr "6"] ∧
  persons (removeEntityMedia two_photos ledger [Js.Str "5"]).2 = persons ledger.
Proof.
  assert (Hsub : ∀ s, Js.Str s ∈ [Js.Str "5"] → s ∈ media_ids two_photos).
  { intros s Hs. apply list_elem_of_singleton in Hs. injection Hs as ->. by left. }
  destruct (removeEntityMedia_spec two_photos ledger [Js.Str "5"] Hsub) as (H1 & _ & H3 & _).
  split; [|exact H3]. rewrite H1. reflexivity.
Defined.

(** Claim C8 as stated fails. The media ids of a taxon are numbers; the
    removal list [[5]] is a subset of the ids [[5, 6]] of the entity, and
    nothing is removed: the entity keeps both ids, now as strings, and the
    ledger both elements. *)
Lemma removeEntityMedia_number_counterexample :
  [Js.Num 5] ⊆ MediaId_value <$> two_photos ∧
  (removeEntityMedia two_photos ledger [Js.Num 5]).1 = [IdStr "5"; IdStr "6"] ∧
  mediaElements (removeEntityMedia two_photos ledger [Js.Num 5]).2 = mediaElements ledger.
Proof.
  split; [|split]; [|reflexivity|reflexivity].
  intros v Hv. apply list_elem_of_singleton in Hv as ->. by left.
Qed.
End detach.

(** ** Deleting a media file *)

Section media_deletion.
Import Media Examples.

Lemma deleteMediaFile_unlink_error (w : world) (media : MediaRow) :
  ∀ w' err, deleteMediaFile w media = (w', Rejected err) →
    mediaTable w' = mediaTable w ∧ mediaInfoTable w' = mediaInfoTable w.
Proof.
  intros w' err. unfold deleteMediaFile.
  repeat (case_match; simplify_eq/=); by intros [= <- <-].
Qed.

Lemma deleteMediaFile_missing_primary (w : world) (media : MediaRow) (path : string) :
  filePath media = Some path → path ≠ "" → files w !! path = None →
  ∃ w', deleteMediaFile w media = (w', Rejected (FsError ENOENT)).
Proof.
  intros Hp Hne Hmissing. unfold deleteMediaFile. rewrite Hp.
  assert (Js.truthy (Some path) = true) as ->.
  { simpl. apply negb_true_iff, String.eqb_neq. done. }
  unfold unlink at 1. rewrite Hmissing. simpl.
  repeat (case_match; simplify_eq/=); eauto.
Qed.

(** Claim C9 at a missing primary file: [deleteMedia] rejects with
    [ENOENT] and destroys neither the [MediaInfo] rows nor the [Media] row
    (the thumbnail, which was there, is unlinked). *)
Theorem deleteMedia_missing_file :
  deleteMedia world_without_primary_file 7
  = (mkWorld ∅ (mediaTable world_without_primary_file)
             (mediaInfoTable world_without_primary_file),
     Rejected (FsError ENOENT)).
Proof. vm_compute. reflexivity. Qed.

End media_deletion.

(** ** Creating a revision *)

Section revisions.
Import Revision Examples.

(** Claim C1. Either variant of [createRevision] returns the id of the new
    revision and links it to the key. If the key's [revisionId] is unset, the new
    revision ends [ACCEPTED] and the key, instance and row, points to it;
    if the key has a [revisionId] (a uuid, hence a non-empty string), the
    new revision ends [DRAFT] and the key is unchanged. *)
Theorem createRevision_spec (DEFAULT_KEY_MODE : option Z) (db : Db) (key : Key)
    (content : Content) (media : Media.RevisionMedia) (createdBy : string)
    (note : option string) (mode : option Z) (uuid : string) :
  ∀ db' key' returned,
    (createRevision DEFAULT_KEY_MODE db key content media createdBy note mode uuid
       = (db', key', returned)
     ∨ createRevision_without_mode db key content media createdBy note uuid
       = (db', key', returned)) →
    returned = uuid ∧
    (key_id key, uuid) ∈ Revisions_table db' ∧
    (revisionId key = None →
       status <$> Revision_table db' !! uuid = Some ACCEPTED ∧
       revisionId key' = Some uuid ∧
       (∀ row, Key_table db !! key_id key = Some row →
          revisionId <$> Key_table db' !! key_id key = Some (Some uuid))) ∧
    (∀ current, revisionId key = Some current → current ≠ "" →
       status <$> Revision_table db' !! uuid = Some DRAFT ∧
       key' = key ∧
       Key_table db' = Key_table db).
Proof.
  intros db' key' returned Hcall.
  assert (Hboth :
    ∃ md, (db', key', returned) =
      let revision := mkRevision uuid content media note createdBy DRAFT md in
      let db1 := mkDb (Key_table db) (<[uuid := revision]> (Revision_table db))
                      (Revisions_table db ++ [(key_id key, uuid)]) (Taxon_table db) in
      if negb (Js.truthy (revisionId key)) then
        (Key_update_revisionId (Revision_update_status db1 uuid ACCEPTED)
           (key_id key) (Some uuid),
         set_revisionId (Some uuid) key, uuid)
      else (db1, key, uuid)).
  { destruct Hcall as [<- | <-]; eexists; reflexivity. }
  destruct Hboth as [md Heq]. clear Hcall. simpl in Heq.
  split; [|split; [|split]].
  - destruct (negb _); by simplify_eq.
  - destruct (negb _); simplify_eq; simpl; apply elem_of_app; right; by left.
  - intros Hunset. rewrite Hunset in Heq. simpl in Heq. simplify_eq. simpl.
    split; [|split; [done|]].
    + by rewrite lookup_alter_eq, lookup_insert_eq.
    + intros row Hrow. by rewrite lookup_alter_eq, Hrow.
  - intros current Hcur Hne. rewrite Hcur in Heq. simpl in Heq.
    assert (String.eqb current "" = false) as Hfalse by (by apply String.eqb_neq).
    rewrite Hfalse in Heq. simpl in Heq. simplify_eq. simpl.
    by rewrite lookup_insert_eq.
Qed.

Lemma createRevision_spec_witness :
  let '(db1, key1, id1) :=
    createRevision (Some 1) db_with_fresh_key fresh_key empty_content empty_media
      "user" None None "r1" in
  let '(db2, key2, id2) :=
    createRevision (Some 1) db1 key1 empty_content empty_media "user" None None "r2" in
  (status <$> Revision_table db1 !! "r1" = Some ACCEPTED ∧ revisionId key1 = Some "r1") ∧
  (status <$> Revision_table db2 !! "r2" = Some DRAFT ∧ revisionId key2 = Some "r1").
Proof.
  destruct (createRevision (Some 1) db_with_fresh_key fresh_key empty_content empty_media
              "user" None None "r1") as [[db1 key1] id1] eqn:E1.
  destruct (createRevision (Some 1) db1 key1 empty_content empty_media
              "user" None None "r2") as [[db2 key2] id2] eqn:E2.
  destruct (createRevision_spec _ _ _ _ _ _ _ _ _ _ _ _ (or_introl E1))
    as (_ & _ & Hfirst & _).
  destruct (Hfirst eq_refl) as (Hs1 & Hk1 & _).
  destruct (createRevision_spec _ _ _ _ _ _ _ _ _ _ _ _ (or_introl E2))
    as (_ & _ & _ & Hsecond).
  destruct (Hsecond "r1" Hk1) as (Hs2 & Hk2 & _); [discriminate|].
  split; [done|]. split; [done|]. by rewrite Hk2.
Defined.
End revisions.

(** ** Updating the status of a revision *)

Section status_update.
Import Revision Routes Examples.

Lemma Revisions_findOne_Some db revisionId keyId row :
  Revisions_findOne db revisionId keyId = Some row →
  (keyId, revisionId) ∈ Revisions_table db.
Proof.
  unfold Revisions_findOne. intros H. apply find_some in H as [Hin Heq].
  apply bool_decide_eq_true in Heq as ->. by apply list_elem_of_In.
Qed.

Lemma Revisions_findOne_In db revisionId keyId :
  (keyId, revisionId) ∈ Revisions_table db →
  Revisions_findOne db revisionId keyId = Some (keyId, revisionId).
Proof.
  unfold Revisions_findOne. intros Hin.
  induction (Revisions_table db) as [|row rows IH]; [by apply elem_of_nil in Hin|].
  simpl. case_bool_decide as E; [by rewrite E|].
  apply elem_of_cons in Hin as [Heq|Hin]; [by symmetry in Heq|]. by apply IH.
Qed.

(** Claim C2. The status update changes the status of a revision only if
    it is the target, belongs to the given key and is not the key's current
    revision; on the key's current revision it answers 409 and leaves the
    store as it is, so the status of the key's current revision is never
    rewritten; on another revision of the key it answers 200 and sets the
    status. *)
Theorem put_status_spec (db : Db) (revisionId keyId : string) (status' : Status) :
  let result := put_status db revisionId keyId status' in
  (∀ r, status <$> Revision_table result.1 !! r ≠ status <$> Revision_table db !! r →
     r = revisionId ∧ (keyId, revisionId) ∈ Revisions_table db ∧
     ∃ key, Key_table db !! keyId = Some key ∧ Revision.revisionId key ≠ Some revisionId) ∧
  (* a request on the key's current revision *)
  (∀ key, Key_table db !! keyId = Some key → Revision.revisionId key = Some revisionId →
     result.1 = db ∧
     ((keyId, revisionId) ∈ Revisions_table db → is_Some (Revision_table db !! revisionId) →
      result.2 = sendStatus 409)) ∧
  (* the key's current revision is never rewritten *)
  (∀ key current, Key_table db !! keyId = Some key →
     Revision.revisionId key = Some current →
     Revision_table result.1 !! current = Revision_table db !! current) ∧
  (* a request on another revision of the key *)
  (∀ key revision, Key_table db !! keyId = Some key →
     Revision.revisionId key ≠ Some revisionId →
     (keyId, revisionId) ∈ Revisions_table db →
     Revision_table db !! revisionId = Some revision →
     result.2 = sendStatus 200 ∧
     Revision_table result.1 !! revisionId = Some (set_status status' revision)) ∧
  Key_table result.1 = Key_table db ∧ Revisions_table result.1 = Revisions_table db.
Proof.
  intros result. subst result. unfold put_status, findRevisionForKey.
  destruct (Revisions_findOne db revisionId keyId) as [row|] eqn:Hjoin.
  2:{ simpl. split_and!; try done.
      - intros key _ _. split; [done|]. intros Hin%Revisions_findOne_In. congruence.
      - intros key revision _ _ Hin%Revisions_findOne_In. congruence. }
  apply Revisions_findOne_Some in Hjoin.
  destruct (Revision_table db !! revisionId) as [revision|] eqn:Hrev.
  2:{ simpl. split_and!; try done. }
  destruct (Key_table db !! keyId) as [key|] eqn:Hkey.
  2:{ simpl. split_and!; done. }
  case_bool_decide as Hcur; simpl.
  - split_and!; try done.
    + intros r Hr. destruct (decide (r = revisionId)) as [->|Hne].
      * eauto.
      * by rewrite lookup_alter_ne in Hr.
    + by intros ? [= <-] ?.
    + intros ? current [= <-] Hc. rewrite lookup_alter_ne; [done|]. congruence.
    + intros ? ? [= <-] _ _ [= <-]. split; [done|].
      by rewrite lookup_alter_eq, Hrev.
  - split_and!; try done.
    by intros ? ? [= <-] ?.
Qed.

Lemma put_status_spec_witness :
  (put_status db_with_two_revisions "r1" "k1" DRAFT).1 = db_with_two_revisions ∧
  (put_status db_with_two_revisions "r1" "k1" DRAFT).2 = sendStatus 409 ∧
  (put_status db_with_two_revisions "r2" "k1" REVIEW).2 = sendStatus 200.
Proof.
  destruct (put_status_spec db_with_two_revisions "r1" "k1" DRAFT)
    as (_ & Hcurrent & _).
  destruct (Hcurrent (mkKey "k1" (Some "r1")) eq_refl eq_refl) as [Hdb Hresp].
  destruct (put_status_spec db_with_two_revisions "r2" "k1" REVIEW)
    as (_ & _ & _ & Hother & _).
  destruct (Hother (mkKey "k1" (Some "r1")) draft_revision eq_refl) as [H200 _].
  - discriminate.
  - right; left.
  - reflexivity.
  - split; [exact Hdb|]. split; [|exact H200].
    apply Hresp; [left | by exists accepted_revision].
Defined.
End status_update.

(** ** Renaming a taxon *)

Section rename.
Import Taxon Spec Examples.
Context {tables : Js.Unicode}.

Lemma truthy_nonempty s : s ≠ "" → Js.truthy (Some s) = true.
Proof. intros H. simpl. by apply negb_true_iff, String.eqb_neq. Qed.

Lemma modifyTaxonInfo_fields body o :
  let o' := modifyTaxonInfo body o in
  id o' = id o ∧ scientificName o' = scientificName o ∧ media o' = media o ∧
  parentId o' = parentId o ∧ children o' = children o ∧
  vernacularName o' ≫= no = updated_text (vernacularNameNo body) (vernacularName o ≫= no) ∧
  vernacularName o' ≫= en = updated_text (vernacularNameEn body) (vernacularName o ≫= en) ∧
  description o' ≫= no = updated_text (descriptionNo body) (description o ≫= no) ∧
  description o' ≫= en = updated_text (descriptionEn body) (description o ≫= en).
Proof.
  destruct body as [k r sn vno ven dno den pid].
  destruct o as [i n v d m p c]. unfold modifyTaxonInfo, updated_text. simpl.
  destruct vno as [vno|]; [destruct (String.eqb vno "") eqn:Evno|];
  (destruct ven as [ven|]; [destruct (String.eqb ven "") eqn:Even|]);
  (destruct dno as [dno|]; [destruct (String.eqb dno "") eqn:Edno|]);
  (destruct den as [den|]; [destruct (String.eqb den "") eqn:Eden|]);
  simpl; rewrite ?Evno, ?Even, ?Edno, ?Eden; simpl;
  destruct v as [[? ?]|], d as [[? ?]|]; simpl;
  rewrite ?Evno, ?Even, ?Edno, ?Eden; repeat split; reflexivity.
Qed.

(** Claim C7. When [findTaxonByName] finds another taxon under the
    requested scientific name, [modifyTaxonNames] returns [false] and
    leaves [scientificName] (and [id], [media], [parentId], [children])
    of the taxon alone, yet writes the requested vernacular names and
    descriptions to the same object; no other object changes. *)
Theorem modifyTaxonNames_conflict (fuel : nat) (h : heap) (taxon : loc) (taxonId : string)
    (taxa : option (list loc)) (body : Body) (o : Taxon.t) (other : loc) :
  h !! taxon = Some o →
  body_scientificName body ≠ "" →
  findTaxonByName fuel h taxa (body_scientificName body) (Some taxonId)
    = Return (Some other) →
  ∃ h' o',
    modifyTaxonNames fuel h taxon taxonId taxa body = Return (h', false) ∧
    h' !! taxon = Some o' ∧
    (∀ l, l ≠ taxon → h' !! l = h !! l) ∧
    scientificName o' = scientificName o ∧
    id o' = id o ∧ media o' = media o ∧ parentId o' = parentId o ∧
    children o' = children o ∧
    vernacularName o' ≫= no = updated_text (vernacularNameNo body) (vernacularName o ≫= no) ∧
    vernacularName o' ≫= en = updated_text (vernacularNameEn body) (vernacularName o ≫= en) ∧
    description o' ≫= no = updated_text (descriptionNo body) (description o ≫= no) ∧
    description o' ≫= en = updated_text (descriptionEn body) (description o ≫= en).
Proof.
  intros Ho Hname Hfound.
  exists (alter (modifyTaxonInfo body) taxon h), (modifyTaxonInfo body o).
  destruct (modifyTaxonInfo_fields body o) as (? & ? & ? & ? & ? & ? & ? & ? & ?).
  split_and!; try done.
  - unfold modifyTaxonNames. rewrite (truthy_nonempty _ Hname), Hfound. simpl.
    by rewrite Ho.
  - by rewrite list_lookup_alter_eq, Ho.
  - intros l Hl. by rewrite list_lookup_alter_ne.
Qed.

End rename.

Section rename_sample.
Import Taxon Spec Examples.
#[local] Existing Instance Js.sample_tables.

Lemma modifyTaxonNames_conflict_witness :
  ∃ h' o',
    modifyTaxonNames 3 birds 3%nat "4" (Some birds_taxa)
      (request "corvus" (Some "ugle") None) = Return (h', false) ∧
    h' !! 3%nat = Some o' ∧
    scientificName o' = "Strigiformes" ∧
    vernacularName o' ≫= no = Some "ugle".
Proof.
  destruct (modifyTaxonNames_conflict 3 birds 3%nat "4" (Some birds_taxa)
              (request "corvus" (Some "ugle") None) (leaf "4" "Strigiformes") 2%nat)
    as (h' & o' & Hcall & Hlookup & _ & Hname & _ & _ & _ & _ & Hno & _).
  - reflexivity.
  - discriminate.
  - reflexivity.
  - exists h', o'. split; [exact Hcall|]. split; [exact Hlookup|].
    split; [exact Hname|exact Hno].
Defined.

End rename_sample.

(** ** Searching the taxa tree *)

Section tree_lemmas.
Import Taxon Spec.
Context {tables : Js.Unicode}.

Lemma forEach_ext {S E} (body1 body2 : S → E → outcome S) s arr :
  (∀ s e, body1 s e = body2 s e) → forEach body1 s arr = forEach body2 s arr.
Proof.
  intros H. revert s. induction arr as [|e arr IH]; intros s; simpl; [done|].
  rewrite H. destruct (body2 s e); simpl; auto.
Qed.

Lemma forEach_with_heap {S E} (h : heap) (body1 : heap * S → E → outcome (heap * S))
    (body2 : S → E → outcome S) s arr :
  (∀ s e, body1 (h, s) e = r ← body2 s e; Return (h, r)) →
  forEach body1 (h, s) arr = r ← forEach body2 s arr; Return (h, r).
Proof.
  intros H. revert s. induction arr as [|e arr IH]; intros s; simpl; [done|].
  rewrite H. destruct (body2 s e); simpl; auto.
Qed.

Lemma findTaxonByName_loop_search fuel h arr name :
  findTaxonByName_loop fuel h (Some arr) name
  = search fuel h
      (λ o, bool_decide (Js.toUpperCase (scientificName o) = Js.toUpperCase name)) arr.
Proof.
  revert arr. induction fuel as [|fuel IH]; intros arr; simpl; [done|].
  apply forEach_ext. intros taxon e.
  destruct (h !! e) as [element|]; simpl; [|done].
  case_decide as E.
  - by rewrite bool_decide_eq_true_2.
  - rewrite bool_decide_eq_false_2 by done.
    destruct (children element) as [cs|]; [|done]. by rewrite IH.
Qed.

Lemma findTaxonById_search fuel h arr i :
  findTaxonById fuel h (Some arr) i false
  = r ← search fuel h (λ o, bool_decide (id o = i)) arr; Return (h, r).
Proof.
  revert arr. induction fuel as [|fuel IH]; intros arr; simpl; [done|].
  apply forEach_with_heap. intros taxon e.
  destruct (h !! e) as [element|]; simpl; [|done].
  case_decide as E.
  - by rewrite bool_decide_eq_true_2.
  - rewrite bool_decide_eq_false_2 by done.
    destruct (children element) as [cs|]; [|done]. rewrite IH.
    destruct (search fuel h _ cs) as [[tmp|]| |]; done.
Qed.

Lemma tree_nodes_nil fuel h : tree_nodes (S fuel) h [] = Some [].
Proof. done. Qed.

Lemma tree_nodes_cons fuel h e rest :
  tree_nodes (S fuel) h (e :: rest)
  = element ← h !! e;
    below ← match children element with
            | Some cs => tree_nodes fuel h cs
            | None => Some []
            end;
    others ← tree_nodes (S fuel) h rest;
    Some (e :: below ++ others).
Proof.
  unfold tree_nodes; fold tree_nodes. simpl.
  destruct (h !! e) as [element|]; simpl; [|done].
  destruct (match children element with Some cs => _ | None => _ end); simpl; [|done].
  destruct (mapM _ rest); reflexivity.
Qed.

Lemma tree_nodes_cons_inv fuel h e rest ns :
  tree_nodes (S fuel) h (e :: rest) = Some ns →
  ∃ element below others,
    h !! e = Some element ∧
    match children element with
    | Some cs => tree_nodes fuel h cs
    | None => Some []
    end = Some below ∧
    tree_nodes (S fuel) h rest = Some others ∧
    ns = e :: below ++ others.
Proof.
  rewrite tree_nodes_cons. intros H.
  destruct (h !! e) as [element|]; simpl in H; [|done].
  destruct (match children element with Some cs => _ | None => _ end) as [below|] eqn:Hb;
    simpl in H; [|done].
  destruct (tree_nodes (S fuel) h rest) as [others|]; simpl in H; [|done].
  simplify_eq. eauto 10.
Qed.

(** Every reference of the tree points to an object. *)
Lemma tree_nodes_lookup fuel h arr ns y :
  tree_nodes fuel h arr = Some ns → y ∈ ns → is_Some (h !! y).
Proof.
  revert arr ns. induction fuel as [|fuel IH]; intros arr ns; [done|].
  revert ns. induction arr as [|e rest IHarr]; intros ns Hns Hy.
  - rewrite tree_nodes_nil in Hns. simplify_eq. by apply elem_of_nil in Hy.
  - apply tree_nodes_cons_inv in Hns as (element & below & others & He & Hb & Ho & ->).
    apply elem_of_cons in Hy as [->|Hy]; [eauto|].
    apply elem_of_app in Hy as [Hy|Hy]; [|eauto].
    destruct (children element) as [cs|]; [eauto|].
    simplify_eq. by apply elem_of_nil in Hy.
Qed.

(** The elements of the array are nodes of the tree. *)
Lemma tree_nodes_root fuel h arr ns e :
  tree_nodes fuel h arr = Some ns → e ∈ arr → e ∈ ns.
Proof.
  destruct fuel as [|fuel]; [done|].
  revert ns. induction arr as [|x rest IH]; intros ns Hns He.
  - by apply elem_of_nil in He.
  - apply tree_nodes_cons_inv in Hns as (element & below & others & _ & _ & Ho & ->).
    apply elem_of_cons in He as [->|He]; [by left|].
    right. apply elem_of_app. right. eauto.
Qed.

Lemma search_spec fuel h p arr ns :
  tree_nodes fuel h arr = Some ns →
  ∃ r, search fuel h p arr = Return r ∧ search_result h p ns r.
Proof.
  revert arr ns. induction fuel as [|fuel IH]; intros arr ns; [done|].
  intros Hns. simpl.
  set (body := λ (taxon : option loc) (e : loc), _).
  assert (Hgen : ∀ arr ns acc, tree_nodes (S fuel) h arr = Some ns →
    ∃ r, forEach body acc arr = Return r ∧
      match r with
      | Some y => acc = Some y ∨ (y ∈ ns ∧ ∃ o, h !! y = Some o ∧ p o = true)
      | None => acc = None ∧ ∀ y o, y ∈ ns → h !! y = Some o → p o = false
      end).
  { clear arr ns Hns. induction arr as [|e rest IHarr]; intros ns acc Hns.
    - rewrite tree_nodes_nil in Hns. simplify_eq. exists acc. split; [done|].
      destruct acc; [by left|]. split; [done|]. intros y o Hy. by apply elem_of_nil in Hy.
    - apply tree_nodes_cons_inv in Hns as (element & below & others & He & Hb & Ho & ->).
      assert (Hstep : ∃ acc', body acc e = Return acc' ∧
        match acc' with
        | Some y => acc = Some y ∨ (y ∈ e :: below ∧ ∃ o, h !! y = Some o ∧ p o = true)
        | None => acc = None ∧ ∀ y o, y ∈ e :: below → h !! y = Some o → p o = false
        end).
      { unfold body. rewrite He. simpl. destruct (p element) eqn:Hp.
        - eexists. split; [done|]. right. split; [by left|]. eauto.
        - destruct (children element) as [cs|].
          + destruct (IH cs below Hb) as (r & -> & Hr). simpl.
            destruct r as [tmp|]; simpl in Hr.
            * eexists. split; [done|]. right. destruct Hr as [Hin Ho'].
              split; [by right|done].
            * eexists. split; [done|]. destruct acc; [by left|]. split; [done|].
              intros y o [->|Hy]%elem_of_cons Hyo; [congruence|eauto].
          + simplify_eq. eexists. split; [done|]. destruct acc; [by left|].
            split; [done|]. intros y o [->|Hy]%elem_of_cons Hyo; [congruence|].
            by apply elem_of_nil in Hy. }
      destruct Hstep as (acc' & Hbody & Hacc').
      destruct (IHarr others acc' Ho) as (r & Hr & Hspec).
      exists r. split; [simpl; by rewrite Hbody|].
      destruct r as [y|].
      + destruct Hspec as [->|[Hin Ho']].
        * destruct Hacc' as [?|[Hin Ho']]; [by left|]. right. split; [|done].
          apply elem_of_cons in Hin as [->|Hin]; [by left|].
          right. apply elem_of_app. by left.
        * right. split; [|done]. right. apply elem_of_app. by right.
      + destruct Hspec as [-> Hothers]. destruct Hacc' as [-> Hhere].
        split; [done|]. intros y o Hy Hyo.
        apply elem_of_cons in Hy as [->|Hy]; [eapply Hhere; [by left|done]|].
        apply elem_of_app in Hy as [Hy|Hy]; [|eauto].
        eapply Hhere; [by right|done]. }
  destruct (Hgen arr ns None Hns) as (r & Hr & Hspec).
  exists r. split; [done|]. destruct r as [y|]; simpl.
  - by destruct Hspec as [?|?].
  - by destruct Hspec.
Qed.

(** The tree is the same in a store that keeps the objects of [h] with
    their [children]. *)
Lemma tree_nodes_preserved fuel (h h' : heap) arr ns :
  (∀ l o, h !! l = Some o → ∃ o', h' !! l = Some o' ∧ children o' = children o) →
  tree_nodes fuel h arr = Some ns → tree_nodes fuel h' arr = Some ns.
Proof.
  intros Hpres. revert arr ns. induction fuel as [|fuel IH]; intros arr ns; [done|].
  revert ns. induction arr as [|e rest IHarr]; intros ns Hns; [done|].
  apply tree_nodes_cons_inv in Hns as (element & below & others & He & Hb & Ho & ->).
  rewrite tree_nodes_cons.
  destruct (Hpres e element He) as (element' & -> & Hc). simpl. rewrite Hc.
  destruct (children element) as [cs|].
  - rewrite (IH cs below Hb). simpl. by rewrite (IHarr others Ho).
  - rewrite Hb. simpl. by rewrite (IHarr others Ho).
Qed.

End tree_lemmas.

(** ** Creating a taxon under an unknown parent *)

Section create_taxon.
Import Taxon Spec Revision Routes Examples.
Context {tables : Js.Unicode}.

Lemma createRevision_result env db key c m u n md uuid db' key' r :
  createRevision env db key c m u n md uuid = (db', key', r) →
  r = uuid ∧ Taxon_table db' = Taxon_table db ∧
  ∃ st, Revision_table db' !! uuid
        = Some (mkRevision uuid c m n u st (mode_or_default md env)).
Proof.
  unfold createRevision. simpl. destruct (negb _); intros ?; simplify_eq; simpl.
  - split; [done|]. split; [done|]. exists ACCEPTED.
    by rewrite lookup_alter_eq, lookup_insert_eq.
  - split; [done|]. split; [done|]. exists DRAFT. by rewrite lookup_insert_eq.
Qed.

(** Claim C10. A create-taxon request whose [parentId] is the id of no
    node of the tree (and whose name is free) succeeds: a [Taxon] row and a
    revision are created and the answer is 200 with the new taxon's id;
    the tree of the new revision has the nodes of the old one, unchanged,
    and the new taxon object is none of them. *)
Theorem post_taxon_unknown_parent (fuel : nat) (DEFAULT_KEY_MODE : option Z) (db : Db)
    (body : Taxon.Body) (user uuid : string) (revision : Revision.t) (key : Key)
    (ns : list loc) (parent : Z) :
  findRevisionForKey db (Taxon.revisionId body) (Taxon.keyId body)
    = Return (revision, Some key) →
  tree_nodes fuel (objects (content revision)) (default [] (taxa (content revision)))
    = Some ns →
  (∀ y o, y ∈ ns → objects (content revision) !! y = Some o →
     Js.toUpperCase (scientificName o) ≠ Js.toUpperCase (body_scientificName body)) →
  body_parentId body = Some parent → parent ≠ 0 →
  (∀ y o, y ∈ ns → objects (content revision) !! y = Some o →
     Taxon.id o ≠ Js.template parent) →
  ∃ db' revision' newTaxon,
    let taxonId := Js.template (Z.of_nat (length (Taxon_table db)) + 1) in
    post_taxon fuel DEFAULT_KEY_MODE db body user uuid
      = Some (db', json 200 (Created uuid taxonId)) ∧
    Taxon_table db'
      = Taxon_table db ++ [(Z.of_nat (length (Taxon_table db)) + 1, Taxon.keyId body)] ∧
    Revision_table db' !! uuid = Some revision' ∧
    taxa (content revision') = Some (default [] (taxa (content revision))) ∧
    tree_nodes fuel (objects (content revision'))
      (default [] (taxa (content revision))) = Some ns ∧
    (∀ y, y ∈ ns → objects (content revision') !! y = objects (content revision) !! y) ∧
    objects (content revision') !! length (objects (content revision)) = Some newTaxon ∧
    Taxon.id newTaxon = taxonId ∧
    length (objects (content revision)) ∉ ns.
Proof.
  intros Hfind Hns Hnames Hparent Hnonzero Hids.
  set (h := objects (content revision)) in *.
  set (content_taxa := default [] (taxa (content revision))) in *.
  assert (Hbelow : ∀ y, y ∈ ns → (y < length h)%nat).
  { intros y Hy. destruct (tree_nodes_lookup _ _ _ _ _ Hns Hy) as [o Ho].
    by apply lookup_lt_Some in Ho. }
  unfold post_taxon. rewrite Hfind. simpl.
  fold h. fold content_taxa.
  (* the name is free *)
  unfold findTaxonByName. rewrite findTaxonByName_loop_search.
  destruct (search_spec fuel h
              (λ o, bool_decide (Js.toUpperCase (scientificName o)
                                 = Js.toUpperCase (body_scientificName body)))
              content_taxa ns Hns) as (r & -> & Hr). simpl.
  destruct r as [y|].
  { destruct Hr as (Hy & o & Ho & Hp). apply bool_decide_eq_true in Hp.
    by destruct (Hnames y o Hy Ho). }
  simpl. destruct (setTaxonInfo body) as [vernacularName description] eqn:Hinfo.
  rewrite Hparent. rewrite decide_True by done.
  (* the parent is not found *)
  set (newTaxon := mkTaxon _ _ _ _ _ _ _).
  assert (Hns' : tree_nodes fuel (h ++ [newTaxon]) content_taxa = Some ns).
  { apply (tree_nodes_preserved fuel h); [|done].
    intros l o Hl. exists o. split; [|done]. by apply lookup_app_l_Some. }
  unfold addToParent. rewrite findTaxonById_search.
  destruct (search_spec fuel (h ++ [newTaxon]) (λ o, bool_decide (Taxon.id o = Js.template parent))
              content_taxa ns Hns') as (r & -> & Hr'). simpl.
  destruct r as [y|].
  { destruct Hr' as (Hy & o & Ho & Hp). apply bool_decide_eq_true in Hp.
    rewrite lookup_app_l in Ho by auto. by destruct (Hids y o Hy Ho). }
  simpl.
  destruct (createRevision _ _ _ _ _ _ _ _ _) as [[db' key'] revisionId] eqn:Hcreate.
  apply createRevision_result in Hcreate as (-> & Htable & st & Hrev).
  eexists db', _, newTaxon. simpl. split_and!; try done.
  - simpl. intros y Hy. by rewrite lookup_app_l by auto.
  - simpl. by rewrite lookup_app_r, Nat.sub_diag.
  - intros Hin%Hbelow. lia.
Qed.

End create_taxon.

Section create_taxon_sample.
Import Taxon Spec Revision Routes Examples.
#[local] Existing Instance Js.sample_tables.

Lemma post_taxon_unknown_parent_witness :
  ∃ db', post_taxon 3 None birds_db (request "Pica" None (Some 99)) "user" "r2"
         = Some (db', json 200 (Created "r2" "6")).
Proof.
  destruct (post_taxon_unknown_parent 3 None birds_db (request "Pica" None (Some 99))
              "user" "r2" birds_revision (mkKey "k1" (Some "r1"))
              [0; 1; 2; 3; 4]%nat 99) as (db' & revision' & newTaxon & H & _).
  - reflexivity.
  - reflexivity.
  - intros y o Hy Ho. each_node Hy; injection Ho as <-; discriminate.
  - reflexivity.
  - discriminate.
  - intros y o Hy Ho. each_node Hy; injection Ho as <-; discriminate.
  - exists db'. exact H.
Defined.

End create_taxon_sample.

(** ** Re-parenting and the uniqueness of scientific names *)

Section reparent_lemmas.
Import Taxon Spec.
Context {tables : Js.Unicode}.

Lemma forEach_cons {S E} (body : S → E → outcome S) s e rest :
  forEach body s (e :: rest) = s' ← body s e; forEach body s' rest.
Proof. done. Qed.

Lemma forEach_cons_Return {S E} (body : S → E → outcome S) s e rest r :
  forEach body s (e :: rest) = Return r →
  ∃ s', body s e = Return s' ∧ forEach body s' rest = Return r.
Proof. simpl. destruct (body s e) as [s'| |]; simpl; [eauto|done|done]. Qed.

Lemma search_agree fuel (h h' : heap) p arr :
  (∀ l o, h !! l = Some o → ∃ o', h' !! l = Some o' ∧ p o' = p o ∧ children o' = children o) →
  (∀ l, h !! l = None → h' !! l = None) →
  search fuel h p arr = search fuel h' p arr.
Proof.
  intros Hsome Hnone. revert arr. induction fuel as [|fuel IH]; intros arr; [done|].
  simpl. apply forEach_ext. intros taxon e.
  destruct (h !! e) as [element|] eqn:He.
  - destruct (Hsome e element He) as (element' & He' & Hp & Hc).
    rewrite He'. simpl. rewrite Hp, Hc.
    destruct (p element); [done|]. destruct (children element); [|done]. by rewrite IH.
  - by rewrite (Hnone e He).
Qed.

Lemma annotation_fields h arr o o1 :
  annotation h arr o o1 →
  id o1 = id o ∧ scientificName o1 = scientificName o ∧ children o1 = children o ∧
  vernacularName o1 = vernacularName o ∧ description o1 = description o ∧
  media o1 = media o.
Proof. intros [->|(e & element & _ & _ & _ & ->)]; by destruct o. Qed.

Lemma annotation_again h arr o o1 e element :
  annotation h arr o o1 → e ∈ arr → h !! e = Some element → is_Some (children element) →
  annotation h arr o (set_parentId (Some (id element)) o1).
Proof.
  intros Ha He Hel Hc. right. exists e, element. split_and!; try done.
  destruct Ha as [->|(? & ? & _ & _ & _ & ->)]; by destruct o.
Qed.

Lemma findTaxonById_annotates fuel (h : heap) arr i r :
  search fuel h (λ o, bool_decide (id o = i)) arr = Return r →
  ∃ h1, findTaxonById fuel h (Some arr) i true = Return (h1, r) ∧
        Forall2 (annotation h arr) h h1.
Proof.
  destruct fuel as [|fuel]; [done|]. simpl.
  set (body_s := λ (taxon : option loc) (e : loc), _).
  set (body_t := λ '(h, taxon) (e : loc), _).
  assert (Hgen : ∀ arr' acc (h_cur : heap) r,
    arr' ⊆ arr → Forall2 (annotation h arr) h h_cur →
    forEach body_s acc arr' = Return r →
    ∃ h1, forEach body_t (h_cur, acc) arr' = Return (h1, r) ∧
          Forall2 (annotation h arr) h h1).
  { induction arr' as [|e rest IH]; intros acc h_cur r' Hsub Hann Hrun.
    - simpl in *. simplify_eq. eauto.
    - apply forEach_cons_Return in Hrun as (acc' & Hstep & Hrun).
      assert (He : e ∈ arr) by (apply Hsub; by left).
      assert (Hrest : rest ⊆ arr) by (intros x Hx; apply Hsub; by right).
      assert (Hstep' : ∃ h_cur', body_t (h_cur, acc) e = Return (h_cur', acc') ∧
                                 Forall2 (annotation h arr) h h_cur').
      { unfold body_s in Hstep. unfold body_t.
        destruct (h !! e) as [element|] eqn:Hel; simpl in Hstep; [|done].
        destruct (Forall2_lookup_l _ _ _ _ _ Hann Hel) as (element1 & Hel1 & Ha).
        destruct (annotation_fields _ _ _ _ Ha) as (Hid & _ & Hch & _).
        rewrite Hel1. simpl. rewrite Hid, Hch.
        case_bool_decide as Hi; simpl in Hstep.
        - rewrite decide_True by done. simplify_eq. eauto.
        - rewrite decide_False by done.
          destruct (children element) as [cs|] eqn:Hcs; [|simplify_eq; eauto].
          rewrite findTaxonById_search.
          rewrite <- (search_agree fuel h h_cur).
          + destruct (search fuel h _ cs) as [[tmp|]| |]; simpl in *; simplify_eq.
            * eexists. split; [done|]. apply Forall2_alter_r; [done|].
              intros o o1 _ _ Ho. eapply annotation_again; eauto.
            * eauto.
          + intros l o Hl. destruct (Forall2_lookup_l _ _ _ _ _ Hann Hl) as (o1 & Hl1 & Ha1).
            destruct (annotation_fields _ _ _ _ Ha1) as (Hid1 & _ & Hch1 & _).
            exists o1. by rewrite Hid1.
          + intros l Hl. apply lookup_ge_None in Hl. apply lookup_ge_None.
            by rewrite <- (Forall2_length _ _ _ Hann). }
      destruct Hstep' as (h_cur' & Hstep' & Hann').
      destruct (IH acc' h_cur' r' Hrest Hann' Hrun) as (h1 & Hrun' & Hann1).
      exists h1. split; [|done]. by rewrite forEach_cons, Hstep'. }
  intros Hrun. apply (Hgen arr None h r); [done| |done].
  apply Forall_Forall2_diag, Forall_forall. intros o _. by left.
Qed.

(** Shrinking the arrays of a finite tree leaves a finite tree. *)
Lemma tree_nodes_elem fuel (h : heap) arr ns e :
  tree_nodes (S fuel) h arr = Some ns → e ∈ arr →
  ∃ o, h !! e = Some o ∧ ∀ cs, children o = Some cs → is_Some (tree_nodes fuel h cs).
Proof.
  revert ns. induction arr as [|x rest IH]; intros ns Hns He.
  - by apply elem_of_nil in He.
  - apply tree_nodes_cons_inv in Hns as (element & below & others & Hx & Hb & Ho & ->).
    apply elem_of_cons in He as [->|He]; [|eauto].
    exists element. split; [done|]. intros cs Hcs. rewrite Hcs in Hb. eauto.
Qed.

Lemma tree_nodes_shrink fuel (h h' : heap) arr arr' :
  (∀ l o, h !! l = Some o →
     ∃ o', h' !! l = Some o' ∧
           ∀ cs', children o' = Some cs' → ∃ cs, children o = Some cs ∧ cs' ⊆ cs) →
  arr' ⊆ arr →
  is_Some (tree_nodes fuel h arr) → is_Some (tree_nodes fuel h' arr').
Proof.
  intros Hshrink. revert arr arr'.
  induction fuel as [|fuel IH]; intros arr arr' Hsub [ns Hns]; [done|].
  induction arr' as [|e rest IHrest]; [by eexists|].
  assert (He : e ∈ arr) by (apply Hsub; by left).
  destruct (tree_nodes_elem _ _ _ _ _ Hns He) as (o & Ho & Hcs).
  destruct (Hshrink e o Ho) as (o' & Ho' & Hc').
  destruct IHrest as [others Hothers]; [intros x Hx; apply Hsub; by right|].
  rewrite tree_nodes_cons, Ho'. simpl.
  destruct (children o') as [cs'|] eqn:Hcs'.
  - destruct (Hc' cs' eq_refl) as (cs & Hc & Hsub').
    destruct (IH cs cs' Hsub' (Hcs cs Hc)) as [below ->]. simpl.
    rewrite Hothers. by eexists.
  - simpl. rewrite Hothers. by eexists.
Qed.

Lemma splice1_subseteq {A} (i : option nat) (arr : list A) : Js.splice1 i arr ⊆ arr.
Proof.
  destruct i as [n|]; simpl.
  - apply sublist_subseteq, sublist_delete.
  - intros x Hx. apply list_elem_of_In. apply list_elem_of_In in Hx.
    revert Hx. induction arr as [|a [|b arr] IH]; simpl; [done|done|].
    intros [->|Hx]; [by left|]. right. by apply IH.
Qed.

Lemma addToParent_returns fuel (h : heap) arr taxon parentId :
  is_Some (tree_nodes fuel h arr) →
  ∃ h', addToParent fuel h (Some arr) taxon parentId = Return h'.
Proof.
  intros [ns Hns]. unfold addToParent. rewrite findTaxonById_search.
  destruct (search_spec fuel h (λ o, bool_decide (id o = Js.template parentId)) arr ns Hns)
    as (r & -> & Hr). simpl.
  destruct r as [p|]; [|eauto].
  destruct Hr as (_ & o & -> & _). simpl. eauto.
Qed.

End reparent_lemmas.

Section uniqueness_lemmas.
Import Taxon Spec.
Context {tables : Js.Unicode}.

Lemma pretty_N_go_nonempty x s : s ≠ "" → pretty_N_go x s ≠ "".
Proof.
  revert s. induction (N.lt_wf_0 x) as [x _ IH]; intros s ?.
  assert (x = 0 ∨ 0 < x)%N as [->|?] by lia.
  - by rewrite pretty_N_go_0.
  - rewrite pretty_N_go_step by done. apply IH; [by apply N.div_lt|done].
Qed.

Lemma template_nonempty n : Js.template n ≠ "".
Proof.
  unfold Js.template, pretty, pretty_Z. destruct n as [|x|x]; [done| |done].
  unfold pretty, pretty_positive, pretty, pretty_N.
  rewrite decide_False by done. rewrite pretty_N_go_step by done.
  by apply pretty_N_go_nonempty.
Qed.

Lemma NoDup_fmap_eq {A B} (f : A → B) (l : list A) x y :
  NoDup (f <$> l) → x ∈ l → y ∈ l → f x = f y → x = y.
Proof.
  induction l as [|a l IH]; intros Hnd Hx Hy Hf; [by apply elem_of_nil in Hx|].
  rewrite fmap_cons in Hnd. apply NoDup_cons in Hnd as [Hnotin Hnd].
  apply elem_of_cons in Hx as [->|Hx]; apply elem_of_cons in Hy as [->|Hy]; try done.
  - destruct Hnotin. rewrite Hf. by apply list_elem_of_fmap_2.
  - destruct Hnotin. rewrite <- Hf. by apply list_elem_of_fmap_2.
  - by apply IH.
Qed.

Lemma same_links_refl h : same_links h h.
Proof. apply Forall_Forall2_diag, Forall_forall. done. Qed.

Lemma same_links_trans h1 h2 h3 : same_links h1 h2 → same_links h2 h3 → same_links h1 h3.
Proof.
  unfold same_links. intros H12 H23. eapply Forall2_trans; [|done..].
  intros o1 o2 o3 [<- <-] [<- <-]. done.
Qed.

Lemma same_links_alter h f l :
  (∀ o, id (f o) = id o ∧ children (f o) = children o) → same_links h (alter f l h).
Proof.
  intros Hf. apply Forall2_alter_r; [apply same_links_refl|].
  intros o o' _ _ [Hi Hc]. by destruct (Hf o') as [-> ->].
Qed.

Lemma same_links_annotation h arr h1 : Forall2 (annotation h arr) h h1 → same_links h h1.
Proof.
  intros H. eapply Forall2_impl; [done|]. intros o o1 Ha.
  by destruct (annotation_fields _ _ _ _ Ha) as (-> & _ & -> & _).
Qed.

Lemma same_links_lookup h h' l o :
  same_links h h' → h !! l = Some o →
  ∃ o', h' !! l = Some o' ∧ id o' = id o ∧ children o' = children o.
Proof. intros H Hl. destruct (Forall2_lookup_l _ _ _ _ _ H Hl) as (o' & ? & ?). eauto. Qed.

Lemma same_links_tree_nodes fuel h h' arr ns :
  same_links h h' → tree_nodes fuel h arr = Some ns → tree_nodes fuel h' arr = Some ns.
Proof.
  intros H. apply tree_nodes_preserved. intros l o Hl.
  destruct (same_links_lookup _ _ _ _ H Hl) as (o' & ? & ? & ?). eauto.
Qed.

Lemma same_links_node_id h h' fuel arr ns :
  same_links h h' → tree_nodes fuel h arr = Some ns →
  node_id h' <$> ns = node_id h <$> ns.
Proof.
  intros H Hns. apply list_fmap_ext. intros i y Hy.
  apply list_elem_of_lookup_2 in Hy.
  destruct (tree_nodes_lookup _ _ _ _ _ Hns Hy) as [o Ho].
  destruct (same_links_lookup _ _ _ _ H Ho) as (o' & Ho' & Hid & _).
  unfold node_id. rewrite Ho, Ho'. simpl. by rewrite Hid.
Qed.

(** [updateParentTaxon] returns on a finite tree with unique ids when the
    [parentId] of the taxon, if set, is the id of a top-level taxon that has
    children. *)
Lemma updateParentTaxon_returns fuel (h : heap) t tmp p taxa taxonId ns :
  tree_nodes fuel h taxa = Some ns →
  NoDup (node_id h <$> ns) →
  h !! t = Some tmp →
  (Js.truthy (parentId tmp) = true →
     ∃ e element, e ∈ taxa ∧ h !! e = Some element ∧ is_Some (children element) ∧
                  parentId tmp = Some (id element)) →
  ∃ h' taxa', updateParentTaxon fuel h t p taxa taxonId = Return (h', taxa').
Proof.
  intros Hns Hnd Ht Hparent. unfold updateParentTaxon. rewrite Ht. simpl.
  destruct (Js.truthy (parentId tmp)) eqn:Htruthy.
  - destruct (Hparent eq_refl) as (e & element & He & Hel & [cs Hcs] & Hpid).
    rewrite Hpid. simpl. rewrite findTaxonById_search.
    destruct (search_spec fuel h (λ o, bool_decide (id o = id element)) taxa ns Hns)
      as (r & -> & Hr). simpl.
    assert (Hens : e ∈ ns) by (by eapply tree_nodes_root).
    destruct r as [y|]; simpl in Hr.
    2:{ specialize (Hr e element Hens Hel). by rewrite bool_decide_eq_true_2 in Hr. }
    destruct Hr as (Hy & o & Ho & Hp). apply bool_decide_eq_true in Hp.
    assert (y = e) as ->.
    { eapply (NoDup_fmap_eq (node_id h)); try done. unfold node_id.
      rewrite Ho, Hel. simpl. by rewrite Hp. }
    rewrite Hel. simpl. rewrite Hcs.
    case_decide; [eauto|].
    set (cs' := Js.splice1 _ cs). set (h2 := alter _ e h).
    destruct (addToParent_returns fuel h2 taxa t p) as [h3 ->]; [|simpl; eauto].
    apply (tree_nodes_shrink fuel h h2 taxa taxa); [|done|eauto].
    intros l ol Hl. destruct (decide (l = e)) as [->|Hne].
    + exists (set_children (Some cs') element). split.
      * unfold h2. by rewrite list_lookup_alter_eq, Hel.
      * simpl. intros ? [= <-]. simplify_eq. exists cs. split; [done|].
        apply splice1_subseteq.
    + exists ol. split; [unfold h2; by rewrite list_lookup_alter_ne|].
      intros cs0 ?. exists cs0. done.
  - case_decide; [|eauto].
    destruct (addToParent_returns fuel h
                (Js.splice1 (Js.findIndex (has_id h (Js.template taxonId)) taxa) taxa) t p)
      as [h3 ->]; [|simpl; eauto].
    apply (tree_nodes_shrink fuel h h taxa); [|apply splice1_subseteq|eauto].
    intros l ol Hl. exists ol. split; [done|]. intros cs0 ?. exists cs0. done.
Qed.

End uniqueness_lemmas.

Section serialisation.
Import Taxon Spec.

Lemma tree_nodes_S fuel h arr ns :
  tree_nodes fuel h arr = Some ns → tree_nodes (S fuel) h arr = Some ns.
Proof.
  revert arr ns. induction fuel as [|fuel IH]; intros arr ns; [done|].
  revert ns. induction arr as [|e rest IHarr]; intros ns Hns; [done|].
  apply tree_nodes_cons_inv in Hns as (element & below & others & He & Hb & Ho & ->).
  rewrite tree_nodes_cons, He. simpl.
  rewrite (IHarr _ Ho).
  destruct (children element) as [cs|].
  - rewrite (IH _ _ Hb). done.
  - by simplify_eq.
Qed.

Lemma tree_nodes_le fuel fuel' h arr ns :
  (fuel ≤ fuel')%nat → tree_nodes fuel h arr = Some ns → tree_nodes fuel' h arr = Some ns.
Proof. induction 1; [done|]. intros. by apply tree_nodes_S, IHle. Qed.

(** The least depth within which an array unfolds. *)
Lemma tree_nodes_least fuel h arr ns :
  tree_nodes fuel h arr = Some ns →
  ∃ least, (least ≤ fuel)%nat ∧ is_Some (tree_nodes least h arr) ∧
           ∀ k, (k < least)%nat → tree_nodes k h arr = None.
Proof.
  revert ns. induction fuel as [|fuel IH]; intros ns Hns; [done|].
  destruct (tree_nodes fuel h arr) as [ns'|] eqn:Hless.
  - destruct (IH ns' eq_refl) as (least & ? & ? & ?). exists least. split_and!; [lia|done..].
  - exists (S fuel). split_and!; [done|by eexists|].
    intros k Hk. destruct (tree_nodes k h arr) as [ns'|] eqn:E; [|done].
    rewrite (tree_nodes_le k fuel h arr ns') in Hless; [done|lia|done].
Qed.

Lemma tree_nodes_singleton fuel h e element :
  h !! e = Some element →
  tree_nodes (S fuel) h [e]
  = match children element with
    | Some cs => below ← tree_nodes fuel h cs; Some (e :: below)
    | None => Some [e]
    end.
Proof.
  intros He. rewrite tree_nodes_cons, He. simpl.
  destruct (children element) as [cs|]; simpl.
  - destruct (tree_nodes fuel h cs); simpl; [|done]. by rewrite app_nil_r.
  - done.
Qed.

(** A document that unfolds to a finite tree is not circular: its
    serialisation returns, given the depth within which it unfolds. *)
Lemma stringify_finite depth :
  ∀ fuel h stack arr,
    (depth ≤ fuel)%nat → is_Some (tree_nodes depth h arr) →
    (∀ s, s ∈ stack → tree_nodes depth h [s] = None) →
    stringify fuel h stack arr = Return ().
Proof.
  induction depth as [depth IH] using lt_wf_ind.
  intros fuel h stack arr Hle [ns Hns] Hstack.
  destruct depth as [|depth]; [done|].
  destruct fuel as [|fuel]; [lia|].
  unfold stringify; fold stringify.
  revert ns Hns. induction arr as [|e rest IHarr]; intros ns Hns; [done|].
  apply tree_nodes_cons_inv in Hns as (element & below & others & He & Hb & Ho & ->).
  rewrite forEach_cons.
  rewrite bool_decide_eq_false_2.
  2:{ intros Hin. specialize (Hstack e Hin).
      rewrite (tree_nodes_singleton _ _ _ _ He) in Hstack.
      destruct (children element); [|done]. by rewrite Hb in Hstack. }
  rewrite He. simpl.
  assert (Hchildren : match children element with
                      | Some cs => stringify fuel h (e :: stack) cs
                      | None => Return ()
                      end = Return ()).
  { destruct (children element) as [cs|] eqn:Hcs; [|done].
    destruct (tree_nodes_least _ _ _ _ Hb) as (least & Hleast & Hsome & Hnone).
    apply (IH least); [lia|lia|done|].
    intros s Hs. apply elem_of_cons in Hs as [->|Hs].
    - destruct least as [|k]; [done|].
      rewrite (tree_nodes_singleton _ _ _ _ He), Hcs.
      by rewrite (Hnone k) by lia.
    - destruct (tree_nodes least h [s]) as [ns'|] eqn:E; [|done].
      pose proof (Hstack s Hs) as Hs'.
      rewrite (tree_nodes_le least (S depth) h [s] ns') in Hs'; [done|lia|done]. }
  rewrite Hchildren. simpl. by eapply IHarr.
Qed.

Lemma serialise_finite fuel content ns :
  tree_nodes fuel (Revision.objects content) (default [] (Revision.taxa content)) = Some ns →
  Revision.serialise fuel content = Return ().
Proof.
  intros Hns. apply (stringify_finite fuel); [done|by eexists|].
  intros s Hs. by apply elem_of_nil in Hs.
Qed.

End serialisation.

Section uniqueness.
Import Taxon Spec Revision Routes Examples.
Context {tables : Js.Unicode}.

Lemma findTaxonByName_unique fuel (h : heap) arr ns name y o ignoreId :
  tree_nodes fuel h arr = Some ns →
  NoDup (upper_name h <$> ns) →
  y ∈ ns → h !! y = Some o →
  Js.toUpperCase (scientificName o) = Js.toUpperCase name →
  findTaxonByName fuel h (Some arr) name ignoreId
  = Return (if Js.truthy ignoreId && bool_decide (Some (Taxon.id o) = ignoreId)
            then None else Some y).
Proof.
  intros Hns Hnd Hy Ho Hname. unfold findTaxonByName.
  rewrite findTaxonByName_loop_search.
  destruct (search_spec fuel h
              (λ o, bool_decide (Js.toUpperCase (scientificName o) = Js.toUpperCase name))
              arr ns Hns) as (r & -> & Hr). simpl.
  destruct r as [y'|]; simpl in Hr.
  2:{ specialize (Hr y o Hy Ho). by rewrite bool_decide_eq_true_2 in Hr. }
  destruct Hr as (Hy' & o' & Ho' & Hp). apply bool_decide_eq_true in Hp.
  assert (y' = y) as ->.
  { eapply (NoDup_fmap_eq (upper_name h)); try done. unfold upper_name.
    rewrite Ho, Ho'. simpl. congruence. }
  rewrite Ho. simpl. by destruct (_ && _).
Qed.

Lemma Taxon_findByPk_id db taxonId row : Taxon_findByPk db taxonId = Some row → row.1 = taxonId.
Proof.
  unfold Taxon_findByPk. intros H. apply find_some in H as [_ H].
  by apply bool_decide_eq_true in H.
Qed.

(** The request up to the renaming: the taxon is found under its id, and
    the answer follows from what [modifyTaxonNames] returns. *)
Lemma put_taxon_response fuel env db taxonId (body : Body) user uuid revision key
    content_taxa ns row x :
  let h := objects (content revision) in
  findRevisionForKey db (Taxon.revisionId body) (Taxon.keyId body)
    = Return (revision, Some key) →
  taxa (content revision) = Some content_taxa →
  tree_nodes fuel h content_taxa = Some ns →
  Taxon_findByPk db taxonId = Some row →
  x ∈ ns → node_id h x = Some (Js.template taxonId) →
  ∃ h1 t o1,
    Forall2 (annotation h content_taxa) h h1 ∧ t ∈ ns ∧ h1 !! t = Some o1 ∧
    Taxon.id o1 = Js.template taxonId ∧
    ∀ (h2 : heap) valid,
      modifyTaxonNames fuel h1 t (Js.template taxonId) (Some content_taxa) body
        = Return (h2, valid) →
      same_links h1 h2 →
      parentId <$> h2 !! t = Some (parentId o1) →
      (valid = false →
       body_parentId body = None ∨
         (NoDup (node_id h <$> ns) ∧
          ∀ y o, y ∈ ns → h !! y = Some o → parentId o = None) →
       put_taxon fuel env db taxonId body user uuid = Some (db, sendStatus 409)) ∧
      (valid = true → body_parentId body = None →
       put_taxon fuel env db taxonId body user uuid
       = Some ((createRevision env db key
                  (mkContent (delete_parentId t h2) (Some content_taxa)
                     (characters (content revision)) (statements (content revision)))
                  (Revision.media revision) user
                  (Some ("Updated taxon: " +:+ body_scientificName body))
                  (mode revision) uuid).1.1,
               json 200 (RevisionId uuid))).
Proof.
  intros h Hfind Htaxa Hns Hrow Hx Hxid.
  pose proof (Taxon_findByPk_id _ _ _ Hrow) as Hrowid.
  destruct (search_spec fuel h (λ o, bool_decide (Taxon.id o = Js.template taxonId))
              content_taxa ns Hns) as (r & Hsearch & Hr).
  destruct r as [t|]; simpl in Hr.
  2:{ unfold node_id in Hxid. destruct (h !! x) as [ox|] eqn:Hox; [|done].
      simpl in Hxid. simplify_eq. specialize (Hr x ox Hx Hox).
      by rewrite bool_decide_eq_true_2 in Hr. }
  destruct Hr as (Ht & o & Ho & Hp). apply bool_decide_eq_true in Hp.
  destruct (findTaxonById_annotates _ _ _ _ _ Hsearch) as (h1 & Hrun & Hann).
  destruct (Forall2_lookup_l _ _ _ _ _ Hann Ho) as (o1 & Ho1 & Hao).
  exists h1, t, o1. split_and!; try done.
  { destruct (annotation_fields _ _ _ _ Hao) as (-> & _). done. }
  intros h2 valid Hmod Hlinks Hpar.
  pose proof (same_links_annotation _ _ _ Hann) as Hlinks1.
  pose proof (same_links_trans _ _ _ Hlinks1 Hlinks) as Hlinks2.
  destruct (same_links_lookup _ _ _ _ Hlinks Ho1) as (o2 & Ho2 & Hid2 & Hch2).
  rewrite Ho2 in Hpar. simpl in Hpar. simplify_eq.
  split.
  - intros -> Hwf.
    unfold put_taxon. rewrite Hfind. simpl. rewrite Hrow, Htaxa.
    fold h. rewrite Hrun. simpl. rewrite Hmod. simpl.
    destruct (body_parentId body) as [p|]; [|done].
    destruct Hwf as [?|[Hnd Hstale]]; [done|]. rewrite Ho2. simpl.
    destruct (updateParentTaxon_returns fuel h2 t o2 p content_taxa row.1 ns)
      as (h3 & taxa3 & ->); try done.
    + by eapply same_links_tree_nodes.
    + by rewrite (same_links_node_id h h2 fuel content_taxa ns).
    + intros Htruthy. destruct Hao as [->|(e & element & He & Hel & Hc & ->)].
      * rewrite Hpar in Htruthy. specialize (Hstale t o Ht Ho).
        rewrite Hstale in Htruthy. done.
      * destruct (same_links_lookup _ _ _ _ Hlinks2 Hel) as (e2 & He2 & Hide & Hche).
        exists e, e2. split_and!; try done.
        -- by rewrite Hche.
        -- rewrite Hpar. simpl. by rewrite Hide.
  - intros -> Hnone.
    unfold put_taxon. rewrite Hfind. simpl. rewrite Hrow, Htaxa.
    fold h. rewrite Hrun. simpl. rewrite Hmod. simpl. rewrite Hnone. simpl.
    rewrite (serialise_finite fuel _ ns).
    2:{ simpl. eapply same_links_tree_nodes; [|done].
        eapply same_links_trans; [done|].
        apply same_links_alter. intros o'. by destruct o'. }
    simpl.
    destruct (createRevision _ _ _ _ _ _ _ _ _) as [[db' key'] rid] eqn:Hcreate.
    apply createRevision_result in Hcreate as (-> & _). done.
Qed.

Lemma annotation_upper_name h arr h1 fuel taxa ns :
  Forall2 (annotation h arr) h h1 → tree_nodes fuel h taxa = Some ns →
  upper_name h1 <$> ns = upper_name h <$> ns.
Proof.
  intros Hann Hns. apply list_fmap_ext. intros i y Hy.
  apply list_elem_of_lookup_2 in Hy.
  destruct (tree_nodes_lookup _ _ _ _ _ Hns Hy) as [o Ho].
  destruct (Forall2_lookup_l _ _ _ _ _ Hann Ho) as (o1 & Ho1 & Ha).
  destruct (annotation_fields _ _ _ _ Ha) as (_ & Hn & _).
  unfold upper_name. rewrite Ho, Ho1. simpl. by rewrite Hn.
Qed.

Lemma modifyTaxonInfo_links body o :
  Taxon.id (modifyTaxonInfo body o) = Taxon.id o ∧
  children (modifyTaxonInfo body o) = children o.
Proof. by destruct (modifyTaxonInfo_fields body o) as (? & _ & _ & _ & ? & _). Qed.

(** Claim C6, amended. On a finite taxa tree, creating a taxon under a
    scientific name that an existing node has, case-insensitively, answers
    409 and stores nothing. On a tree whose scientific names are pairwise
    different case-insensitively: a match of [findTaxonByName] whose id
    is [ignoreId] counts as not found; renaming a taxon to the name of
    another node answers 409 and stores nothing (for a request that also
    carries a [parentId], when the ids of the tree are unique and no node
    stores a [parentId]); and renaming a taxon to its own current name, in
    any spelling, in a request that does not move it, answers 200 and
    stores a revision in which the taxon bears the name as requested,
    every other node bears the name it had, and the tree has the shape it
    had. *)
Theorem scientific_name_uniqueness (fuel : nat) (DEFAULT_KEY_MODE : option Z) (db : Db)
    (body : Body) (user uuid : string) (revision : Revision.t) (key : Key)
    (content_taxa ns : list loc) :
  let h := objects (content revision) in
  let name := body_scientificName body in
  findRevisionForKey db (Taxon.revisionId body) (Taxon.keyId body)
    = Return (revision, Some key) →
  taxa (content revision) = Some content_taxa →
  tree_nodes fuel h content_taxa = Some ns →
  (* creating a taxon under the name of an existing node *)
  (∀ y o, y ∈ ns → h !! y = Some o →
     Js.toUpperCase (scientificName o) = Js.toUpperCase name →
     post_taxon fuel DEFAULT_KEY_MODE db body user uuid = Some (db, sendStatus 409)) ∧
  (NoDup (upper_name h <$> ns) →
   (* a match whose id is [ignoreId] counts as not found *)
   (∀ y o ignoreId, y ∈ ns → h !! y = Some o →
      Js.toUpperCase (scientificName o) = Js.toUpperCase name → ignoreId ≠ "" →
      findTaxonByName fuel h (Some content_taxa) name (Some ignoreId)
      = Return (if decide (Taxon.id o = ignoreId) then None else Some y)) ∧
   (∀ taxonId row x,
      Taxon_findByPk db taxonId = Some row → name ≠ "" →
      x ∈ ns → node_id h x = Some (Js.template taxonId) →
      (* renaming to the name of another node *)
      (body_parentId body = None ∨
         (NoDup (node_id h <$> ns) ∧
          ∀ y o, y ∈ ns → h !! y = Some o → parentId o = None) →
       ∀ y o, y ∈ ns → h !! y = Some o →
         Js.toUpperCase (scientificName o) = Js.toUpperCase name →
         Taxon.id o ≠ Js.template taxonId →
         put_taxon fuel DEFAULT_KEY_MODE db taxonId body user uuid
         = Some (db, sendStatus 409)) ∧
      (* renaming a node to its own current name, without moving it *)
      (body_parentId body = None →
       upper_name h x = Some (Js.toUpperCase name) →
       ∃ db' revision' t o',
         put_taxon fuel DEFAULT_KEY_MODE db taxonId body user uuid
           = Some (db', json 200 (RevisionId uuid)) ∧
         Revision_table db' !! uuid = Some revision' ∧
         t ∈ ns ∧ node_id h t = Some (Js.template taxonId) ∧
         objects (content revision') !! t = Some o' ∧
         scientificName o' = name ∧
         (∀ l, l ≠ t →
            scientificName <$> objects (content revision') !! l = scientificName <$> h !! l) ∧
         same_links h (objects (content revision')) ∧
         taxa (content revision') = Some content_taxa))).
Proof.
  intros h name Hfind Htaxa Hns. split; [|intros Hnames; split].
  - intros y o Hy Ho Hname. unfold post_taxon. rewrite Hfind. simpl.
    rewrite Htaxa. simpl. fold h. unfold findTaxonByName.
    rewrite findTaxonByName_loop_search.
    destruct (search_spec fuel h
                (λ o, bool_decide (Js.toUpperCase (scientificName o) = Js.toUpperCase name))
                content_taxa ns Hns) as (r & Hr & Hspec).
    fold name. rewrite Hr. simpl. destruct r as [y'|]; simpl in Hspec.
    + destruct Hspec as (_ & o' & -> & _). done.
    + specialize (Hspec y o Hy Ho). by rewrite bool_decide_eq_true_2 in Hspec.
  - intros y o ignoreId Hy Ho Hname Hne.
    rewrite (findTaxonByName_unique fuel h content_taxa ns name y o) by done.
    rewrite (truthy_nonempty _ Hne). simpl.
    case_bool_decide; case_decide; congruence.
  - intros taxonId row x Hrow Hnonempty Hx Hxid.
    destruct (put_taxon_response fuel DEFAULT_KEY_MODE db taxonId body user uuid revision key
                content_taxa ns row x Hfind Htaxa Hns Hrow Hx Hxid)
      as (h1 & t & o1 & Hann & Ht & Ho1 & Hid1 & Hresp).
    assert (Hns1 : tree_nodes fuel h1 content_taxa = Some ns).
    { eapply same_links_tree_nodes; [|done]. by eapply same_links_annotation. }
    assert (Hnames1 : NoDup (upper_name h1 <$> ns)).
    { by rewrite (annotation_upper_name h content_taxa h1 fuel content_taxa ns). }
    split.
    + intros Hwf y o Hy Ho Hname Hother.
      destruct (Forall2_lookup_l _ _ _ _ _ Hann Ho) as (oy1 & Hoy1 & Hay).
      destruct (annotation_fields _ _ _ _ Hay) as (Hid & Hn & _).
      destruct (Hresp (alter (modifyTaxonInfo body) t h1) false) as [H409 _]; [| | |by apply H409].
      * unfold modifyTaxonNames. fold name. rewrite (truthy_nonempty _ Hnonempty).
        rewrite (findTaxonByName_unique fuel h1 content_taxa ns name y oy1)
          by (try done; by rewrite Hn).
        rewrite Hid. rewrite (bool_decide_eq_false_2 (Some (Taxon.id o) = _)) by congruence.
        rewrite andb_false_r. simpl. by rewrite Ho1.
      * apply same_links_alter, modifyTaxonInfo_links.
      * rewrite list_lookup_alter_eq, Ho1. simpl.
        by destruct (modifyTaxonInfo_fields body o1) as (_ & _ & _ & -> & _).
    + intros Hnone Hown. unfold upper_name, node_id in Hown, Hxid.
      destruct (h !! x) as [ox|] eqn:Hox; [|done].
      injection Hxid as Hxid. injection Hown as Hown.
      destruct (Forall2_lookup_l _ _ _ _ _ Hann Hox) as (ox1 & Hox1 & Hax).
      destruct (annotation_fields _ _ _ _ Hax) as (Hid & Hn & _).
      set (h2 := alter (modifyTaxonInfo body) t (alter (set_scientificName name) t h1)).
      assert (Hlinks2 : same_links h1 h2).
      { eapply same_links_trans; apply same_links_alter; [done|apply modifyTaxonInfo_links]. }
      destruct (Hresp h2 true) as [_ H200]; [| | |].
      * unfold modifyTaxonNames. fold name. rewrite (truthy_nonempty _ Hnonempty).
        rewrite (findTaxonByName_unique fuel h1 content_taxa ns name x ox1)
          by (try done; by rewrite Hn).
        rewrite Hid, Hxid. rewrite (truthy_nonempty _ (template_nonempty taxonId)).
        rewrite bool_decide_eq_true_2 by done. simpl.
        by rewrite list_lookup_alter_eq, Ho1.
      * done.
      * unfold h2. rewrite !list_lookup_alter_eq, Ho1. simpl.
        by destruct (modifyTaxonInfo_fields body (set_scientificName name o1))
          as (_ & _ & _ & -> & _).
      * specialize (H200 eq_refl Hnone).
        destruct (createRevision _ _ _ _ _ _ _ _ _) as [[db' key'] rid] eqn:Hcreate.
        apply createRevision_result in Hcreate as (-> & _ & st & Hrev).
        simpl in H200.
        eexists db', _, t, _. split; [exact H200|]. split; [exact Hrev|]. simpl.
        split; [done|]. split.
        { destruct (Forall2_lookup_r _ _ _ _ _ Hann Ho1) as (o & Ho & Hao).
          destruct (annotation_fields _ _ _ _ Hao) as (Hido & _).
          unfold node_id. subst h. rewrite Ho. simpl. congruence. }
        split.
        { unfold delete_parentId, h2. rewrite !list_lookup_alter_eq, Ho1. done. }
        split.
        { simpl.
          by destruct (modifyTaxonInfo_fields body (set_scientificName name o1))
            as (_ & -> & _). }
        split.
        { intros l Hl. unfold delete_parentId, h2.
          rewrite !list_lookup_alter_ne by done. subst h.
          destruct (objects (content revision) !! l) as [o|] eqn:Ho.
          - destruct (Forall2_lookup_l _ _ _ _ _ Hann Ho) as (ol1 & Hol1 & Hal).
            destruct (annotation_fields _ _ _ _ Hal) as (_ & Hnl & _).
            rewrite Hol1. simpl. by rewrite Hnl.
          - apply lookup_ge_None in Ho.
            rewrite (Forall2_length _ _ _ Hann) in Ho.
            apply lookup_ge_None in Ho. by rewrite Ho. }
        split; [|done].
        eapply same_links_trans; [by eapply same_links_annotation|].
        eapply same_links_trans; [exact Hlinks2|].
        apply same_links_alter. intros o'. by destruct o'.
Qed.

(** On a tree in which two nodes bear the same name, [findTaxonByName]
    looks at the last match only: renaming taxon 2 of
    [[ Corvus (id 1), corvus (id 2) ]] to [CORVUS], the name of the other
    node in another spelling, answers 200 and stores the name. *)
Lemma put_taxon_among_twins :
  (∃ o, Samples.twins !! 0%nat = Some o ∧ Taxon.id o ≠ "2" ∧
        Js.toUpperCase (scientificName o) = Js.toUpperCase "CORVUS") ∧
  ∃ db' revision',
    put_taxon 3 None Samples.twins_db 2 (request "CORVUS" None None) "user" "r2"
      = Some (db', json 200 (RevisionId "r2")) ∧
    Revision_table db' !! "r2" = Some revision' ∧
    scientificName <$> objects (content revision') = ["Corvus"; "CORVUS"].
Proof.
  split.
  - eexists. split; [reflexivity|]. split; [discriminate|reflexivity].
  - destruct (put_taxon 3 None Samples.twins_db 2 (request "CORVUS" None None) "user" "r2")
      as [[db' response]|] eqn:E; [|by vm_compute in E].
    vm_compute in E. injection E as <- <-.
    eexists _, _. split; [reflexivity|]. split; by vm_compute.
Qed.

End uniqueness.

Section uniqueness_sample.
Import Taxon Spec Revision Routes Examples Samples.
#[local] Existing Instance Js.sample_tables.

Lemma birds_names_unique : NoDup (upper_name birds <$> [0; 1; 2; 3; 4]%nat).
Proof. apply (bool_decide_unpack _). vm_compute. exact I. Qed.

Lemma birds_ids_unique : NoDup (node_id birds <$> [0; 1; 2; 3; 4]%nat).
Proof. apply (bool_decide_unpack _). vm_compute. exact I. Qed.

Lemma birds_no_parentId y o :
  y ∈ [0; 1; 2; 3; 4]%nat → birds !! y = Some o → parentId o = None.
Proof. intros Hy Ho. each_node Hy; by injection Ho as <-. Qed.

Lemma scientific_name_uniqueness_witness :
  post_taxon 3 None birds_db (request "corvus" None (Some 1)) "user" "r2"
    = Some (birds_db, sendStatus 409) ∧
  put_taxon 3 None birds_db 4 (request "corvus" None (Some 1)) "user" "r2"
    = Some (birds_db, sendStatus 409) ∧
  ∃ db' revision' o',
    put_taxon 3 None birds_db 3 (request "corvus" None None) "user" "r2"
      = Some (db', json 200 (RevisionId "r2")) ∧
    Revision_table db' !! "r2" = Some revision' ∧
    objects (content revision') !! 2%nat = Some o' ∧
    scientificName o' = "corvus".
Proof.
  destruct (scientific_name_uniqueness 3 None birds_db (request "corvus" None (Some 1))
              "user" "r2" birds_revision (mkKey "k1" (Some "r1")) birds_taxa
              [0; 1; 2; 3; 4]%nat eq_refl eq_refl eq_refl) as [Hcreate Hrename].
  destruct (Hrename birds_names_unique) as [_ Hput].
  destruct (Hput 4 (4, "k1") 3%nat eq_refl)
    as [Hconflict _]; [discriminate|by do 3 right; left|reflexivity|].
  destruct (scientific_name_uniqueness 3 None birds_db (request "corvus" None None)
              "user" "r2" birds_revision (mkKey "k1" (Some "r1")) birds_taxa
              [0; 1; 2; 3; 4]%nat eq_refl eq_refl eq_refl) as [_ Hrename'].
  destruct (Hrename' birds_names_unique) as [_ Hput'].
  destruct (Hput' 3 (3, "k1") 2%nat eq_refl)
    as [_ Hown]; [discriminate|by do 2 right; left|reflexivity|].
  split; [|split].
  - apply (Hcreate 2%nat (leaf "3" "Corvus")); [by do 2 right; left|reflexivity|reflexivity].
  - apply (Hconflict (or_intror (conj birds_ids_unique birds_no_parentId))
             2%nat (leaf "3" "Corvus"));
      [by do 2 right; left|reflexivity|reflexivity|discriminate].
  - destruct (Hown eq_refl eq_refl)
      as (db' & revision' & t & o' & Hrun & Hrev & Ht & Hid & Ho' & Hname' & _).
    assert (t = 2%nat) as ->.
    { each_node Ht; by vm_compute in Hid. }
    exists db', revision', o'. done.
Defined.

(** Claim C6 as stated fails on a tree in which two nodes bear the same
    name. Taxon 2 of [[ Corvus (id 1), corvus (id 2) ]] is renamed to
    [CORVUS], the name of the other node in another spelling: the answer
    is 200 and the name is stored. *)
Lemma rename_to_shared_name_counterexample :
  (∃ o, twins !! 0%nat = Some o ∧ Taxon.id o ≠ "2" ∧
        Js.toUpperCase (scientificName o) = Js.toUpperCase "CORVUS") ∧
  ∃ db' revision',
    put_taxon 3 None twins_db 2 (request "CORVUS" None None) "user" "r2"
      = Some (db', json 200 (RevisionId "r2")) ∧
    Revision_table db' !! "r2" = Some revision' ∧
    scientificName <$> objects (content revision') = ["Corvus"; "CORVUS"].
Proof. apply put_taxon_among_twins. Qed.

End uniqueness_sample.

(** ** Moving a taxon *)

Section reparenting.
Import Taxon Spec Revision Routes Examples.
Context {tables : Js.Unicode}.

(** [findTaxonById(taxa, '3', true)] finds [Corvus] and writes the id of
    [Aves], the top-level ancestor, to its [parentId]; the parent is
    [Passeriformes], whose id is 2. *)
Example findTaxonById_annotates_ancestor :
  ∃ h1, findTaxonById 3 birds (Some birds_taxa) "3" true = Return (h1, Some 2%nat) ∧
        parentId <$> h1 !! 2%nat = Some (Some "1").
Proof. eexists. split; reflexivity. Qed.

(** A child of a top-level taxon does move: [Strigiformes] (id 4) leaves
    [Aves] and becomes the only child of [Mammalia]. *)
Example put_taxon_child_moves :
  ∃ db' revision',
    put_taxon 3 None birds_db 4 (request "Strigiformes" None (Some 5)) "user" "r2"
      = Some (db', json 200 (RevisionId "r2")) ∧
    Revision_table db' !! "r2" = Some revision' ∧
    children <$> objects (content revision') !! 0%nat = Some (Some [1%nat]) ∧
    children <$> objects (content revision') !! 4%nat = Some (Some [3%nat]).
Proof.
  destruct (put_taxon 3 None birds_db 4 (request "Strigiformes" None (Some 5)) "user" "r2")
    as [[db' response]|] eqn:E; [|by vm_compute in E].
  vm_compute in E. injection E as <- <-.
  eexists _, _. split; [reflexivity|]. split; [by vm_compute|]. by vm_compute.
Qed.

(** Moving the grandchild [Corvus] to the root: it is pushed to the
    top-level list and stays a child of [Passeriformes]. *)
Example put_taxon_grandchild_to_root :
  ∃ db' revision',
    put_taxon 3 None birds_db 3 (request "Corvus" None (Some 0)) "user" "r2"
      = Some (db', json 200 (RevisionId "r2")) ∧
    Revision_table db' !! "r2" = Some revision' ∧
    taxa (content revision') = Some [0; 4; 2]%nat ∧
    children <$> objects (content revision') !! 1%nat = Some (Some [2%nat]).
Proof.
  destruct (put_taxon 3 None birds_db 3 (request "Corvus" None (Some 0)) "user" "r2")
    as [[db' response]|] eqn:E; [|by vm_compute in E].
  vm_compute in E. injection E as <- <-.
  eexists _, _. split; [reflexivity|]. split; [by vm_compute|]. by vm_compute.
Qed.

(** Claim C4 on a taxon at depth 2. The request moves the grandchild
    [Corvus] (id 3), a child of [Passeriformes], under [Mammalia] (id 5):
    in the new revision [Corvus] is still a child of [Passeriformes], is
    also a child of [Mammalia], and the top-level [Aves] has lost its last
    child, [Strigiformes], instead. *)
Theorem put_taxon_moves_grandchild :
  ∃ db' revision',
    put_taxon 3 None birds_db 3 (request "Corvus" None (Some 5)) "user" "r2"
      = Some (db', json 200 (RevisionId "r2")) ∧
    Revision_table db' !! "r2" = Some revision' ∧
    taxa (content revision') = Some [0; 4]%nat ∧
    children <$> objects (content revision') !! 1%nat = Some (Some [2%nat]) ∧
    children <$> objects (content revision') !! 4%nat = Some (Some [2%nat]) ∧
    children <$> objects (content birds_revision) !! 0%nat = Some (Some [1; 3]%nat) ∧
    children <$> objects (content revision') !! 0%nat = Some (Some [1%nat]).
Proof.
  destruct (put_taxon 3 None birds_db 3 (request "Corvus" None (Some 5)) "user" "r2")
    as [[db' response]|] eqn:E; [|by vm_compute in E].
  vm_compute in E. injection E as <- <-.
  eexists _, _. split; [reflexivity|]. split; [by vm_compute|]. by vm_compute.
Qed.

(** Moving the grandchild [Corvus] under itself: it stays a child of
    [Passeriformes] and is pushed to its own children, the document is
    circular, [createRevision] throws on it and the answer is 500. *)
Example put_taxon_under_itself :
  put_taxon 5 None birds_db 3 (request "Corvus" None (Some 3)) "user" "r2"
  = Some (birds_db, sendStatus 500).
Proof. reflexivity. Qed.

End reparenting.

(** * Further properties *)

(** ** Auxiliary facts on lists, searches and the store *)

Section auxiliary.
Import Taxon Spec.

Lemma filter_all {A} (P : A → Prop) `{∀ x, Decision (P x)} (l : list A) :
  Forall P l → filter P l = l.
Proof.
  induction 1 as [|x l Hx Hl IH]; [done|].
  rewrite filter_cons_True by done. by rewrite IH.
Qed.

Lemma list_alter_as_insert {A} (f : A → A) (l : list A) i x :
  l !! i = Some x → alter f i l = <[i := f x]> l.
Proof.
  intros Hx. apply list_eq. intros j. destruct (decide (j = i)) as [->|].
  - rewrite list_lookup_alter_eq, Hx. simpl.
    rewrite list_lookup_insert_eq; [done|]. by apply lookup_lt_Some in Hx.
  - rewrite list_lookup_alter_ne, list_lookup_insert_ne; done.
Qed.

Lemma NoDup_app_fmap_absent {A B} `{EqDecision B} (f : A → B) (l1 l2 : list A) x y :
  NoDup (f <$> (l1 ++ l2)) → x ∈ l1 → y ∈ l2 → f y ≠ f x.
Proof.
  rewrite fmap_app. intros (_ & Hdisj & _)%NoDup_app Hx Hy Heq.
  apply (Hdisj (f x)); [by apply list_elem_of_fmap_2|].
  rewrite <- Heq. by apply list_elem_of_fmap_2.
Qed.

Lemma sublist_fmap {A B} (f : A → B) (l1 l2 : list A) :
  l1 `sublist_of` l2 → f <$> l1 `sublist_of` f <$> l2.
Proof.
  induction 1; simpl; [constructor|by apply sublist_skip|by apply sublist_cons].
Qed.

Lemma truthy_Some_ne s : Js.truthy (Some s) = true ↔ s ≠ "".
Proof.
  simpl. destruct (String.eqb_spec s ""); simpl; split; congruence.
Qed.

Lemma search_by_id_unique fuel (h : heap) arr ns i :
  tree_nodes fuel h arr = Some ns →
  NoDup (node_id h <$> ns) →
  (∀ y, y ∈ ns → node_id h y = Some i →
     search fuel h (λ o, bool_decide (id o = i)) arr = Return (Some y)) ∧
  ((∀ y, y ∈ ns → node_id h y ≠ Some i) →
     search fuel h (λ o, bool_decide (id o = i)) arr = Return None).
Proof.
  intros Hns Hnd.
  destruct (search_spec fuel h (λ o, bool_decide (id o = i)) arr ns Hns) as (r & Hs & Hr).
  rewrite Hs. split.
  - intros y Hy Hid. destruct r as [z|]; simpl in Hr.
    + destruct Hr as (Hz & o & Ho & Hp). apply bool_decide_eq_true in Hp.
      f_equal. f_equal. apply (NoDup_fmap_eq (node_id h) ns); try done.
      rewrite Hid. unfold node_id. by rewrite Ho, <- Hp.
    + unfold node_id in Hid. destruct (h !! y) as [o|] eqn:Ho; [|done].
      simpl in Hid. specialize (Hr y o Hy Ho). apply bool_decide_eq_false in Hr.
      congruence.
  - intros Hno. destruct r as [z|]; [|done]. simpl in Hr.
    destruct Hr as (Hz & o & Ho & Hp). apply bool_decide_eq_true in Hp.
    exfalso. apply (Hno z Hz). unfold node_id. by rewrite Ho, <- Hp.
Qed.

Lemma search_by_id_absent fuel (h : heap) arr ns i :
  tree_nodes fuel h arr = Some ns →
  (∀ y, y ∈ ns → node_id h y ≠ Some i) →
  search fuel h (λ o, bool_decide (id o = i)) arr = Return None.
Proof.
  intros Hns Hno.
  destruct (search_spec fuel h (λ o, bool_decide (id o = i)) arr ns Hns) as (r & Hs & Hr).
  rewrite Hs. destruct r as [z|]; [|done]. simpl in Hr.
  destruct Hr as (Hz & o & Ho & Hp). apply bool_decide_eq_true in Hp.
  exfalso. apply (Hno z Hz). unfold node_id. by rewrite Ho, <- Hp.
Qed.

Lemma same_links_none (h h' : heap) l : same_links h h' → h !! l = None → h' !! l = None.
Proof.
  intros Hl Hn. apply lookup_ge_None in Hn. apply lookup_ge_None.
  by rewrite <- (Forall2_length _ _ _ Hl).
Qed.

Lemma search_same_links fuel (h h' : heap) i arr :
  same_links h h' →
  search fuel h (λ o, bool_decide (id o = i)) arr
  = search fuel h' (λ o, bool_decide (id o = i)) arr.
Proof.
  intros Hl. apply search_agree.
  - intros l o Ho. destruct (same_links_lookup _ _ _ _ Hl Ho) as (o' & Ho' & Hid & Hc).
    exists o'. by rewrite Hid.
  - intros l. by apply same_links_none.
Qed.

Lemma findTaxonById_result fuel (h : heap) arr ns i :
  tree_nodes fuel h arr = Some ns →
  NoDup (node_id h <$> ns) →
  (∀ y, y ∈ ns → node_id h y = Some i →
     findTaxonById fuel h (Some arr) i false = Return (h, Some y)) ∧
  ((∀ y, y ∈ ns → node_id h y ≠ Some i) →
     findTaxonById fuel h (Some arr) i false = Return (h, None)).
Proof.
  intros Hns Hnd.
  destruct (search_by_id_unique fuel h arr ns i Hns Hnd) as [H1 H2].
  split.
  - intros y Hy Hid. rewrite findTaxonById_search, (H1 y Hy Hid). done.
  - intros Hno. rewrite findTaxonById_search, (H2 Hno). done.
Qed.

Lemma addToParent_result fuel (h : heap) arr ns taxon parentId :
  tree_nodes fuel h arr = Some ns →
  NoDup (node_id h <$> ns) →
  (∀ p o, p ∈ ns → h !! p = Some o → id o = Js.template parentId →
     addToParent fuel h (Some arr) taxon parentId
     = Return (<[p := set_children (Some (default [] (children o) ++ [taxon])) o]> h)) ∧
  ((∀ y, y ∈ ns → node_id h y ≠ Some (Js.template parentId)) →
     addToParent fuel h (Some arr) taxon parentId = Return h).
Proof.
  intros Hns Hnd.
  destruct (findTaxonById_result fuel h arr ns (Js.template parentId) Hns Hnd) as [H1 H2].
  split.
  - intros p o Hp Ho Hid. unfold addToParent.
    rewrite (H1 p Hp); [|unfold node_id; by rewrite Ho, <- Hid].
    simpl. rewrite Ho. simpl. f_equal.
    rewrite (list_alter_as_insert _ _ _ o Ho).
    rewrite (list_alter_as_insert _ _ p
               (match children o with Some _ => o | None => set_children (Some []) o end)).
    + rewrite list_insert_insert_eq. f_equal. by destruct o as [? ? ? ? ? ? [cs|]].
    + rewrite list_lookup_insert_eq; [done|]. by apply lookup_lt_Some in Ho.
  - intros Hno. unfold addToParent. by rewrite (H2 Hno).
Qed.

Lemma tree_nodes_app fuel (h : heap) l1 l2 :
  tree_nodes (S fuel) h (l1 ++ l2)
  = n1 ← tree_nodes (S fuel) h l1; n2 ← tree_nodes (S fuel) h l2; Some (n1 ++ n2).
Proof.
  induction l1 as [|e l1 IH].
  - rewrite tree_nodes_nil. simpl. by destruct (tree_nodes (S fuel) h l2).
  - rewrite <- app_comm_cons, !tree_nodes_cons, IH.
    destruct (h !! e) as [element|]; simpl; [|done].
    destruct (match children element with Some cs => _ | None => _ end); simpl; [|done].
    destruct (tree_nodes (S fuel) h l1); simpl; [|done].
    destruct (tree_nodes (S fuel) h l2); simpl; [|done].
    by rewrite app_assoc.
Qed.

Lemma findIndex_middle {A} (p : A → bool) (l1 l2 : list A) x :
  (∀ y, y ∈ l1 → p y = false) → p x = true →
  Js.findIndex p (l1 ++ x :: l2) = Some (length l1).
Proof.
  intros Hl1 Hx. induction l1 as [|y l1 IH]; simpl.
  - by rewrite Hx.
  - rewrite (Hl1 y) by (by left). rewrite IH; [done|]. intros z Hz. apply Hl1. by right.
Qed.

End auxiliary.

Section auxiliary_store.
Import Revision.

Lemma createRevision_tables env db key c m u n md uuid :
  let db' := (createRevision env db key c m u n md uuid).1.1 in
  (∀ r, r ≠ uuid → Revision_table db' !! r = Revision_table db !! r) ∧
  Revisions_table db' = Revisions_table db ++ [(key_id key, uuid)] ∧
  (∀ k, k ≠ key_id key → Key_table db' !! k = Key_table db !! k) ∧
  (Js.truthy (revisionId key) = true → Key_table db' = Key_table db) ∧
  Taxon_table db' = Taxon_table db.
Proof.
  intros db'. subst db'. unfold createRevision. simpl.
  destruct (Js.truthy (revisionId key)); simpl; split_and!; try done.
  - intros r Hr. by rewrite lookup_insert_ne.
  - intros r Hr. rewrite lookup_alter_ne by done. by rewrite lookup_insert_ne.
  - intros k Hk. by rewrite lookup_alter_ne.
Qed.

Lemma findRevisionForKey_Return db revisionId keyId revision key :
  findRevisionForKey db revisionId keyId = Return (revision, key) →
  (keyId, revisionId) ∈ Revisions_table db ∧
  Revision_table db !! revisionId = Some revision ∧
  key = Key_table db !! keyId.
Proof.
  unfold findRevisionForKey.
  destruct (Revisions_findOne db revisionId keyId) as [row|] eqn:Hjoin; [|done].
  apply Revisions_findOne_Some in Hjoin.
  destruct (Revision_table db !! revisionId); [|done]. intros [= <- <-]. done.
Qed.

Lemma findRevisionForKey_linked db revisionId keyId revision :
  (keyId, revisionId) ∈ Revisions_table db →
  Revision_table db !! revisionId = Some revision →
  findRevisionForKey db revisionId keyId = Return (revision, Key_table db !! keyId).
Proof.
  intros Hin Hrev. unfold findRevisionForKey.
  by rewrite (Revisions_findOne_In _ _ _ Hin), Hrev.
Qed.

End auxiliary_store.

Section auxiliary_media.
Import Media Spec.

(** The closed form of [removeEntityMedia]. *)
Lemma removeEntityMedia_closed_form entity_media media body_media :
  removeEntityMedia entity_media media body_media
  = (IdStr <$> filter (λ s, Js.Str s ∉ body_media) (media_ids entity_media),
     mkRevisionMedia
       (Some (filter (λ element, Js.Str (MediaId_template (id element)) ∉ body_media)
                (default [] (mediaElements media))))
       (persons media)).
Proof.
  unfold removeEntityMedia. f_equal.
  - rewrite (fold_left_push_filter
               (λ element, negb (includes body_media (MediaId_template element)))
               (λ element, IdStr (MediaId_template element))).
    simpl. unfold media_ids.
    induction entity_media as [|x l IH]; [done|].
    rewrite fmap_cons, !filter_cons. cbv beta.
    pose proof (not_includes_iff body_media (MediaId_template x)) as Hiff.
    repeat case_decide; rewrite ?fmap_cons, ?IH; try done; tauto.
  - f_equal. f_equal. destruct (mediaElements media) as [mes|]; [|done]. simpl.
    rewrite (fold_left_push_filter
               (λ element, negb (includes body_media (MediaId_template (id element))))
               (λ element, element)).
    simpl. rewrite list_fmap_id. apply list_filter_iff. intros x.
    apply not_includes_iff.
Qed.

End auxiliary_media.

(** ** Searching and growing the taxa tree *)

Section tree_search.
Import Taxon Spec Examples.

(** Property X1. In a finite tree whose nodes have distinct
    ids, [findTaxonById(arr, id)] returns the node of that id, wherever it
    lies in the tree, and [undefined] when no node has it; the store is
    left as it is. *)
Theorem findTaxonById_finds (fuel : nat) (h : heap) (arr ns : list loc) (i : string) :
  tree_nodes fuel h arr = Some ns →
  NoDup (node_id h <$> ns) →
  (∀ y, y ∈ ns → node_id h y = Some i →
     findTaxonById fuel h (Some arr) i false = Return (h, Some y)) ∧
  ((∀ y, y ∈ ns → node_id h y ≠ Some i) →
     findTaxonById fuel h (Some arr) i false = Return (h, None)).
Proof. apply findTaxonById_result. Qed.

Lemma findTaxonById_finds_witness :
  findTaxonById 3 birds (Some birds_taxa) "3" false = Return (birds, Some 2%nat) ∧
  findTaxonById 3 birds (Some birds_taxa) "9" false = Return (birds, None).
Proof.
  destruct (findTaxonById_finds 3 birds birds_taxa [0; 1; 2; 3; 4]%nat "3") as [H1 _];
    [reflexivity | apply birds_ids_unique |].
  destruct (findTaxonById_finds 3 birds birds_taxa [0; 1; 2; 3; 4]%nat "9") as [_ H2];
    [reflexivity | apply birds_ids_unique |].
  split.
  - apply H1; [set_solver | reflexivity].
  - apply H2. intros y Hy. each_node Hy; discriminate.
Defined.

(** What [findTaxonById(arr, id, true)] writes. *)
Lemma include_cases f (h : heap) arr ns i :
  tree_nodes (S f) h arr = Some ns →
  NoDup (node_id h <$> ns) →
  ∃ h1 r, findTaxonById (S f) h (Some arr) i true = Return (h1, r) ∧
    ((r = None ∧ h1 = h ∧ ∀ y, y ∈ ns → node_id h y ≠ Some i) ∨
     (∃ y, r = Some y ∧ y ∈ arr ∧ y ∈ ns ∧ node_id h y = Some i ∧ h1 = h) ∨
     (∃ y e element cs sub,
        r = Some y ∧ e ∈ arr ∧ h !! e = Some element ∧ children element = Some cs ∧
        tree_nodes f h cs = Some sub ∧ y ∈ sub ∧ y ∈ ns ∧ node_id h y = Some i ∧
        h1 = alter (set_parentId (Some (id element))) y h)).
Proof.
  simpl. set (body_t := λ '(h, taxon) (e : loc), _).
  assert (Hnm : ∀ rest ns_r (hc : heap) t,
    tree_nodes (S f) h rest = Some ns_r → same_links h hc →
    (∀ y, y ∈ ns_r → node_id h y ≠ Some i) →
    forEach body_t (hc, t) rest = Return (hc, t)).
  { induction rest as [|e rest IH]; intros ns_r hc t Hns Hl Hno; [done|].
    apply tree_nodes_cons_inv in Hns as (element & below & others & He & Hb & Ho & ->).
    rewrite forEach_cons.
    destruct (same_links_lookup _ _ _ _ Hl He) as (element' & He' & Hid & Hc).
    assert (Hstep : body_t (hc, t) e = Return (hc, t)).
    { unfold body_t. rewrite He'. simpl. rewrite Hid, Hc.
      rewrite decide_False.
      2:{ intros Hi. apply (Hno e); [by left|]. unfold node_id. by rewrite He, <- Hi. }
      destruct (children element) as [cs|]; [|done].
      rewrite findTaxonById_search, <- (search_same_links f h hc) by done.
      rewrite (search_by_id_absent f h cs below i Hb); [done|].
      intros y Hy. apply Hno. right. apply elem_of_app. by left. }
    rewrite Hstep. simpl. apply (IH others); [done|done|].
    intros y Hy. apply Hno. right. apply elem_of_app. by right. }
  revert ns. induction arr as [|e rest IH]; intros ns Hns Hnd.
  { exists h, None. split; [done|]. left. split_and!; try done.
    rewrite tree_nodes_nil in Hns. simplify_eq. intros y Hy. by apply elem_of_nil in Hy. }
  apply tree_nodes_cons_inv in Hns as (element & below & others & He & Hb & Ho & ->).
  change (e :: below ++ others) with ((e :: below) ++ others) in Hnd.
  assert (Hnd_o : NoDup (node_id h <$> others)).
  { rewrite fmap_app in Hnd. by apply NoDup_app in Hnd as (_ & _ & ?). }
  assert (Hothers : ∀ x, x ∈ e :: below → node_id h x = Some i →
            ∀ y, y ∈ others → node_id h y ≠ Some i).
  { intros x Hx Hxi y Hy. rewrite <- Hxi.
    by apply (NoDup_app_fmap_absent (node_id h) (e :: below) others). }
  rewrite forEach_cons. unfold body_t at 2. rewrite He. simpl.
  case_decide as Hi.
  - simpl. rewrite (Hnm rest others h (Some e)); [|done|apply same_links_refl|].
    2:{ apply (Hothers e); [by left|]. unfold node_id. rewrite He. simpl. congruence. }
    exists h, (Some e). split; [done|]. right; left. exists e. split_and!; try done.
    + by left.
    + by left.
    + unfold node_id. rewrite He. simpl. congruence.
  - assert (Hcontinue :
      (∀ y, y ∈ below → node_id h y ≠ Some i) →
      ∃ h1 r, forEach body_t (h, None) rest = Return (h1, r) ∧
        ((r = None ∧ h1 = h ∧ ∀ y, y ∈ (e :: below) ++ others → node_id h y ≠ Some i) ∨
         (∃ y, r = Some y ∧ y ∈ e :: rest ∧ y ∈ (e :: below) ++ others ∧
               node_id h y = Some i ∧ h1 = h) ∨
         (∃ y e0 element0 cs sub,
            r = Some y ∧ e0 ∈ e :: rest ∧ h !! e0 = Some element0 ∧
            children element0 = Some cs ∧ tree_nodes f h cs = Some sub ∧ y ∈ sub ∧
            y ∈ (e :: below) ++ others ∧ node_id h y = Some i ∧
            h1 = alter (set_parentId (Some (id element0))) y h))).
    { intros Hbelow. destruct (IH others Ho Hnd_o) as (h1 & r & Hrun & Hcases).
      exists h1, r. split; [done|].
      destruct Hcases as [(-> & -> & Hno)|[(y & -> & Hy & Hyn & Hyi & ->)|
        (y & e0 & element0 & cs & sub & -> & He0 & Hel0 & Hcs & Hsub & Hy & Hyn & Hyi & ->)]].
      - left. split_and!; try done. intros y [Hy|Hy]%elem_of_app; [|by apply Hno].
        apply elem_of_cons in Hy as [->|Hy]; [|by apply Hbelow].
        unfold node_id. rewrite He. simpl. congruence.
      - right; left. exists y. split_and!; try done; set_solver.
      - right; right. exists y, e0, element0, cs, sub. split_and!; try done; set_solver. }
    destruct (children element) as [cs|] eqn:Hcs.
    2:{ simpl. simplify_eq. apply Hcontinue. intros y Hy. by apply elem_of_nil in Hy. }
    rewrite findTaxonById_search.
    destruct (search_spec f h (λ o, bool_decide (id o = i)) cs below Hb) as (r' & Hs & Hr).
    rewrite Hs. simpl. destruct r' as [z|]; simpl in Hr.
    + destruct Hr as (Hz & o & Hzo & Hp). apply bool_decide_eq_true in Hp.
      assert (Hzi : node_id h z = Some i) by (unfold node_id; by rewrite Hzo, <- Hp).
      simpl. rewrite (Hnm rest others _ (Some z)); [|done| |].
      * eexists _, (Some z). split; [done|]. right; right.
        exists z, e, element, cs, below. split_and!; try done; set_solver.
      * apply same_links_alter. intros o'. by destruct o'.
      * apply (Hothers z); [by right|done].
    + simpl. apply Hcontinue. intros y Hy. unfold node_id.
      destruct (h !! y) as [o|] eqn:Hyo; [|done]. simpl.
      specialize (Hr y o Hy Hyo). apply bool_decide_eq_false in Hr. congruence.
Qed.

(** Property X2. With [include] set, [findTaxonById] finds
    the same node as without; a node found at the top level of [arr] is
    left alone, and a node found below the top-level element [e] gets
    [parentId = e.id], the id of its top-level ancestor, which is its
    parent only when it is a child of [e]. Nothing else is written. *)
Theorem findTaxonById_include (fuel : nat) (h : heap) (arr ns : list loc) (i : string) :
  tree_nodes fuel h arr = Some ns →
  NoDup (node_id h <$> ns) →
  ∃ h1 r,
    findTaxonById fuel h (Some arr) i true = Return (h1, r) ∧
    findTaxonById fuel h (Some arr) i false = Return (h, r) ∧
    match r with
    | None => h1 = h
    | Some y =>
        (y ∈ arr ∧ h1 = h) ∨
        ∃ e element cs sub,
          e ∈ arr ∧ h !! e = Some element ∧ children element = Some cs ∧
          tree_nodes (pred fuel) h cs = Some sub ∧ y ∈ sub ∧
          h1 = alter (set_parentId (Some (id element))) y h
    end.
Proof.
  intros Hns Hnd. destruct fuel as [|f]; [done|].
  destruct (include_cases f h arr ns i Hns Hnd) as (h1 & r & Hrun & Hcases).
  destruct (search_by_id_unique (S f) h arr ns i Hns Hnd) as [Hfound Habsent].
  exists h1, r. split; [done|]. rewrite findTaxonById_search.
  destruct Hcases as [(-> & -> & Hno)|[(y & -> & Hy & Hyn & Hyi & ->)|
    (y & e0 & element0 & cs & sub & -> & He0 & Hel0 & Hcs & Hsub & Hy & Hyn & Hyi & ->)]].
  - by rewrite (Habsent Hno).
  - rewrite (Hfound y Hyn Hyi). split; [done|]. by left.
  - rewrite (Hfound y Hyn Hyi). split; [done|]. right.
    exists e0, element0, cs, sub. done.
Qed.

Lemma findTaxonById_include_witness :
  ∃ h1, findTaxonById 3 birds (Some birds_taxa) "3" true = Return (h1, Some 2%nat) ∧
        parentId <$> h1 !! 2%nat = Some (Some "1").
Proof.
  destruct (findTaxonById_include 3 birds birds_taxa [0; 1; 2; 3; 4]%nat "3")
    as (h1 & r & Hrun & _ & _); [reflexivity | apply birds_ids_unique |].
  exists h1. vm_compute in Hrun. simplify_eq. split; reflexivity.
Defined.

(** Property X3. [addToParent] makes the taxon the last child
    of the node whose id is the decimal form of [parentId], creating the
    [children] array if there is none, and changes nothing else; when no
    node has that id it changes nothing at all. *)
Theorem addToParent_appends (fuel : nat) (h : heap) (arr ns : list loc) (taxon : loc)
    (parentId : Z) :
  tree_nodes fuel h arr = Some ns →
  NoDup (node_id h <$> ns) →
  (∀ p o, p ∈ ns → h !! p = Some o → id o = Js.template parentId →
     addToParent fuel h (Some arr) taxon parentId
     = Return (<[p := set_children (Some (default [] (children o) ++ [taxon])) o]> h)) ∧
  ((∀ y, y ∈ ns → node_id h y ≠ Some (Js.template parentId)) →
     addToParent fuel h (Some arr) taxon parentId = Return h).
Proof. apply addToParent_result. Qed.

Lemma addToParent_appends_witness :
  addToParent 3 birds (Some birds_taxa) 9%nat 4
  = Return (<[3%nat := inner "4" "Strigiformes" [9%nat]]> birds).
Proof.
  destruct (addToParent_appends 3 birds birds_taxa [0; 1; 2; 3; 4]%nat 9%nat 4)
    as [Hadd _]; [reflexivity | apply birds_ids_unique |].
  apply (Hadd 3%nat (leaf "4" "Strigiformes")).
  - by apply (list_elem_of_lookup_2 _ 3%nat).
  - reflexivity.
  - reflexivity.
Defined.

(** Property X4. Moving a top-level taxon (one
    without [parentId]) under the parent [p]: the taxon leaves the
    top-level array, and becomes the last child of the node of id [p]
    found in what remains of the tree. When that node is the taxon itself
    or lies below it, or does not exist, nothing is added: the taxon and
    its subtree are no longer part of the tree. *)
Theorem updateParentTaxon_from_root (fuel : nat) (h : heap) (l1 l2 : list loc) (t : loc)
    (ns : list loc) (tmp : Taxon.t) (taxonId p : Z) :
  tree_nodes fuel h (l1 ++ t :: l2) = Some ns →
  NoDup (node_id h <$> ns) →
  h !! t = Some tmp → Js.truthy (parentId tmp) = false →
  id tmp = Js.template taxonId → p ≠ 0 →
  ∃ ns', tree_nodes fuel h (l1 ++ l2) = Some ns' ∧ ns' ⊆ ns ∧ (t ∉ ns') ∧
    (∀ q o, q ∈ ns' → h !! q = Some o → id o = Js.template p →
       updateParentTaxon fuel h t p (l1 ++ t :: l2) taxonId
       = Return (<[q := set_children (Some (default [] (children o) ++ [t])) o]> h,
                 l1 ++ l2)) ∧
    (∀ q, q ∈ ns → q ∉ ns' → node_id h q = Some (Js.template p) →
       updateParentTaxon fuel h t p (l1 ++ t :: l2) taxonId = Return (h, l1 ++ l2)) ∧
    ((∀ y, y ∈ ns' → node_id h y ≠ Some (Js.template p)) →
       updateParentTaxon fuel h t p (l1 ++ t :: l2) taxonId = Return (h, l1 ++ l2)).
Proof.
  intros Hns Hnd Htmp Hfalsy Hid Hp.
  destruct fuel as [|f]; [done|]. rewrite tree_nodes_app in Hns.
  destruct (tree_nodes (S f) h l1) as [n1|] eqn:H1; simpl in Hns; [|done].
  destruct (tree_nodes (S f) h (t :: l2)) as [nt|] eqn:Ht; simpl in Hns; [|done].
  simplify_eq.
  apply tree_nodes_cons_inv in Ht as (el & below & n2 & Hel & Hb & H2 & ->).
  assert (Hns' : tree_nodes (S f) h (l1 ++ l2) = Some (n1 ++ n2)).
  { by rewrite tree_nodes_app, H1, H2. }
  assert (Hsub : n1 ++ n2 `sublist_of` n1 ++ t :: below ++ n2).
  { apply sublist_app; [reflexivity|]. apply sublist_cons. by apply sublist_inserts_l. }
  assert (Hndn : NoDup (n1 ++ t :: below ++ n2)) by (by eapply NoDup_fmap_1).
  assert (Ht' : t ∉ n1 ++ n2).
  { apply NoDup_app in Hndn as (_ & Hdisj & Hnd2). apply NoDup_cons in Hnd2 as [Hnot _].
    intros [Hin|Hin]%elem_of_app.
    - apply (Hdisj t Hin). by left.
    - apply Hnot. apply elem_of_app. by right. }
  assert (Hnd' : NoDup (node_id h <$> n1 ++ n2)).
  { apply (sublist_NoDup _ (node_id h <$> n1 ++ t :: below ++ n2)); [done|].
    by apply sublist_fmap. }
  assert (Hcall : updateParentTaxon (S f) h t p (l1 ++ t :: l2) taxonId
                  = h' ← addToParent (S f) h (Some (l1 ++ l2)) t p; Return (h', l1 ++ l2)).
  { unfold updateParentTaxon. rewrite Htmp. simpl. rewrite Hfalsy.
    rewrite decide_True by done.
    rewrite (findIndex_middle _ l1 l2 t).
    - simpl. by rewrite delete_middle.
    - intros y Hy. unfold has_id.
      destruct (h !! y) as [o|] eqn:Ho; [|done]. apply bool_decide_eq_false.
      intros Hyid. apply Ht'. apply elem_of_app. left.
      assert (Hyn : y ∈ n1) by (by eapply tree_nodes_root).
      assert (y = t) as <-; [|done].
      apply (NoDup_fmap_eq (node_id h) (n1 ++ t :: below ++ n2)); try done.
      + apply elem_of_app. by left.
      + apply elem_of_app. right. by left.
      + unfold node_id. rewrite Ho, Htmp. simpl. congruence.
    - unfold has_id. rewrite Htmp. by apply bool_decide_eq_true. }
  destruct (addToParent_result (S f) h (l1 ++ l2) (n1 ++ n2) t p Hns' Hnd') as [Hadd Hlost].
  assert (Hthird : (∀ y, y ∈ n1 ++ n2 → node_id h y ≠ Some (Js.template p)) →
    updateParentTaxon (S f) h t p (l1 ++ t :: l2) taxonId = Return (h, l1 ++ l2)).
  { intros Hno. by rewrite Hcall, (Hlost Hno). }
  exists (n1 ++ n2). split_and!; try done.
  - by apply sublist_subseteq.
  - intros q o Hq Ho Hqid. by rewrite Hcall, (Hadd q o Hq Ho Hqid).
  - intros q Hq Hq' Hqid. apply Hthird. intros y Hy Hyid.
    assert (y = q) as ->; [|done].
    apply (NoDup_fmap_eq (node_id h) (n1 ++ t :: below ++ n2)); try done.
    + by apply (sublist_subseteq _ _ Hsub).
    + congruence.
Qed.

Lemma updateParentTaxon_from_root_witness :
  updateParentTaxon 3 birds 4%nat 5 birds_taxa 5 = Return (birds, [0%nat]).
Proof.
  destruct (updateParentTaxon_from_root 3 birds [0%nat] [] 4%nat [0; 1; 2; 3; 4]%nat
              (leaf "5" "Mammalia") 5 5) as (ns' & Hns' & _ & _ & _ & Hself & _);
    [reflexivity | apply birds_ids_unique | reflexivity | reflexivity | reflexivity
    | discriminate |].
  vm_compute in Hns'. simplify_eq.
  apply (Hself 4%nat).
  - by apply (list_elem_of_lookup_2 _ 4%nat).
  - intros Hin. repeat (apply elem_of_cons in Hin as [Hin'|Hin]; [discriminate|]).
    by apply elem_of_nil in Hin.
  - reflexivity.
Defined.

End tree_search.

Section move_child.
Import Taxon Spec Examples.

Lemma tree_nodes_sublist fuel (h h2 : heap) :
  (∀ l o, h !! l = Some o →
     ∃ o2, h2 !! l = Some o2 ∧
           ∀ cs2, children o2 = Some cs2 →
                  ∃ cs, children o = Some cs ∧ cs2 `sublist_of` cs) →
  ∀ arr arr2 ns,
    arr2 `sublist_of` arr → tree_nodes fuel h arr = Some ns →
    ∃ ns2, tree_nodes fuel h2 arr2 = Some ns2 ∧ ns2 `sublist_of` ns.
Proof.
  intros Hstore. induction fuel as [|f IHf]; intros arr arr2 ns Hsub Hns; [done|].
  revert ns Hns. induction Hsub as [|x l1 l2 Hsub IH|x l1 l2 Hsub IH]; intros ns Hns.
  - rewrite tree_nodes_nil in Hns. simplify_eq. exists []. by rewrite tree_nodes_nil.
  - apply tree_nodes_cons_inv in Hns as (element & below & others & He & Hb & Ho & ->).
    destruct (Hstore x element He) as (o2 & He2 & Hc2).
    destruct (IH others Ho) as (others2 & Ho2 & Hsub_o).
    assert (Hbelow2 : ∃ below2,
      match children o2 with Some cs2 => tree_nodes f h2 cs2 | None => Some [] end
      = Some below2 ∧ below2 `sublist_of` below).
    { destruct (children o2) as [cs2|] eqn:Hcs2.
      - destruct (Hc2 cs2 eq_refl) as (cs & Hcs & Hsub_c). rewrite Hcs in Hb.
        by apply (IHf cs cs2 below).
      - exists []. split; [done|]. apply sublist_nil_l. }
    destruct Hbelow2 as (below2 & Hb2 & Hsub_b).
    exists (x :: below2 ++ others2). split.
    + rewrite tree_nodes_cons, He2. simpl. rewrite Hb2. simpl. by rewrite Ho2.
    + apply sublist_skip. by apply sublist_app.
  - apply tree_nodes_cons_inv in Hns as (element & below & others & He & Hb & Ho & ->).
    destruct (IH others Ho) as (ns2 & Hns2 & Hsub2).
    exists ns2. split; [done|]. apply sublist_cons. by apply sublist_inserts_l.
Qed.

Lemma tree_nodes_roots fuel (h : heap) arr ns :
  tree_nodes fuel h arr = Some ns → arr `sublist_of` ns.
Proof.
  destruct fuel as [|f]; [done|]. revert ns.
  induction arr as [|x rest IH]; intros ns Hns.
  { apply sublist_nil_l. }
  apply tree_nodes_cons_inv in Hns as (element & below & others & He & Hb & Ho & ->).
  apply sublist_skip, sublist_inserts_l. by apply IH.
Qed.

Lemma tree_nodes_children fuel (h : heap) arr ns e element cs :
  tree_nodes (S fuel) h arr = Some ns → e ∈ arr → h !! e = Some element →
  children element = Some cs →
  ∃ below, tree_nodes fuel h cs = Some below ∧ below `sublist_of` ns.
Proof.
  revert ns. induction arr as [|x rest IH]; intros ns Hns Hin He Hcs.
  { by apply elem_of_nil in Hin. }
  apply tree_nodes_cons_inv in Hns as (element' & below & others & He' & Hb & Ho & ->).
  apply elem_of_cons in Hin as [->|Hin].
  - rewrite He in He'. simplify_eq. rewrite Hcs in Hb. exists below. split; [done|].
    apply sublist_cons. by apply sublist_inserts_r.
  - destruct (IH others Ho Hin He Hcs) as (below' & Hb' & Hsub).
    exists below'. split; [done|]. apply sublist_cons. by apply sublist_inserts_l.
Qed.

(** Property X5. Moving a child of a top-level
    taxon, annotated with the id of that parent: the taxon leaves the
    children of its parent, whatever its position among them. Moved to
    the root (parent 0) it is appended to the top-level array; moved
    under the parent [p] it becomes the last child of the node of id [p]
    found in what remains of the tree, and is lost from the tree when
    there is no such node there. *)
Theorem updateParentTaxon_from_child (fuel : nat) (h : heap) (taxa ns : list loc)
    (e t : loc) (element tmp : Taxon.t) (c1 c2 : list loc) (taxonId p : Z) :
  tree_nodes fuel h taxa = Some ns →
  NoDup (node_id h <$> ns) →
  e ∈ taxa → h !! e = Some element → children element = Some (c1 ++ t :: c2) →
  h !! t = Some tmp → parentId tmp = Some (id element) → id element ≠ "" →
  id tmp = Js.template taxonId →
  let h2 := alter (set_children (Some (c1 ++ c2))) e h in
  (p = 0 → updateParentTaxon fuel h t p taxa taxonId = Return (h2, taxa ++ [t])) ∧
  (p ≠ 0 →
   ∃ ns2, tree_nodes fuel h2 taxa = Some ns2 ∧ ns2 `sublist_of` ns ∧
     (∀ q o, q ∈ ns2 → h2 !! q = Some o → id o = Js.template p →
        updateParentTaxon fuel h t p taxa taxonId
        = Return (<[q := set_children (Some (default [] (children o) ++ [t])) o]> h2, taxa)) ∧
     ((∀ y, y ∈ ns2 → node_id h2 y ≠ Some (Js.template p)) →
        updateParentTaxon fuel h t p taxa taxonId = Return (h2, taxa))).
Proof.
  intros Hns Hnd He Hel Hcs Htmp Hparent Hne Hid h2.
  destruct fuel as [|f]; [done|].
  assert (Hen : e ∈ ns) by (by eapply tree_nodes_root).
  destruct (tree_nodes_children f h taxa ns e element _ Hns He Hel Hcs)
    as (below & Hbelow & Hsub).
  assert (Hroots : c1 ++ t :: c2 `sublist_of` ns).
  { etransitivity; [|exact Hsub]. by eapply tree_nodes_roots. }
  assert (Hcs_ns : ∀ y, y ∈ c1 ++ t :: c2 → y ∈ ns).
  { intros y Hy. by apply (sublist_subseteq _ _ Hroots). }
  assert (Hfind : findTaxonById (S f) h (Some taxa) (id element) false = Return (h, Some e)).
  { destruct (findTaxonById_result (S f) h taxa ns (id element) Hns Hnd) as [Hfound _].
    apply Hfound; [done|]. unfold node_id. by rewrite Hel. }
  assert (Hindex : Js.findIndex (has_id h (Js.template taxonId)) (c1 ++ t :: c2)
                   = Some (length c1)).
  { apply findIndex_middle.
    - intros y Hy. unfold has_id. destruct (h !! y) as [o|] eqn:Ho; [|done].
      apply bool_decide_eq_false. intros Hyid.
      assert (y = t) as ->.
      { apply (NoDup_fmap_eq (node_id h) ns); try done.
        - apply Hcs_ns. apply elem_of_app. by left.
        - apply Hcs_ns. apply elem_of_app. right. by left.
        - unfold node_id. rewrite Ho, Htmp. simpl. congruence. }
      assert (Hdup : NoDup (c1 ++ t :: c2)).
      { eapply sublist_NoDup; [|exact Hroots]. by eapply NoDup_fmap_1. }
      apply NoDup_app in Hdup as (_ & Hdisj & _). apply (Hdisj t Hy). by left.
    - unfold has_id. rewrite Htmp. by apply bool_decide_eq_true. }
  assert (Hcall : updateParentTaxon (S f) h t p taxa taxonId
    = if decide (p = 0) then Return (h2, taxa ++ [t])
      else h3 ← addToParent (S f) h2 (Some taxa) t p; Return (h3, taxa)).
  { unfold updateParentTaxon. rewrite Htmp. cbn -[findTaxonById addToParent Js.findIndex Js.truthy].
    rewrite Hparent, (proj2 (truthy_Some_ne (id element)) Hne).
    cbn -[findTaxonById addToParent Js.findIndex Js.truthy]. rewrite Hfind.
    cbn -[findTaxonById addToParent Js.findIndex Js.truthy]. rewrite Hel.
    cbn -[findTaxonById addToParent Js.findIndex Js.truthy]. rewrite Hcs, Hindex.
    cbn -[findTaxonById addToParent Js.findIndex Js.truthy]. by rewrite delete_middle. }
  split.
  - intros ->. by rewrite Hcall.
  - intros Hp.
    destruct (tree_nodes_sublist (S f) h h2) with (arr := taxa) (arr2 := taxa) (ns := ns)
      as (ns2 & Hns2 & Hsub2); try done.
    { intros l o Hl. destruct (decide (l = e)) as [->|Hle].
      - subst h2. rewrite list_lookup_alter_eq, Hl. simpl. eexists. split; [done|].
        simpl. intros cs2 [= <-]. rewrite Hl in Hel. simplify_eq. exists (c1 ++ t :: c2).
        split; [done|]. apply sublist_app; [done|]. by apply sublist_cons.
      - subst h2. rewrite list_lookup_alter_ne by done. exists o. split; [done|].
        intros cs2 Hcs2. exists cs2. done. }
    assert (Hids : node_id h2 <$> ns2 = node_id h <$> ns2).
    { apply list_fmap_ext. intros i y _. unfold node_id. subst h2.
      destruct (decide (y = e)) as [->|Hye].
      - rewrite list_lookup_alter_eq. by destruct (h !! e).
      - by rewrite list_lookup_alter_ne. }
    assert (Hnd2 : NoDup (node_id h2 <$> ns2)).
    { rewrite Hids. eapply sublist_NoDup; [exact Hnd|]. by apply sublist_fmap. }
    destruct (addToParent_result (S f) h2 taxa ns2 t p Hns2 Hnd2) as [Hadd Hlost].
    exists ns2. split_and!; try done.
    + intros q o Hq Ho Hqid. rewrite Hcall, decide_False by done.
      by rewrite (Hadd q o Hq Ho Hqid).
    + intros Hno. rewrite Hcall, decide_False by done. by rewrite (Hlost Hno).
Qed.

Lemma updateParentTaxon_from_child_witness :
  updateParentTaxon 3 (alter (set_parentId (Some "1")) 3%nat birds) 3%nat 0 birds_taxa 4
  = Return (alter (set_children (Some [1%nat])) 0%nat
              (alter (set_parentId (Some "1")) 3%nat birds),
            [0; 4; 3]%nat).
Proof.
  destruct (updateParentTaxon_from_child 3 (alter (set_parentId (Some "1")) 3%nat birds)
              birds_taxa [0; 1; 2; 3; 4]%nat 0%nat 3%nat (inner "1" "Aves" [1%nat; 3%nat])
              (set_parentId (Some "1") (leaf "4" "Strigiformes")) [1%nat] [] 4 0)
    as [Hroot _];
    [reflexivity | apply (bool_decide_unpack _); vm_compute; exact I | left | reflexivity
    | reflexivity | reflexivity | reflexivity | discriminate | reflexivity |].
  by apply Hroot.
Defined.

End move_child.

(** ** Creating a taxon, and what the taxa routes leave alone *)

Section taxa_routes.
Import Taxon Revision Routes Spec Invariant Examples.
Context {tables : Js.Unicode}.

(** Property X6. A request to create a taxon under a name that
    no node of the tree bears, in any letter case, is answered 200 with
    the ids of the new revision and of the new taxon row. The new revision
    holds the document of the source revision with one more taxon object:
    appended to the top-level array when the request names no parent (or
    the number 0 as parent), appended to the children of the node whose id
    is the requested parent, a number other than 0, otherwise. *)
Theorem post_taxon_created (fuel : nat) (DEFAULT_KEY_MODE : option Z) (db : Db)
    (body : Taxon.Body) (user uuid : string) (revision : Revision.t) (key : Key)
    (ns : list loc) :
  let h := objects (content revision) in
  let content_taxa := default [] (taxa (content revision)) in
  let taxonId := Js.template (Z.of_nat (length (Taxon_table db)) + 1) in
  let newTaxon :=
    mkTaxon taxonId (body_scientificName body) (setTaxonInfo body).1 (setTaxonInfo body).2
      None None None in
  let stored content' :=
    ∃ db' st,
      post_taxon fuel DEFAULT_KEY_MODE db body user uuid
        = Some (db', json 200 (Created uuid taxonId)) ∧
      Revision_table db' !! uuid
        = Some (mkRevision uuid content' (media revision)
                  (Some ("Created new taxon: " +:+ body_scientificName body)) user st
                  (mode_or_default (mode revision) DEFAULT_KEY_MODE)) ∧
      Taxon_table db'
        = Taxon_table db ++ [(Z.of_nat (length (Taxon_table db)) + 1, Taxon.keyId body)] in
  findRevisionForKey db (Taxon.revisionId body) (Taxon.keyId body)
    = Return (revision, Some key) →
  tree_nodes fuel h content_taxa = Some ns →
  (∀ y o, y ∈ ns → h !! y = Some o →
     Js.toUpperCase (scientificName o) ≠ Js.toUpperCase (body_scientificName body)) →
  NoDup (node_id h <$> ns) →
  (body_parentId body = None ∨ body_parentId body = Some 0 →
     stored (mkContent (h ++ [newTaxon]) (Some (content_taxa ++ [length h]))
               (characters (content revision)) (statements (content revision)))) ∧
  (∀ p q o, body_parentId body = Some p → p ≠ 0 →
     q ∈ ns → h !! q = Some o → Taxon.id o = Js.template p →
     stored (mkContent
               (<[q := set_children (Some (default [] (children o) ++ [length h])) o]>
                  (h ++ [newTaxon]))
               (Some content_taxa)
               (characters (content revision)) (statements (content revision)))).
Proof.
  intros h content_taxa taxonId newTaxon stored Hfind Hns Hnames Hnd.
  assert (Hstart :
    post_taxon fuel DEFAULT_KEY_MODE db body user uuid
    = try_catch db (
        '(h', content_taxa') ←
          match body_parentId body with
          | Some parentId =>
              if decide (parentId ≠ 0) then
                h' ← addToParent fuel (h ++ [newTaxon]) (Some content_taxa) (length h) parentId;
                Return (h', content_taxa)
              else Return (h ++ [newTaxon], content_taxa ++ [length h])
          | None => Return (h ++ [newTaxon], content_taxa ++ [length h])
          end;
        let content' :=
          mkContent h' (Some content_taxa') (characters (content revision))
            (statements (content revision)) in
        let '(db', _, revisionId) :=
          createRevision DEFAULT_KEY_MODE (Taxon_create db (Taxon.keyId body)).1 key content'
            (media revision) user
            (Some ("Created new taxon: " +:+ body_scientificName body))
            (mode revision) uuid in
        Return (db', json 200 (Created revisionId taxonId)))).
  { unfold post_taxon. rewrite Hfind. simpl. fold h. fold content_taxa.
    unfold findTaxonByName. rewrite findTaxonByName_loop_search.
    destruct (search_spec fuel h
                (λ o, bool_decide (Js.toUpperCase (scientificName o)
                                   = Js.toUpperCase (body_scientificName body)))
                content_taxa ns Hns) as (r & -> & Hr). simpl.
    destruct r as [y|].
    { destruct Hr as (Hy & o & Ho & Hp). apply bool_decide_eq_true in Hp.
      by destruct (Hnames y o Hy Ho). }
    simpl. reflexivity. }
  assert (Hstored : ∀ h' content_taxa',
    post_taxon fuel DEFAULT_KEY_MODE db body user uuid
    = Some (let '(db', _, revisionId) :=
              createRevision DEFAULT_KEY_MODE (Taxon_create db (Taxon.keyId body)).1 key
                (mkContent h' (Some content_taxa') (characters (content revision))
                   (statements (content revision)))
                (media revision) user
                (Some ("Created new taxon: " +:+ body_scientificName body))
                (mode revision) uuid in
            (db', json 200 (Created revisionId taxonId))) →
    stored (mkContent h' (Some content_taxa') (characters (content revision))
              (statements (content revision)))).
  { intros h' content_taxa' Hrun.
    destruct (createRevision _ _ _ _ _ _ _ _ _) as [[db' key'] revisionId] eqn:Hcreate.
    apply createRevision_result in Hcreate as (-> & Htable & st & Hrev).
    exists db', st. done. }
  assert (Hns' : tree_nodes fuel (h ++ [newTaxon]) content_taxa = Some ns).
  { apply (tree_nodes_preserved fuel h); [|done].
    intros l o Hl. exists o. split; [|done]. by apply lookup_app_l_Some. }
  assert (Hnd' : NoDup (node_id (h ++ [newTaxon]) <$> ns)).
  { replace (node_id (h ++ [newTaxon]) <$> ns) with (node_id h <$> ns); [done|].
    apply list_fmap_ext. intros i y Hy. apply list_elem_of_lookup_2 in Hy.
    destruct (tree_nodes_lookup _ _ _ _ _ Hns Hy) as [o Ho].
    unfold node_id. by rewrite (lookup_app_l_Some _ [newTaxon] _ _ Ho), Ho. }
  split.
  - intros Hroot. apply Hstored. rewrite Hstart.
    destruct Hroot as [-> | ->]; simpl;
      by destruct (createRevision _ _ _ _ _ _ _ _ _) as [[? ?] ?].
  - intros p q o Hp Hne Hq Ho Hid. apply Hstored. rewrite Hstart, Hp.
    rewrite decide_True by done.
    destruct (addToParent_result fuel (h ++ [newTaxon]) content_taxa ns (length h) p
                Hns' Hnd') as [Hadd _].
    rewrite (Hadd q o Hq); [|by apply lookup_app_l_Some|done].
    simpl. by destruct (createRevision _ _ _ _ _ _ _ _ _) as [[? ?] ?].
Qed.

Ltac rejected :=
  simplify_eq; left; split; [done|]; eexists; split; [done|discriminate].

Ltac accepted H :=
  match type of H with
  | context [createRevision ?e ?d ?k ?c ?m ?u ?n ?md ?uu] =>
      let Hcr := fresh "Hcr" in
      destruct (createRevision e d k c m u n md uu) as [[? ?] ?] eqn:Hcr;
      simpl in H; simplify_eq; right; exists k, c, m, n, md;
      pose proof (createRevision_result _ _ _ _ _ _ _ _ _ _ _ _ Hcr) as (-> & _);
      split_and!; [|done|done];
      apply (f_equal (λ x, x.1.1)) in Hcr; symmetry; exact Hcr
  end.

Lemma post_taxon_inv fuel env db (body : Body) user uuid db' resp :
  post_taxon fuel env db body user uuid = Some (db', resp) →
  (db' = db ∧ ∃ code, resp = sendStatus code ∧ code ≠ 200) ∨
  ∃ key c m n md,
    db' = (createRevision env (Taxon_create db (Taxon.keyId body)).1 key c m user n md uuid).1.1 ∧
    Key_table db !! Taxon.keyId body = Some key ∧
    resp = json 200 (Created uuid (Js.template (Z.of_nat (length (Taxon_table db)) + 1))).
Proof.
  unfold post_taxon, try_catch. intros H.
  destruct (findRevisionForKey db (Taxon.revisionId body) (Taxon.keyId body))
    as [[revision key]| |] eqn:Hfind; simpl in H; [|rejected|done].
  apply findRevisionForKey_Return in Hfind as (Hlinked & Hrev & ->).
  destruct (Key_table db !! Taxon.keyId body) as [key|] eqn:Hkey; simpl in H;
    [|rejected].
  destruct (findTaxonByName _ _ _ _ _) as [[y|]| |]; simpl in H;
    [rejected| |rejected|done].
  destruct (body_parentId body) as [parentId|]; simpl in H.
  - destruct (decide (parentId ≠ 0)); simpl in H.
    + destruct (addToParent _ _ _ _ _); simpl in H;
        [|rejected|done].
      accepted H.
    + accepted H.
  - accepted H.
Qed.

Lemma put_taxon_inv fuel env db taxonId (body : Body) user uuid db' resp :
  put_taxon fuel env db taxonId body user uuid = Some (db', resp) →
  (db' = db ∧ ∃ code, resp = sendStatus code ∧ code ≠ 200) ∨
  ∃ key c m n md,
    db' = (createRevision env db key c m user n md uuid).1.1 ∧
    Key_table db !! Taxon.keyId body = Some key ∧
    resp = json 200 (RevisionId uuid).
Proof.
  unfold put_taxon, try_catch. intros H.
  destruct (findRevisionForKey db (Taxon.revisionId body) (Taxon.keyId body))
    as [[revision key]| |] eqn:Hfind; simpl in H; [|rejected|done].
  apply findRevisionForKey_Return in Hfind as (Hlinked & Hrev & ->).
  destruct (Key_table db !! Taxon.keyId body) as [key|] eqn:Hkey; simpl in H;
    [|rejected].
  destruct (Taxon_findByPk db taxonId) as [row|]; simpl in H; [|rejected].
  destruct (taxa (content revision)) as [content_taxa|]; simpl in H; [|rejected].
  destruct (findTaxonById _ _ _ _ _) as [[h1 [t|]]| |]; simpl in H;
    [|rejected|rejected|done].
  destruct (modifyTaxonNames _ _ _ _ _ _) as [[h2 valid]| |]; simpl in H;
    [|rejected|done].
  destruct (body_parentId body) as [parentId|]; simpl in H.
  - destruct (h2 !! t) as [tmp|]; simpl in H; [|done].
    destruct (updateParentTaxon _ _ _ _ _ _) as [[h3 taxa']| |]; simpl in H;
      [|rejected|done].
    destruct valid; [|rejected].
    destruct (serialise _ _) as [[]| |]; simpl in H; [accepted H|rejected|done].
  - destruct valid; [|rejected].
    destruct (serialise _ _) as [[]| |]; simpl in H; [accepted H|rejected|done].
Qed.

(** Property X7. Whatever they answer, the routes that
    create and update a taxon leave every stored revision as it is (the
    only revision written is the new one), keep every link between keys
    and revisions, and touch no key other than the one of the request,
    nor that one if it has a current revision. When the answer is not a
    200 the store is unchanged. *)
Theorem taxa_routes_copy_on_write (fuel : nat) (DEFAULT_KEY_MODE : option Z) (db : Db)
    (taxonId : Z) (body : Body) (user uuid : string) :
  keys_indexed db →
  ∀ db' resp,
    post_taxon fuel DEFAULT_KEY_MODE db body user uuid = Some (db', resp) ∨
    put_taxon fuel DEFAULT_KEY_MODE db taxonId body user uuid = Some (db', resp) →
    (∀ r, r ≠ uuid → Revision_table db' !! r = Revision_table db !! r) ∧
    (∀ row, row ∈ Revisions_table db → row ∈ Revisions_table db') ∧
    (∀ k, k ≠ Taxon.keyId body → Key_table db' !! k = Key_table db !! k) ∧
    (∀ key, Key_table db !! Taxon.keyId body = Some key →
       Js.truthy (revisionId key) = true → Key_table db' = Key_table db) ∧
    ((∀ b, resp ≠ json 200 b) → db' = db).
Proof.
  intros Hindexed db' resp [H|H].
  - apply post_taxon_inv in H as [[-> _]|(key & c & m & n & md & -> & Hkey & ->)].
    { done. }
    destruct (createRevision_tables DEFAULT_KEY_MODE (Taxon_create db (Taxon.keyId body)).1
                key c m user n md uuid) as (Hrev & Hlinks & Hkeys & Hcurrent & _).
    rewrite (Hindexed _ _ Hkey) in Hkeys.
    split_and!.
    + intros r Hr. by rewrite Hrev.
    + intros row Hrow. rewrite Hlinks. apply elem_of_app. by left.
    + intros k Hk. by rewrite Hkeys.
    + intros key0 Hkey0 Htruthy. simplify_eq. by rewrite Hcurrent.
    + intros Hno. by destruct (Hno (Created uuid
        (Js.template (Z.of_nat (length (Taxon_table db)) + 1)))).
  - apply put_taxon_inv in H as [[-> _]|(key & c & m & n & md & -> & Hkey & ->)].
    { done. }
    destruct (createRevision_tables DEFAULT_KEY_MODE db
                key c m user n md uuid) as (Hrev & Hlinks & Hkeys & Hcurrent & _).
    rewrite (Hindexed _ _ Hkey) in Hkeys.
    split_and!.
    + intros r Hr. by rewrite Hrev.
    + intros row Hrow. rewrite Hlinks. apply elem_of_app. by left.
    + intros k Hk. by rewrite Hkeys.
    + intros key0 Hkey0 Htruthy. simplify_eq. by rewrite Hcurrent.
    + intros Hno. by destruct (Hno (RevisionId uuid)).
Qed.

End taxa_routes.

Section taxa_routes_sample.
Import Taxon Revision Routes Spec Invariant Examples.
#[local] Existing Instance Js.sample_tables.

Lemma post_taxon_created_witness :
  ∃ db' st revision',
    post_taxon 3 None birds_db (request "Pica" None (Some 2)) "user" "r2"
      = Some (db', json 200 (Created "r2" "6")) ∧
    Revision_table db' !! "r2" = Some revision' ∧ status revision' = st ∧
    children <$> objects (content revision') !! 1%nat = Some (Some [2%nat; 5%nat]).
Proof.
  destruct (post_taxon_created 3 None birds_db (request "Pica" None (Some 2)) "user" "r2"
              birds_revision (mkKey "k1" (Some "r1")) [0; 1; 2; 3; 4]%nat) as [_ Hchild].
  - reflexivity.
  - reflexivity.
  - intros y o Hy Ho. each_node Hy; injection Ho as <-; discriminate.
  - apply birds_ids_unique.
  - destruct (Hchild 2 1%nat (inner "2" "Passeriformes" [2%nat])) as (db' & st & Hrun & Hrev & _).
    + reflexivity.
    + discriminate.
    + by apply (list_elem_of_lookup_2 _ 1%nat).
    + reflexivity.
    + reflexivity.
    + exists db', st. eexists. split; [exact Hrun|]. split; [exact Hrev|]. split; reflexivity.
Defined.

Lemma birds_db_indexed : keys_indexed birds_db.
Proof.
  intros k key Hk. unfold birds_db in Hk. simpl in Hk.
  by apply lookup_singleton_Some in Hk as [<- <-].
Qed.

Lemma taxa_routes_copy_on_write_witness :
  ∃ db' resp,
    post_taxon 3 None birds_db (request "Pica" None None) "user" "r2" = Some (db', resp) ∧
    Revision_table db' !! "r1" = Some birds_revision.
Proof.
  destruct (post_taxon 3 None birds_db (request "Pica" None None) "user" "r2")
    as [[db' resp]|] eqn:Hrun; [|vm_compute in Hrun; discriminate].
  exists db', resp. split; [done|].
  destruct (taxa_routes_copy_on_write 3 None birds_db 0 (request "Pica" None None)
              "user" "r2" birds_db_indexed db' resp (or_introl Hrun)) as (Hrev & _).
  rewrite Hrev; [reflexivity | discriminate].
Defined.

End taxa_routes_sample.

(** ** The revision store *)

Section revision_store.
Import Revision Routes Invariant InPlace Examples.

(** Property X8. [createRevision] stores one new revision,
    holding the content, media, note and author it was given, and one new
    link between the key and that revision; every other revision, every
    other link, every other key and the taxon rows are as before, and the
    key of the call is as before when it has a current revision. *)
Theorem createRevision_adds_one (DEFAULT_KEY_MODE : option Z) (db : Db) (key : Key)
    (content : Content) (media : Media.RevisionMedia) (createdBy : string)
    (note : option string) (mode : option Z) (uuid : string) :
  let db' :=
    (createRevision DEFAULT_KEY_MODE db key content media createdBy note mode uuid).1.1 in
  (∃ st, Revision_table db' !! uuid
         = Some (mkRevision uuid content media note createdBy st
                   (mode_or_default mode DEFAULT_KEY_MODE))) ∧
  (∀ r, r ≠ uuid → Revision_table db' !! r = Revision_table db !! r) ∧
  Revisions_table db' = Revisions_table db ++ [(key_id key, uuid)] ∧
  (∀ k, k ≠ key_id key → Key_table db' !! k = Key_table db !! k) ∧
  (Js.truthy (revisionId key) = true → Key_table db' = Key_table db) ∧
  Taxon_table db' = Taxon_table db.
Proof.
  intros db'. split.
  - subst db'.
    destruct (createRevision _ _ _ _ _ _ _ _ _) as [[db1 key1] returned] eqn:Hcreate.
    by apply createRevision_result in Hcreate as (_ & _ & Hrev).
  - apply createRevision_tables.
Qed.

Lemma createRevision_adds_one_witness :
  Revision_table
    (createRevision (Some 1) db_with_two_revisions (mkKey "k1" (Some "r1"))
       empty_content empty_media "user" None None "r3").1.1 !! "r1"
  = Some accepted_revision.
Proof.
  destruct (createRevision_adds_one (Some 1) db_with_two_revisions (mkKey "k1" (Some "r1"))
              empty_content empty_media "user" None None "r3") as (_ & H & _).
  rewrite H; [reflexivity | discriminate].
Defined.

(** Property X9. If every key's current revision
    exists, is [ACCEPTED] and is linked to that key, and no revision is
    linked to two keys, then this still holds after [createRevision], for
    a key passed as it is stored and a generated id that is not in use. *)
Theorem createRevision_keeps_invariant (DEFAULT_KEY_MODE : option Z) (db : Db) (key : Key)
    (content : Content) (media : Media.RevisionMedia) (createdBy : string)
    (note : option string) (mode : option Z) (uuid : string) :
  Key_table db !! key_id key = Some key →
  Revision_table db !! uuid = None →
  (∀ k, (k, uuid) ∉ Revisions_table db) →
  well_formed db →
  well_formed (createRevision DEFAULT_KEY_MODE db key content media createdBy note mode uuid).1.1.
Proof.
  intros Hkey Hfresh Hunlinked (Hacc & Hlink & Hown).
  unfold createRevision. simpl.
  assert (Hown' : ∀ k1 k2 rid,
    (k1, rid) ∈ Revisions_table db ++ [(key_id key, uuid)] →
    (k2, rid) ∈ Revisions_table db ++ [(key_id key, uuid)] → k1 = k2).
  { intros k1 k2 rid [H1|H1%list_elem_of_singleton]%elem_of_app
                     [H2|H2%list_elem_of_singleton]%elem_of_app.
    - eauto.
    - simplify_eq. by destruct (Hunlinked k1).
    - simplify_eq. by destruct (Hunlinked k2).
    - by simplify_eq. }
  destruct (Js.truthy (revisionId key)) eqn:Htruthy; simpl.
  - split_and!; [| |done].
    + intros k key0 rid Hk Hrid Hne. simpl in *.
      destruct (Hacc k key0 rid Hk Hrid Hne) as (revision & Hrev & Hst).
      exists revision. split; [|done]. rewrite lookup_insert_ne; [done|]. congruence.
    + intros k key0 rid Hk Hrid Hne. simpl in *. apply elem_of_app. left. eauto.
  - split_and!; [| |done].
    + intros k key0 rid Hk Hrid Hne. simpl in *.
      destruct (decide (k = key_id key)) as [->|Hk'].
      * rewrite lookup_alter_eq, Hkey in Hk. simpl in Hk. simplify_eq. simpl in Hrid.
        simplify_eq. eexists. rewrite lookup_alter_eq, lookup_insert_eq. done.
      * rewrite lookup_alter_ne in Hk by done.
        destruct (Hacc k key0 rid Hk Hrid Hne) as (revision & Hrev & Hst).
        exists revision. split; [|done].
        assert (rid ≠ uuid) by congruence.
        rewrite lookup_alter_ne by done. by rewrite lookup_insert_ne.
    + intros k key0 rid Hk Hrid Hne. simpl in *. apply elem_of_app.
      destruct (decide (k = key_id key)) as [->|Hk'].
      * rewrite lookup_alter_eq, Hkey in Hk. simpl in Hk. simplify_eq. simpl in Hrid.
        simplify_eq. right. by left.
      * rewrite lookup_alter_ne in Hk by done. left. eauto.
Qed.

Lemma db_with_fresh_key_well_formed : well_formed db_with_fresh_key.
Proof.
  split_and!.
  - intros k key rid Hk Hrid Hne. unfold db_with_fresh_key in Hk. simpl in Hk.
    apply lookup_singleton_Some in Hk as [_ <-]. done.
  - intros k key rid Hk Hrid Hne. unfold db_with_fresh_key in Hk. simpl in Hk.
    apply lookup_singleton_Some in Hk as [_ <-]. done.
  - intros k1 k2 rid H. by apply elem_of_nil in H.
Qed.

Lemma createRevision_keeps_invariant_witness :
  well_formed (createRevision (Some 1) db_with_fresh_key fresh_key empty_content
                 empty_media "user" None None "r1").1.1.
Proof.
  apply createRevision_keeps_invariant.
  - reflexivity.
  - reflexivity.
  - intros k H. by apply elem_of_nil in H.
  - apply db_with_fresh_key_well_formed.
Defined.

(** Property X10. The status update keeps the same
    invariant: in a store where the current revisions are linked to their
    keys and no revision has two keys, the guard on the key of the request
    protects the current revision of every key. *)
Theorem put_status_keeps_invariant (db : Db) (revisionId keyId : string) (status' : Status) :
  well_formed db → well_formed (put_status db revisionId keyId status').1.
Proof.
  intros (Hacc & Hlink & Hown). unfold put_status, findRevisionForKey.
  destruct (Revisions_findOne db revisionId keyId) as [row|] eqn:Hjoin; [|done].
  apply Revisions_findOne_Some in Hjoin.
  destruct (Revision_table db !! revisionId) as [revision|] eqn:Hrev; [|done].
  destruct (Key_table db !! keyId) as [key|] eqn:Hkey; [|done].
  case_bool_decide as Hcur; [|done]. simpl.
  split_and!; [|done|done].
  intros k key0 rid Hk Hrid Hne. simpl in *.
  destruct (Hacc k key0 rid Hk Hrid Hne) as (revision0 & Hrev0 & Hst).
  exists revision0. split; [|done].
  rewrite lookup_alter_ne; [done|]. intros <-.
  assert (k = keyId) as -> by eauto. congruence.
Qed.

Lemma db_with_two_revisions_well_formed : well_formed db_with_two_revisions.
Proof.
  split_and!.
  - intros k key rid Hk Hrid Hne. unfold db_with_two_revisions in Hk. simpl in Hk.
    apply lookup_singleton_Some in Hk as [_ <-]. simpl in Hrid. simplify_eq.
    by exists accepted_revision.
  - intros k key rid Hk Hrid Hne. unfold db_with_two_revisions in Hk. simpl in Hk.
    apply lookup_singleton_Some in Hk as [<- <-]. simpl in Hrid. simplify_eq. simpl. left.
  - intros k1 k2 rid H1 H2. simpl in *.
    repeat (apply elem_of_cons in H1 as [H1|H1]); try (by apply elem_of_nil in H1);
    repeat (apply elem_of_cons in H2 as [H2|H2]); try (by apply elem_of_nil in H2);
    congruence.
Qed.

Lemma put_status_keeps_invariant_witness :
  well_formed (put_status db_with_two_revisions "r2" "k1" REVIEW).1.
Proof.
  apply put_status_keeps_invariant, db_with_two_revisions_well_formed.
Defined.

End revision_store.

(** ** Removing states and characters from premises *)

Section premise_algebra.
Import Character Spec Invariant InPlace Examples.

Lemma invalidated_premise_unmentioned removed premise :
  Forall (λ clause, ¬ degenerate clause ∧
                    Forall (λ entry, stateId entry ≠ removed) clause) premise →
  invalidated_premise removed premise
  = if decide (length premise = 1%nat) then None else Some premise.
Proof.
  intros Hclean. unfold invalidated_premise.
  assert (clause_without_state removed <$> premise = premise) as ->.
  { rewrite <- (list_fmap_id premise) at 2. apply list_fmap_ext.
    intros i clause Hc. simpl. unfold clause_without_state. apply filter_all.
    by eapply (Forall_lookup_1 _ _ _ _ Hclean). }
  rewrite filter_all; [done|]. eapply Forall_impl; [done|]. by intros ? [? _].
Qed.

Lemma state_removed_idempotent removed c :
  state_removed removed (state_removed removed c) = state_removed removed c.
Proof.
  destruct (logicalPremise c) as [premise|] eqn:Hp.
  2:{ assert (state_removed removed c = c) as E by (unfold state_removed; by rewrite Hp).
      by rewrite !E. }
  assert (state_removed removed c
          = set_logicalPremise (invalidated_premise removed premise) c) as E
    by (unfold state_removed; by rewrite Hp).
  rewrite E. unfold state_removed. simpl.
  destruct (invalidated_premise removed premise) as [p|] eqn:Hinv; simpl; [|done].
  rewrite (invalidated_premise_unmentioned removed p)
    by (by eapply invalidated_premise_clean).
  case_decide as Hlen; [|done].
  unfold invalidated_premise in Hinv. case_decide; simplify_eq.
Qed.

(** Property X12. Removing a state twice is
    removing it once. *)
Theorem removeStatePremises_idempotent (removed : string) (chars : list Character.t) :
  removeStatePremises removed (removeStatePremises removed chars)
  = removeStatePremises removed chars.
Proof.
  rewrite !removeStatePremises_map, <- list_fmap_compose.
  apply list_fmap_ext. intros i c _. apply state_removed_idempotent.
Qed.

(** Property X13. A premise that does not mention
    the removed state and has no degenerate disjunction is kept as it is,
    unless it consists of exactly one disjunction: then it is cleared,
    whatever the removed state. *)
Theorem removeStatePremises_unmentioned (removed : string) (chars : list Character.t)
    (i : nat) (c : Character.t) (premise : Premise) :
  chars !! i = Some c →
  logicalPremise c = Some premise →
  Forall (λ clause, ¬ degenerate clause ∧
                    Forall (λ entry, stateId entry ≠ removed) clause) premise →
  removeStatePremises removed chars !! i
  = Some (if decide (length premise = 1%nat) then set_logicalPremise None c else c).
Proof.
  intros Hc Hp Hclean. rewrite removeStatePremises_map, list_lookup_fmap, Hc. simpl.
  unfold state_removed. rewrite Hp, invalidated_premise_unmentioned by done.
  case_decide; [done|]. f_equal. destruct c; simpl in *. by subst.
Qed.

Lemma removeStatePremises_unmentioned_witness :
  removeStatePremises "zz" [two_clause_character] !! 0%nat
  = Some (set_logicalPremise None two_clause_character).
Proof.
  apply (removeStatePremises_unmentioned "zz" [two_clause_character] 0
           two_clause_character [[mkEntry "1" "a"; mkEntry "1" "b"]]).
  - reflexivity.
  - reflexivity.
  - repeat constructor; unfold degenerate; simpl; (lia || discriminate).
Defined.

Lemma state_removed_free s removed c :
  free_of_state s c → free_of_state s (state_removed removed c).
Proof.
  unfold free_of_state, state_removed. intros Hfree p.
  destruct (logicalPremise c) as [premise|] eqn:Hp; [|by rewrite Hp].
  simpl. unfold invalidated_premise. case_decide; [done|]. intros [= <-].
  specialize (Hfree premise eq_refl).
  apply Forall_forall. intros clause [_ Hin]%list_elem_of_filter.
  apply list_elem_of_fmap in Hin as (clause0 & -> & Hin0).
  rewrite Forall_forall in Hfree. specialize (Hfree clause0 Hin0).
  unfold clause_without_state. apply Forall_forall.
  intros entry [_ Hentry]%list_elem_of_filter.
  rewrite Forall_forall in Hfree. by apply Hfree.
Qed.

Lemma state_removed_frees removed c : free_of_state removed (state_removed removed c).
Proof.
  unfold free_of_state, state_removed. intros p.
  destruct (logicalPremise c) as [premise|] eqn:Hp; [|by rewrite Hp].
  simpl. intros Hinv. apply invalidated_premise_clean in Hinv.
  eapply Forall_impl; [done|]. by intros ? [_ ?].
Qed.

Lemma remove_states_free s states chars :
  Forall (free_of_state s) chars → Forall (free_of_state s) (remove_states states chars).
Proof.
  revert chars. induction states as [|state states IH]; intros chars Hfree; [done|].
  simpl. apply IH. rewrite removeStatePremises_map. apply Forall_fmap.
  eapply Forall_impl; [done|]. intros c Hc. by apply state_removed_free.
Qed.

Lemma remove_states_length states chars :
  length (remove_states states chars) = length chars.
Proof.
  revert chars. induction states as [|state states IH]; intros chars; [done|].
  simpl. rewrite IH, removeStatePremises_map. apply length_fmap.
Qed.

(** Property X14. After the loop of the route over the
    requested states, the characters are as many as before and no premise
    mentions any of the requested states. *)
Theorem remove_states_spec (states : list string) (chars : list Character.t) :
  length (remove_states states chars) = length chars ∧
  ∀ s, s ∈ states → Forall (free_of_state s) (remove_states states chars).
Proof.
  split; [apply remove_states_length|].
  revert chars. induction states as [|state states IH]; intros chars s Hs.
  { by apply elem_of_nil in Hs. }
  simpl. apply elem_of_cons in Hs as [->|Hs].
  - apply remove_states_free. rewrite removeStatePremises_map. apply Forall_fmap.
    apply Forall_forall. intros c _. apply state_removed_frees.
  - by apply IH.
Qed.

Lemma remove_states_spec_witness :
  Forall (free_of_state "a") (remove_states ["a"; "b"] [two_clause_character]).
Proof.
  destruct (remove_states_spec ["a"; "b"] [two_clause_character]) as [_ H].
  apply H. left.
Defined.

Lemma character_removed_idempotent cid c :
  character_removed cid (character_removed cid c) = character_removed cid c.
Proof.
  destruct (logicalPremise c) as [premise|] eqn:Hp.
  2:{ assert (character_removed cid c = c) as E by (unfold character_removed; by rewrite Hp).
      by rewrite !E. }
  set (purged := filter (λ clause, ¬ degenerate clause)
                   (filter (λ entry, characterId entry ≠ cid) <$> premise)).
  assert (character_removed cid c = set_logicalPremise (Some purged) c) as E
    by (unfold character_removed; by rewrite Hp).
  rewrite E. unfold character_removed. simpl.
  assert (Hclean : Forall (λ clause, ¬ degenerate clause ∧
                             Forall (λ entry, characterId entry ≠ cid) clause) purged).
  { apply Forall_forall. intros clause [Hlen Hin]%list_elem_of_filter. split; [done|].
    apply list_elem_of_fmap in Hin as (clause0 & -> & _).
    apply Forall_forall. by intros entry [? _]%list_elem_of_filter. }
  assert (filter (λ entry, characterId entry ≠ cid) <$> purged = purged) as ->.
  { rewrite <- (list_fmap_id purged) at 2. apply list_fmap_ext.
    intros i clause Hc. simpl. apply filter_all.
    by eapply (Forall_lookup_1 _ _ _ _ Hclean). }
  rewrite filter_all; [done|]. eapply Forall_impl; [done|]. by intros ? [? _].
Qed.

(** Property X15. Removing a character from the
    premises twice is removing it once; and, unlike the removal of a
    state, it never clears a premise: a character that had one still has
    one, possibly empty. *)
Theorem removeCharacterPremises_idempotent (cid : string) (chars : list Character.t) :
  removeCharacterPremises cid (removeCharacterPremises cid chars)
  = removeCharacterPremises cid chars ∧
  ∀ i c, chars !! i = Some c →
    ∃ c', removeCharacterPremises cid chars !! i = Some c' ∧
          (is_Some (logicalPremise c') ↔ is_Some (logicalPremise c)).
Proof.
  split.
  - rewrite !removeCharacterPremises_map, <- list_fmap_compose.
    apply list_fmap_ext. intros i c _. apply character_removed_idempotent.
  - intros i c Hc. rewrite removeCharacterPremises_map, list_lookup_fmap, Hc. simpl.
    eexists. split; [done|]. unfold character_removed.
    destruct (logicalPremise c) as [premise|] eqn:Hp; [|by rewrite Hp].
    simpl. split; eauto.
Qed.

Lemma removeCharacterPremises_idempotent_witness :
  ∃ c', removeCharacterPremises "7" [size_character] !! 0%nat = Some c' ∧
        logicalPremise c' = Some [].
Proof.
  destruct (removeCharacterPremises_idempotent "7" [size_character]) as [_ H].
  destruct (H 0%nat size_character eq_refl) as (c' & Hc' & _).
  exists c'. split; [exact Hc'|]. vm_compute in Hc'. by simplify_eq.
Defined.

End premise_algebra.

(** ** Routes that edit a revision in place or copy it *)

Section in_place.
Import Revision Routes Invariant InPlace Examples Samples.

(** Property X16. The route that purges premises of
    removed states rewrites the addressed revision where it stands: when
    it answers 200 the revision was linked to the key, and only its
    characters changed, to the purged ones; no revision is created, no
    other revision, no key and no link is touched; with any other answer
    the store is unchanged. *)
Theorem put_states_revision_in_place (db : Db) (revisionId keyId : string)
    (states : list string) :
  let result := put_states_revision db revisionId keyId states in
  Key_table result.1 = Key_table db ∧
  Revisions_table result.1 = Revisions_table db ∧
  Taxon_table result.1 = Taxon_table db ∧
  (∀ r, r ≠ revisionId → Revision_table result.1 !! r = Revision_table db !! r) ∧
  (result.2 = sendStatus 200 →
     ∃ revision chars,
       (keyId, revisionId) ∈ Revisions_table db ∧
       is_Some (Key_table db !! keyId) ∧
       Revision_table db !! revisionId = Some revision ∧
       characters (content revision) = Some chars ∧
       Revision_table result.1 !! revisionId
       = Some (set_content
                 (set_characters (Some (remove_states states chars)) (content revision))
                 revision)) ∧
  (result.2 ≠ sendStatus 200 → result.1 = db).
Proof.
  intros result. subst result. unfold put_states_revision.
  destruct (findRevisionForKey db revisionId keyId) as [[revision [key|]]| |] eqn:Hfind;
    simpl; try (split_and!; done).
  apply findRevisionForKey_Return in Hfind as (Hlinked & Hrev & Hkey).
  destruct (characters (content revision)) as [chars|] eqn:Hchars; simpl;
    [|split_and!; done].
  split_and!; try done.
  - intros r Hr. by rewrite lookup_alter_ne.
  - intros _. exists revision, chars.
    split; [done|]. split; [by rewrite <- Hkey|]. split; [done|]. split; [done|].
    simpl. by rewrite lookup_alter_eq, Hrev.
Qed.

Lemma put_states_revision_in_place_witness :
  ∃ revision',
    Revision_table (put_states_revision db_with_premises "r1" "k1" ["a"]).1 !! "r1"
      = Some revision' ∧
    status revision' = ACCEPTED ∧
    characters (content revision')
      = Some [Character.set_logicalPremise (Some []) two_clause_character].
Proof.
  destruct (put_states_revision_in_place db_with_premises "r1" "k1" ["a"])
    as (_ & _ & _ & _ & H200 & _).
  destruct (H200 eq_refl) as (revision & chars & _ & _ & Hrev & Hchars & Hrev').
  eexists. split; [exact Hrev'|].
  vm_compute in Hrev. simplify_eq. vm_compute in Hchars. simplify_eq.
  split; reflexivity.
Defined.

(** Property X17. Changing the mode of a key copies the addressed
    revision: the answer is 200 with the id of a new revision that holds
    the same content and media under the requested mode, and the addressed
    revision is stored as before. Without a link between key and revision
    the answer is 500, without a key row 403, and the store is unchanged. *)
Theorem put_mode_copies (DEFAULT_KEY_MODE : option Z) (db : Db)
    (revisionId keyId : string) (mode' : Z) (user uuid : string) :
  let result := put_mode DEFAULT_KEY_MODE db revisionId keyId mode' user uuid in
  (∀ revision key,
     (keyId, revisionId) ∈ Revisions_table db →
     Revision_table db !! revisionId = Some revision →
     Key_table db !! keyId = Some key →
     mode' ≠ 0 → uuid ≠ revisionId →
     result.2 = json 200 (RevisionId uuid) ∧
     (∃ st note,
        Revision_table result.1 !! uuid
        = Some (mkRevision uuid (content revision) (media revision) note user st
                  (Some mode'))) ∧
     Revision_table result.1 !! revisionId = Some revision) ∧
  ((keyId, revisionId) ∉ Revisions_table db ∨ Revision_table db !! revisionId = None →
     result = (db, sendStatus 500)) ∧
  ((keyId, revisionId) ∈ Revisions_table db →
   is_Some (Revision_table db !! revisionId) → Key_table db !! keyId = None →
     result = (db, sendStatus 403)).
Proof.
  intros result. subst result. unfold put_mode. split_and!.
  - intros revision key Hlinked Hrev Hkey Hmode Hfresh.
    rewrite (findRevisionForKey_linked _ _ _ _ Hlinked Hrev), Hkey.
    destruct (createRevision _ _ _ _ _ _ _ _ _) as [[db' key'] returned] eqn:Hcreate.
    pose proof (createRevision_tables DEFAULT_KEY_MODE db key (content revision)
                  (media revision) user
                  (Some ("Changed key mode to " +:+
                         (if decide (mode' = 1) then "simple" else "advanced")))
                  (Some mode') uuid) as (Hothers & _).
    rewrite Hcreate in Hothers. simpl in Hothers.
    apply createRevision_result in Hcreate as (-> & _ & st & Hnew).
    simpl. split_and!; [done| |].
    + exists st. eexists. rewrite Hnew. f_equal. f_equal.
      unfold mode_or_default. by rewrite decide_False.
    + by rewrite Hothers.
  - intros Hmissing.
    destruct (findRevisionForKey db revisionId keyId) as [[revision key]| |] eqn:Hfind;
      [|done|done].
    apply findRevisionForKey_Return in Hfind as (Hlinked & Hrev & _).
    destruct Hmissing; [done|congruence].
  - intros Hlinked [revision Hrev] Hkey.
    by rewrite (findRevisionForKey_linked _ _ _ _ Hlinked Hrev), Hkey.
Qed.

Lemma put_mode_copies_witness :
  (put_mode None db_with_two_revisions "r2" "k1" 2 "user" "r3").2
    = json 200 (RevisionId "r3") ∧
  Revision_table (put_mode None db_with_two_revisions "r2" "k1" 2 "user" "r3").1 !! "r2"
    = Some draft_revision.
Proof.
  destruct (put_mode_copies None db_with_two_revisions "r2" "k1" 2 "user" "r3")
    as (Hcopy & _).
  destruct (Hcopy draft_revision (mkKey "k1" (Some "r1"))) as (H200 & _ & Hkept).
  - right; left.
  - reflexivity.
  - reflexivity.
  - discriminate.
  - discriminate.
  - split; [exact H200 | exact Hkept].
Defined.

(** Property X18. [handleUpdateKey] makes a revision
    the current one of the key exactly when that revision exists and is
    [ACCEPTED], whether or not it is linked to the key, and throws
    otherwise, writing nothing; so every key's current revision still
    exists and is [ACCEPTED] afterwards. *)
Theorem handleUpdateKey_accepted_only (db : Db) (keyId revisionId : string) :
  (∀ revision, Revision_table db !! revisionId = Some revision →
     status revision = ACCEPTED →
     handleUpdateKey db keyId revisionId
       = Return (Key_update_revisionId db keyId (Some revisionId)) ∧
     (∀ key, Key_table db !! keyId = Some key →
        Key_table (Key_update_revisionId db keyId (Some revisionId)) !! keyId
        = Some (set_revisionId (Some revisionId) key))) ∧
  ((∀ revision, Revision_table db !! revisionId = Some revision →
      status revision ≠ ACCEPTED) →
     handleUpdateKey db keyId revisionId = Throws) ∧
  (∀ db', handleUpdateKey db keyId revisionId = Return db' →
     Revision_table db' = Revision_table db ∧
     Revisions_table db' = Revisions_table db ∧
     (∀ k, k ≠ keyId → Key_table db' !! k = Key_table db !! k) ∧
     (current_accepted db → current_accepted db')).
Proof.
  unfold handleUpdateKey. split_and!.
  - intros revision Hrev Hst. rewrite Hrev, decide_True by done. split; [done|].
    intros key Hkey. simpl. by rewrite lookup_alter_eq, Hkey.
  - intros Hnot. destruct (Revision_table db !! revisionId) as [revision|]; [|done].
    rewrite decide_False; [done|]. by apply Hnot.
  - intros db' Hrun.
    destruct (Revision_table db !! revisionId) as [revision|] eqn:Hrev; [|done].
    case_decide as Hst; [|done]. simplify_eq. simpl. split_and!; try done.
    + intros k Hk. by rewrite lookup_alter_ne.
    + intros Hacc k key rid Hk Hrid Hne. simpl in *.
      destruct (decide (k = keyId)) as [->|Hk'].
      * rewrite lookup_alter_eq in Hk.
        destruct (Key_table db !! keyId) as [key0|]; simpl in Hk; [|done].
        simplify_eq. simpl in Hrid. simplify_eq. eauto.
      * rewrite lookup_alter_ne in Hk by done. eauto.
Qed.

Lemma handleUpdateKey_accepted_only_witness :
  handleUpdateKey db_with_two_revisions "k1" "r2" = Throws ∧
  handleUpdateKey db_with_two_revisions "k9" "r1"
    = Return (Key_update_revisionId db_with_two_revisions "k9" (Some "r1")).
Proof.
  destruct (handleUpdateKey_accepted_only db_with_two_revisions "k1" "r2")
    as (_ & Hthrows & _).
  destruct (handleUpdateKey_accepted_only db_with_two_revisions "k9" "r1")
    as (Hreturns & _).
  split.
  - apply Hthrows. intros revision Hrev. vm_compute in Hrev. by simplify_eq.
  - by apply (Hreturns accepted_revision).
Defined.

End in_place.

(** ** The media ledger *)

Section ledger.
Import Media Spec Ledger Examples.
Context {tables : Js.Unicode}.

Lemma fold_left_push_pair {A B C} (f : A → B) (g : A → C) (l : list A) bs cs :
  fold_left (λ '(bs, cs) x, (bs ++ [f x], cs ++ [g x])) l (bs, cs)
  = (bs ++ (f <$> l), cs ++ (g <$> l)).
Proof.
  revert bs cs. induction l as [|x l IH]; intros bs cs; simpl.
  - by rewrite !app_nil_r.
  - by rewrite IH, <- !app_assoc.
Qed.

Lemma addToRevisionMedia_closed_form (revision_media : RevisionMedia) (media_id : Z)
    (fileInfo : option FileInfo) :
  let names := default [] (fileInfo ≫= creators) in
  let new_persons := (λ name, mkPerson (person_id_of name) name) <$> names in
  let result := addToRevisionMedia revision_media media_id fileInfo in
  ∃ element,
    mediaElements result = Some (default [] (mediaElements revision_media) ++ [element]) ∧
    id element = IdStr (Js.template media_id) ∧
    license element = fileInfo ≫= licenseUrl ∧
    default [] (Media.creators element) = person_id <$> new_persons ∧
    persons result = Some (default [] (persons revision_media) ++ new_persons).
Proof.
  intros names new_persons result. subst result. unfold addToRevisionMedia.
  destruct (fileInfo ≫= creators) as [l|] eqn:Hc; subst names new_persons; simpl.
  - rewrite (fold_left_push_pair (λ name, mkPerson (person_id_of name) name) person_id_of).
    eexists. split_and!; try done. simpl. rewrite <- list_fmap_compose.
    by destruct l.
  - rewrite app_nil_r. eexists. split_and!; done.
Qed.

(** Property X19. Attaching a media file appends one
    element, under the decimal form of the media id, to the elements of
    the ledger, which stay as they are and in their order, and appends one
    person for each creator of the file info, in their order and without
    looking whether the ledger knows the person already; the creators of
    the new element are the ids of those persons. *)
Theorem addToRevisionMedia_appends (revision_media : RevisionMedia) (media_id : Z)
    (fileInfo : option FileInfo) :
  let names := default [] (fileInfo ≫= creators) in
  let new_persons := (λ name, mkPerson (person_id_of name) name) <$> names in
  let result := addToRevisionMedia revision_media media_id fileInfo in
  ∃ element,
    mediaElements result = Some (default [] (mediaElements revision_media) ++ [element]) ∧
    id element = IdStr (Js.template media_id) ∧
    license element = fileInfo ≫= licenseUrl ∧
    default [] (Media.creators element) = person_id <$> new_persons ∧
    persons result = Some (default [] (persons revision_media) ++ new_persons).
Proof. apply addToRevisionMedia_closed_form. Qed.

Lemma updateMediaElement_persons names ps :
  ∃ extra,
    forEach (λ (persons : option (list Person)) creator,
      match persons with
      | Some ps =>
          let id := person_id_of creator in
          if negb (known_person ps id)
          then Return (Some (ps ++ [mkPerson id creator]))
          else Return (Some ps)
      | None => Throws
      end) (Some ps) names = Return (Some (ps ++ extra)) ∧
    (∀ name, name ∈ names → person_id_of name ∈ person_id <$> ps ++ extra) ∧
    (∀ p, p ∈ extra → ∃ name, name ∈ names ∧ p = mkPerson (person_id_of name) name ∧
                                person_id p ∉ person_id <$> ps) ∧
    (NoDup (person_id <$> ps) → NoDup (person_id <$> ps ++ extra)).
Proof.
  revert ps. induction names as [|n rest IH]; intros ps.
  { exists []. rewrite app_nil_r. split_and!; try done.
    - intros name Hn. by apply elem_of_nil in Hn.
    - intros p Hp. by apply elem_of_nil in Hp. }
  rewrite forEach_cons. unfold known_person. case_bool_decide as Hknown; simpl.
  - destruct (IH ps) as (extra & Hrun & Hall & Hextra & Hnd).
    exists extra. split_and!; try done.
    + intros name [->|Hn]%elem_of_cons; [|by apply Hall].
      rewrite fmap_app. apply elem_of_app. by left.
    + intros p Hp. destruct (Hextra p Hp) as (name & Hn & -> & Hnew).
      exists name. split_and!; try done. by right.
  - destruct (IH (ps ++ [mkPerson (person_id_of n) n])) as (extra & Hrun & Hall & Hextra & Hnd).
    exists (mkPerson (person_id_of n) n :: extra).
    replace (ps ++ mkPerson (person_id_of n) n :: extra)
      with ((ps ++ [mkPerson (person_id_of n) n]) ++ extra) by (by rewrite <- app_assoc).
    split_and!; try done.
    + intros name [->|Hn]%elem_of_cons; [|by apply Hall].
      rewrite !fmap_app. apply elem_of_app. left. apply elem_of_app. right. by left.
    + intros p [->|Hp]%elem_of_cons.
      * exists n. split_and!; try done. by left.
      * destruct (Hextra p Hp) as (name & Hn & -> & Hnew).
        exists name. split_and!; try done; [by right|].
        intros Hin. apply Hnew. rewrite fmap_app. apply elem_of_app. by left.
    + intros Hps. apply Hnd. rewrite fmap_app. apply NoDup_app. split_and!; try done.
      * intros x Hx [->|Hnil%elem_of_nil]%elem_of_cons; done.
      * simpl. apply NoDup_singleton.
Qed.

Lemma updateMediaElement_returns (body : FileInfo) (mediaElement : MediaElement)
    (ps : list Person) :
  ∃ mediaElement' extra,
    updateMediaElement body mediaElement (Some ps)
      = Return (mediaElement', Some (ps ++ extra)) ∧
    id mediaElement' = id mediaElement ∧
    (∀ names, creators body = Some names →
       Media.creators mediaElement' = Some (person_id_of <$> names) ∧
       ∀ name, name ∈ names → person_id_of name ∈ person_id <$> ps ++ extra) ∧
    (creators body = None →
       extra = [] ∧ Media.creators mediaElement' = Media.creators mediaElement) ∧
    (∀ p, p ∈ extra → person_id p ∉ person_id <$> ps) ∧
    (NoDup (person_id <$> ps) → NoDup (person_id <$> ps ++ extra)).
Proof.
  unfold updateMediaElement.
  set (me1 := if Js.truthy (titleNo body) || Js.truthy (titleEn body) then _ else _).
  set (me2 := if Js.truthy (licenseUrl body) then _ else _).
  assert (Hid : id me2 = id mediaElement ∧ Media.creators me2 = Media.creators mediaElement).
  { subst me2 me1.
    destruct (Js.truthy (licenseUrl body)); simpl;
    destruct (Js.truthy (titleNo body) || Js.truthy (titleEn body)); simpl; try done;
    destruct (titleEn body) as [en|]; try destruct (negb (String.eqb en "")); simpl;
    destruct (titleNo body) as [no|]; try destruct (negb (String.eqb no "")); simpl;
    by destruct (title mediaElement). }
  destruct Hid as [Hid Hcreators].
  destruct (creators body) as [names|] eqn:Hnames.
  - destruct (updateMediaElement_persons names ps) as (extra & Hrun & Hall & Hextra & Hnd).
    cbv zeta in Hrun |- *. rewrite Hrun.
    simpl. eexists _, extra. split_and!; try done.
    + intros ? [= <-]. done.
    + intros p Hp. by destruct (Hextra p Hp) as (_ & _ & _ & ?).
  - exists me2, []. rewrite app_nil_r. split_and!; try done.
    intros p Hp. by apply elem_of_nil in Hp.
Qed.

(** Property X20. Updating a ledger element keeps
    its id and every person of the ledger, adds a person only for a
    creator whose id the ledger does not know yet, so that person ids that
    were distinct stay distinct, and leaves every creator of the request
    known to the ledger; the creators of the element become the ids of the
    requested ones. Without creators in the request the persons are
    untouched, and the call does not throw. *)
Theorem updateMediaElement_persons_unique (body : FileInfo) (mediaElement : MediaElement)
    (ps : list Person) :
  ∃ mediaElement' extra,
    updateMediaElement body mediaElement (Some ps)
      = Return (mediaElement', Some (ps ++ extra)) ∧
    id mediaElement' = id mediaElement ∧
    (∀ names, creators body = Some names →
       Media.creators mediaElement' = Some (person_id_of <$> names) ∧
       ∀ name, name ∈ names → person_id_of name ∈ person_id <$> ps ++ extra) ∧
    (creators body = None →
       extra = [] ∧ Media.creators mediaElement' = Media.creators mediaElement) ∧
    (∀ p, p ∈ extra → person_id p ∉ person_id <$> ps) ∧
    (NoDup (person_id <$> ps) → NoDup (person_id <$> ps ++ extra)).
Proof. apply updateMediaElement_returns. Qed.

Lemma attach_detach_lemma (entity_media : list MediaId)
    (revision_media : RevisionMedia) (media_id : Z) (fileInfo : option FileInfo)
    (as_string : bool) :
  Js.template media_id ∉ media_ids entity_media →
  (∀ element, element ∈ default [] (mediaElements revision_media) →
     MediaId_template (id element) ≠ Js.template media_id) →
  let attached := addToRevisionMedia revision_media media_id fileInfo in
  let pushed := if as_string then IdStr (Js.template media_id) else IdNum media_id in
  let detached :=
    removeEntityMedia (entity_media ++ [pushed]) attached [Js.Str (Js.template media_id)] in
  detached.1 = IdStr <$> media_ids entity_media ∧
  mediaElements detached.2 = Some (default [] (mediaElements revision_media)) ∧
  persons detached.2 = persons attached.
Proof.
  intros Hfresh Hunused attached pushed detached. subst detached.
  rewrite removeEntityMedia_closed_form. simpl.
  destruct (addToRevisionMedia_closed_form revision_media media_id fileInfo)
    as (element & Hel & Hid & _).
  fold attached in Hel. rewrite Hel. simpl. split_and!; [| |done].
  - f_equal. unfold media_ids. rewrite fmap_app, filter_app.
    rewrite (filter_all _ (MediaId_template <$> entity_media)).
    + change (MediaId_template <$> [pushed]) with [MediaId_template pushed].
      rewrite (filter_cons_False _ _ []), filter_nil, app_nil_r; [done|].
      intros Hnot. apply Hnot. subst pushed. destruct as_string; by left.
    + apply Forall_forall. intros s Hs [Heq|Hnil%elem_of_nil]%elem_of_cons; [|done].
      injection Heq as ->. done.
  - f_equal. rewrite filter_app.
    rewrite (filter_all _ (default [] (mediaElements revision_media))).
    + rewrite (filter_cons_False _ _ []), filter_nil, app_nil_r; [done|].
      intros Hnot. apply Hnot. rewrite Hid. by left.
    + apply Forall_forall. intros el Hin [Heq|Hnil%elem_of_nil]%elem_of_cons; [|done].
      injection Heq as Heq. by apply (Hunused el).
Qed.

(** Property X21. Attaching a media file to an entity and
    detaching it again gives back the media ids the entity had, now all
    as strings, and the elements the ledger had, provided the id was not
    in use; the persons the attachment added stay in the ledger. *)
Theorem attach_detach_round_trip (entity_media : list MediaId)
    (revision_media : RevisionMedia) (media_id : Z) (fileInfo : option FileInfo)
    (as_string : bool) :
  Js.template media_id ∉ media_ids entity_media →
  (∀ element, element ∈ default [] (mediaElements revision_media) →
     MediaId_template (id element) ≠ Js.template media_id) →
  let attached := addToRevisionMedia revision_media media_id fileInfo in
  let pushed := if as_string then IdStr (Js.template media_id) else IdNum media_id in
  let detached :=
    removeEntityMedia (entity_media ++ [pushed]) attached [Js.Str (Js.template media_id)] in
  detached.1 = IdStr <$> media_ids entity_media ∧
  mediaElements detached.2 = Some (default [] (mediaElements revision_media)) ∧
  persons detached.2 = persons attached.
Proof. apply attach_detach_lemma. Qed.

Lemma findTaxonById_heap fuel (h : Taxon.heap) taxa i h' r :
  Taxon.findTaxonById fuel h taxa i false = Return (h', r) → h' = h.
Proof.
  destruct taxa as [arr|].
  - rewrite findTaxonById_search.
    destruct (search fuel h _ arr) as [r'| |]; simpl; [|done|done]. by intros [= <- _].
  - destruct fuel; simpl; [done|]. by intros [= <- _].
Qed.

Lemma removeFromRevision_inv fuel url body (h : Taxon.heap) taxa characters media
    h' characters' media' :
  removeFromRevision fuel url body h taxa characters media = Return (h', characters', media') →
  length h' = length h ∧
  (media' = media ∨
   ∃ entity_media, media' = (removeEntityMedia entity_media media (body_media body)).2).
Proof.
  unfold removeFromRevision. intros Hrun.
  repeat case_decide.
  - destruct (Taxon.findTaxonById fuel h taxa (entityId body) false)
      as [[h1 [t|]]| |] eqn:Hfind; simpl in Hrun; try done.
    + apply findTaxonById_heap in Hfind as ->.
      destruct (h !! t) as [o|]; simpl in Hrun; [|done].
      destruct (Taxon.media o) as [entity_media|]; simpl in Hrun.
      * destruct (removeEntityMedia entity_media media (body_media body))
          as [arr media1] eqn:Hremove.
        simplify_eq. rewrite length_alter. split; [done|]. right.
        exists entity_media. first [reflexivity | by rewrite Hremove].
      * simplify_eq. auto.
    + apply findTaxonById_heap in Hfind as ->. simplify_eq. auto.
  - destruct characters as [chars|]; [|done].
    destruct (list_find _ chars) as [[i character]|]; [|simplify_eq; auto].
    destruct (Character.media character) as [entity_media|]; [|simplify_eq; auto].
    destruct (removeEntityMedia entity_media media (body_media body))
      as [arr media1] eqn:Hremove.
    simplify_eq. split; [done|]. right. exists entity_media. first [reflexivity | by rewrite Hremove].
  - destruct characters as [chars|]; [|done].
    destruct (list_find _ chars) as [[i character]|]; [|done].
    destruct (Character.states character) as [states|]; [|done].
    destruct (list_find _ states) as [[j state]|]; [|simplify_eq; auto].
    destruct (Character.state_media state) as [entity_media|]; [|simplify_eq; auto].
    destruct (removeEntityMedia entity_media media (body_media body))
      as [arr media1] eqn:Hremove.
    simplify_eq. split; [done|]. right. exists entity_media. first [reflexivity | by rewrite Hremove].
  - simplify_eq. auto.
Qed.

End ledger.

Section ledger_sample.
Import Media Spec Ledger Examples.
#[local] Existing Instance Js.sample_tables.

Lemma attach_detach_round_trip_witness :
  (removeEntityMedia (two_photos ++ [IdNum 7]) (addToRevisionMedia ledger 7 None) [Js.Str "7"]).1
    = [IdStr "5"; IdStr "6"] ∧
  mediaElements
    (removeEntityMedia (two_photos ++ [IdNum 7]) (addToRevisionMedia ledger 7 None) [Js.Str "7"]).2
    = mediaElements ledger.
Proof.
  destruct (attach_detach_round_trip two_photos ledger 7 None false) as (H1 & H2 & _).
  - intros Hin. apply list_elem_of_In in Hin. vm_compute in Hin.
    destruct Hin as [Hin|[Hin|[]]]; discriminate.
  - intros element Hin. apply list_elem_of_In in Hin. simpl in Hin.
    destruct Hin as [<-|[<-|[]]]; discriminate.
  - split; [exact H1 | exact H2].
Defined.

Lemma updateMediaElement_persons_unique_witness :
  ∃ mediaElement',
    updateMediaElement (mkFileInfo None None (Some ["Anna"; "Ola Nordmann"; "ANNA"]) None)
      (mkMediaElement (IdStr "6") None None None) (Some [mkPerson "anna" "Anna"])
    = Return (mediaElement',
              Some [mkPerson "anna" "Anna"; mkPerson "olanordmann" "Ola Nordmann"]).
Proof.
  destruct (updateMediaElement_persons_unique
              (mkFileInfo None None (Some ["Anna"; "Ola Nordmann"; "ANNA"]) None)
              (mkMediaElement (IdStr "6") None None None) [mkPerson "anna" "Anna"])
    as (mediaElement' & extra & Hrun & _).
  exists mediaElement'. rewrite Hrun. vm_compute in Hrun. by simplify_eq.
Defined.

End ledger_sample.

Section ledger_routes.
Import Media Revision Routes InPlace Ledger Spec Examples Samples.

(** Property X22. Detaching media rewrites the addressed
    revision where it stands, whichever key it belongs to: no revision is
    created and nothing else in the store changes. When the answer is 200
    the revision keeps its id, status, author, note and mode, its taxa
    array and statements, and the persons of its ledger; the elements of
    the ledger are among those it had. When the revision does not exist,
    or an entity of the request cannot be read, the answer is 500 and the
    store is unchanged. *)
Theorem delete_entity_media_in_place (fuel : nat) (db : Db) (url revisionId : string)
    (body : RemoveBody) :
  ∀ db' resp,
    delete_entity_media fuel db url revisionId body = Some (db', resp) →
    Key_table db' = Key_table db ∧
    Revisions_table db' = Revisions_table db ∧
    Taxon_table db' = Taxon_table db ∧
    (∀ r, r ≠ revisionId → Revision_table db' !! r = Revision_table db !! r) ∧
    (resp = sendStatus 200 ∨ (resp = sendStatus 500 ∧ db' = db)) ∧
    (Revision_table db !! revisionId = None → resp = sendStatus 500) ∧
    (resp = sendStatus 200 →
       ∃ revision revision',
         Revision_table db !! revisionId = Some revision ∧
         Revision_table db' !! revisionId = Some revision' ∧
         Revision.id revision' = Revision.id revision ∧
         status revision' = status revision ∧
         createdBy revision' = createdBy revision ∧
         note revision' = note revision ∧
         mode revision' = mode revision ∧
         taxa (content revision') = taxa (content revision) ∧
         statements (content revision') = statements (content revision) ∧
         length (objects (content revision')) = length (objects (content revision)) ∧
         persons (Revision.media revision') = persons (Revision.media revision) ∧
         default [] (mediaElements (Revision.media revision'))
           ⊆ default [] (mediaElements (Revision.media revision))).
Proof.
  intros db' resp. unfold delete_entity_media, try_catch.
  destruct (Revision_table db !! revisionId) as [revision|] eqn:Hrev.
  2:{ intros [= <- <-]. split_and!; try done. by right. }
  destruct (removeFromRevision _ _ _ _ _ _ _) as [[[h characters] media]| |] eqn:Hremove;
    simpl; [|intros [= <- <-]; split_and!; try done; by right|done].
  intros [= <- <-].
  apply removeFromRevision_inv in Hremove as [Hlen Hmedia].
  split_and!; try done.
  - intros r Hr. simpl. by rewrite !lookup_alter_ne.
  - by left.
  - intros _. exists revision. eexists. split; [done|]. split.
    { simpl. rewrite lookup_alter_eq, lookup_alter_eq, Hrev. done. }
    simpl. split_and!; try done.
    + destruct Hmedia as [->|[entity_media ->]]; [done|].
      by rewrite removeEntityMedia_closed_form.
    + destruct Hmedia as [->|[entity_media ->]]; [done|].
      rewrite removeEntityMedia_closed_form. simpl.
      intros element [_ Hin]%list_elem_of_filter. done.
Qed.

Lemma delete_entity_media_in_place_witness :
  ∃ db' revision',
    delete_entity_media 3 db_with_media "/taxon" "r1" (mkRemoveBody "3" None [Js.Str "5"])
      = Some (db', sendStatus 200) ∧
    Revision_table db' !! "r1" = Some revision' ∧
    persons (Revision.media revision') = persons ledger.
Proof.
  destruct (delete_entity_media 3 db_with_media "/taxon" "r1" (mkRemoveBody "3" None [Js.Str "5"]))
    as [[db' resp]|] eqn:Hrun; [|vm_compute in Hrun; discriminate].
  destruct (delete_entity_media_in_place _ _ _ _ _ db' resp Hrun)
    as (_ & _ & _ & _ & _ & _ & H200).
  assert (Hresp : resp = sendStatus 200) by (vm_compute in Hrun; by simplify_eq).
  destruct (H200 Hresp) as (revision & revision' & Hrev & Hrev' & Hfields).
  exists db', revision'. subst resp. split; [done|]. split; [done|].
  vm_compute in Hrev. simplify_eq. tauto.
Defined.

End ledger_routes.

(** ** Deleting the files of a media row *)

Section media_files.
Import Media Examples Samples.

(** Property X23. For a media row with a file and a
    thumbnail, the deletion is fulfilled exactly when both paths are
    distinct and hold files that can be removed; then both files, the row
    and the info rows of the media are gone. Otherwise it is rejected and
    the rows are all kept, although a primary file that could be removed
    is gone from the storage. *)
Theorem deleteMediaFile_all_or_rows_kept (w : world) (media : MediaRow) (p t : string) :
  filePath media = Some p → thumbnailPath media = Some t → p ≠ "" → t ≠ "" →
  let result := deleteMediaFile w media in
  (result.2 = Resolved ↔
     files w !! p = Some Regular ∧ files w !! t = Some Regular ∧ p ≠ t) ∧
  (result.2 = Resolved →
     result.1 = mkWorld (delete t (delete p (files w)))
                  (delete (media_id media) (mediaTable w))
                  (MediaInfo_destroy (media_id media) (mediaInfoTable w))) ∧
  (result.2 ≠ Resolved →
     mediaTable result.1 = mediaTable w ∧
     mediaInfoTable result.1 = mediaInfoTable w ∧
     (files w !! p = Some Regular → files result.1 !! p = None)).
Proof.
  intros Hp Ht Hpne Htne result. subst result. unfold deleteMediaFile.
  rewrite Hp, Ht, !truthy_nonempty by done. unfold unlink.
  destruct (files w !! p) as [[|fp]|] eqn:Hfp; simpl.
  - destruct (decide (p = t)) as [<-|Hne].
    + rewrite lookup_delete_eq. simpl. split_and!; try done.
      * split; [done|]. by intros (_ & _ & ?).
      * intros _. split_and!; try done. intros _. by rewrite lookup_delete_eq.
    + rewrite lookup_delete_ne by done.
      destruct (files w !! t) as [[|ft]|] eqn:Hft; simpl.
      * split_and!; try done.
      * split_and!; try done.
        -- split; [done|]. by intros (_ & ? & _).
        -- intros _. split_and!; try done. intros _. by rewrite lookup_delete_eq.
      * split_and!; try done.
        -- split; [done|]. by intros (_ & ? & _).
        -- intros _. split_and!; try done. intros _. by rewrite lookup_delete_eq.
  - destruct (files w !! t) as [[|ft]|] eqn:Hft; simpl; split_and!; try done;
      try (split; [done|]; by intros (? & _)).
  - destruct (files w !! t) as [[|ft]|] eqn:Hft; simpl; split_and!; try done;
      try (split; [done|]; by intros (? & _)).
Qed.

Lemma deleteMediaFile_all_or_rows_kept_witness :
  (deleteMediaFile world_with_files photo).2 = Resolved ∧
  mediaInfoTable (deleteMediaFile world_with_files photo).1
    = [mkMediaInfoRow 2 8 "en" "Bird"].
Proof.
  destruct (deleteMediaFile_all_or_rows_kept world_with_files photo
              "media/keys/k1/7.jpg" "media/keys/k1/7-thumbnail.jpg")
    as (Hiff & Hdone & _); try reflexivity; try discriminate.
  assert (Hres : (deleteMediaFile world_with_files photo).2 = Resolved).
  { apply Hiff. split_and!; [reflexivity | reflexivity | discriminate]. }
  split; [exact Hres|]. rewrite (Hdone Hres). reflexivity.
Defined.

End media_files.

Section ledger_round_trip.
Import Media Revision Routes InPlace Ledger Spec Examples Samples.
Context {tables : Js.Unicode}.

(** Property X24. Attaching a media file to a taxon of a
    revision and detaching it again, both in place: the revision ends
    with the taxon's former media ids, as strings, and the former elements
    of its ledger, provided the media id was not in use, the revision is
    linked to the key and the taxa have distinct ids. Nothing else of the
    revision changes but the persons of the ledger, which keep those that
    the attachment added. *)
Theorem attach_detach_taxon (fuel : nat) (db : Db) (media_id : Z)
    (fileInfo : option FileInfo) (keyId revisionId entityId : string)
    (revision : Revision.t) (arr ns : list Taxon.loc) (t : Taxon.loc) (o : Taxon.t) :
  let h := objects (content revision) in
  (keyId, revisionId) ∈ Revisions_table db →
  Revision_table db !! revisionId = Some revision →
  taxa (content revision) = Some arr →
  tree_nodes fuel h arr = Some ns → NoDup (node_id h <$> ns) →
  t ∈ ns → h !! t = Some o → Taxon.id o = entityId →
  Js.template media_id ∉ media_ids (default [] (Taxon.media o)) →
  (∀ element, element ∈ default [] (mediaElements (Revision.media revision)) →
     MediaId_template (Media.id element) ≠ Js.template media_id) →
  ∃ db1 db2 revision2,
    addMediaToRevision fuel db media_id fileInfo keyId revisionId entityId "taxa" None
      = Return db1 ∧
    delete_entity_media fuel db1 "/taxon" revisionId
      (mkRemoveBody entityId None [Js.Str (Js.template media_id)]) = Some (db2, sendStatus 200) ∧
    Revision_table db2 !! revisionId = Some revision2 ∧
    objects (content revision2)
      = <[t := Taxon.set_media (Some (IdStr <$> media_ids (default [] (Taxon.media o)))) o]> h ∧
    taxa (content revision2) = taxa (content revision) ∧
    characters (content revision2) = characters (content revision) ∧
    statements (content revision2) = statements (content revision) ∧
    mediaElements (Revision.media revision2)
      = Some (default [] (mediaElements (Revision.media revision))) ∧
    persons (Revision.media revision2)
      = persons (addToRevisionMedia (Revision.media revision) media_id fileInfo) ∧
    status revision2 = status revision ∧
    (∀ r, r ≠ revisionId → Revision_table db2 !! r = Revision_table db !! r).
Proof.
  intros h Hlinked Hrev Htaxa Hns Hnd Ht Ho Hid Hfresh Hunused.
  set (em1 := default [] (Taxon.media o) ++ [IdNum media_id]).
  set (h1 := alter (Taxon.set_media (Some em1)) t h).
  set (ledger1 := addToRevisionMedia (Revision.media revision) media_id fileInfo).
  set (content1 := set_objects h1 (content revision)).
  set (db1 := Revision_update_content_media db revisionId content1 ledger1).
  assert (Hattach :
    addMediaToRevision fuel db media_id fileInfo keyId revisionId entityId "taxa" None
    = Return db1).
  { unfold addMediaToRevision. rewrite (Revisions_findOne_In _ _ _ Hlinked), Hrev.
    rewrite decide_True by done. fold h. rewrite Htaxa.
    destruct (findTaxonById_result fuel h arr ns entityId Hns Hnd) as [Hfound _].
    rewrite (Hfound t Ht); [|unfold node_id; by rewrite Ho, <- Hid].
    cbn -[addToRevisionMedia]. rewrite Ho. done. }
  assert (Hlinks : same_links h h1).
  { apply same_links_alter. intros o'. by destruct o'. }
  assert (Hns1 : tree_nodes fuel h1 arr = Some ns) by (by eapply same_links_tree_nodes).
  assert (Hnd1 : NoDup (node_id h1 <$> ns)).
  { by rewrite (same_links_node_id h h1 fuel arr ns). }
  assert (Ho1 : h1 !! t = Some (Taxon.set_media (Some em1) o)).
  { subst h1. by rewrite list_lookup_alter_eq, Ho. }
  assert (Hrev1 : Revision_table db1 !! revisionId
                  = Some (set_media ledger1 (set_content content1 revision))).
  { subst db1. simpl. by rewrite !lookup_alter_eq, Hrev. }
  destruct (attach_detach_lemma (default [] (Taxon.media o)) (Revision.media revision)
              media_id fileInfo false Hfresh Hunused) as (Harr & Helements & Hpersons).
  fold ledger1 em1 in Harr, Helements, Hpersons.
  destruct (removeEntityMedia em1 ledger1 [Js.Str (Js.template media_id)]) as [arr2 ledger2] eqn:Hremove.
  simpl in Harr, Helements, Hpersons.
  assert (Hdetach :
    removeFromRevision fuel "/taxon" (mkRemoveBody entityId None [Js.Str (Js.template media_id)])
      h1 (Some arr) (characters (content revision)) ledger1
    = Return (alter (Taxon.set_media (Some arr2)) t h1, characters (content revision), ledger2)).
  { unfold removeFromRevision. rewrite decide_True by done.
    destruct (findTaxonById_result fuel h1 arr ns entityId Hns1 Hnd1) as [Hfound _].
    cbn [Ledger.entityId Ledger.body_media]. rewrite (Hfound t Ht).
    2:{ unfold node_id. rewrite Ho1. simpl. by rewrite Hid. }
    cbn -[removeEntityMedia]. rewrite Ho1. cbn -[removeEntityMedia]. by rewrite Hremove. }
  eexists db1, _, _. split; [done|]. split.
  { unfold delete_entity_media, try_catch. rewrite Hrev1.
    cbn -[removeFromRevision Revision_update_content_media].
    fold h. rewrite Htaxa. rewrite Hdetach. reflexivity. }
  split.
  { simpl. rewrite !lookup_alter_eq, Hrev. reflexivity. }
  simpl. split_and!; try done.
  - subst h1. rewrite (list_alter_as_insert _ _ _ _ Ho).
    rewrite (list_alter_as_insert _ _ t (Taxon.set_media (Some em1) o)).
    + rewrite list_insert_insert_eq. by rewrite Harr.
    + rewrite list_lookup_insert_eq; [done|]. by apply lookup_lt_Some in Ho.
  - intros r Hr. by rewrite !lookup_alter_ne.
Qed.

(** Property X25. Updating the ledger entry of a media
    file rewrites the revision where it stands: with no element under the
    requested media id the answer is 404 and the store is unchanged; with
    one, the answer is 200, the first such element is updated where it
    stands, keeping its id, every other element is as before, the persons
    of the ledger are kept and extended, and nothing else of the revision
    and of the store changes. *)
Theorem put_revision_media_in_place (db : Db) (revisionId : string) (mediaId : Z)
    (body : FileInfo) (revision : Revision.t) (elements : list MediaElement) :
  Revision_table db !! revisionId = Some revision →
  mediaElements (Revision.media revision) = Some elements →
  let matches element := MediaId_template (Media.id element) = Js.template mediaId in
  ((∀ element, element ∈ elements → ¬ matches element) →
     put_revision_media db revisionId mediaId body = Some (db, sendStatus 404)) ∧
  (∀ i element, elements !! i = Some element → matches element →
     (∀ j other, elements !! j = Some other → (j < i)%nat → ¬ matches other) →
     ∃ db' element' extra,
       put_revision_media db revisionId mediaId body = Some (db', sendStatus 200) ∧
       Revision_table db' !! revisionId
         = Some (set_media
                   (mkRevisionMedia (Some (<[i := element']> elements))
                      (Some (default [] (persons (Revision.media revision)) ++ extra)))
                   revision) ∧
       Media.id element' = Media.id element ∧
       (∀ r, r ≠ revisionId → Revision_table db' !! r = Revision_table db !! r) ∧
       Key_table db' = Key_table db ∧ Revisions_table db' = Revisions_table db).
Proof.
  intros Hrev Helements matches. unfold put_revision_media, try_catch.
  rewrite Hrev, Helements. split.
  - intros Hnone.
    assert (list_find (λ element, MediaId_template (Media.id element) = Js.template mediaId)
              elements = None) as ->; [|done].
    apply list_find_None, Forall_forall. intros element Hin. by apply Hnone.
  - intros i element Hi Hmatch Hfirst.
    assert (list_find (λ element, MediaId_template (Media.id element) = Js.template mediaId)
              elements = Some (i, element)) as ->.
    { apply list_find_Some. split_and!; try done. }
    destruct (updateMediaElement_returns body element
                (default [] (persons (Revision.media revision))))
      as (element' & extra & Hrun & Hid & _).
    assert (match persons (Revision.media revision) with
            | Some ps => Some ps
            | None => Some []
            end = Some (default [] (persons (Revision.media revision)))) as ->.
    { by destruct (persons (Revision.media revision)). }
    rewrite Hrun. cbn -[Revision_update_media].
    eexists _, element', extra. split; [done|]. simpl. split_and!; try done.
    + by rewrite lookup_alter_eq, Hrev.
    + intros r Hr. by rewrite lookup_alter_ne.
Qed.

End ledger_round_trip.

Section ledger_round_trip_sample.
Import Media Revision Routes InPlace Ledger Spec Examples Samples.
#[local] Existing Instance Js.sample_tables.

Lemma attach_detach_taxon_witness :
  ∃ db1 db2 revision2,
    addMediaToRevision 3 db_with_media 7 None "k1" "r1" "3" "taxa" None = Return db1 ∧
    delete_entity_media 3 db1 "/taxon" "r1" (mkRemoveBody "3" None [Js.Str "7"])
      = Some (db2, sendStatus 200) ∧
    Revision_table db2 !! "r1" = Some revision2 ∧
    mediaElements (Revision.media revision2) = mediaElements ledger.
Proof.
  destruct (attach_detach_taxon 3 db_with_media 7 None "k1" "r1" "3"
              (mkRevision "r1" (mkContent birds_with_photos (Some birds_taxa) None None)
                 ledger None "user" ACCEPTED (Some 1))
              birds_taxa [0; 1; 2; 3; 4]%nat 2%nat
              (Taxon.set_media (Some two_photos) (leaf "3" "Corvus")))
    as (db1 & db2 & revision2 & H1 & H2 & H3 & _ & _ & _ & _ & H4 & _).
  - left.
  - reflexivity.
  - reflexivity.
  - reflexivity.
  - apply (bool_decide_unpack _). vm_compute. exact I.
  - by apply (list_elem_of_lookup_2 _ 2%nat).
  - reflexivity.
  - reflexivity.
  - intros Hin. apply list_elem_of_In in Hin. vm_compute in Hin.
    destruct Hin as [Hin|[Hin|[]]]; discriminate.
  - intros element Hin. apply list_elem_of_In in Hin. simpl in Hin.
    destruct Hin as [<-|[<-|[]]]; discriminate.
  - exists db1, db2, revision2. split_and!; try done.
Defined.

Lemma put_revision_media_in_place_witness :
  put_revision_media db_with_media "r1" 9 (mkFileInfo (Some "Ravn") None None None)
  = Some (db_with_media, sendStatus 404).
Proof.
  destruct (put_revision_media_in_place db_with_media "r1" 9
              (mkFileInfo (Some "Ravn") None None None)
              (mkRevision "r1" (mkContent birds_with_photos (Some birds_taxa) None None)
                 ledger None "user" ACCEPTED (Some 1))
              [mkMediaElement (IdStr "5") None None (Some ["anna"]);
               mkMediaElement (IdStr "6") None None None]) as [H404 _];
    [reflexivity | reflexivity |].
  apply H404. intros element Hin. apply list_elem_of_In in Hin. simpl in Hin.
  destruct Hin as [<-|[<-|[]]]; discriminate.
Defined.

End ledger_round_trip_sample.

(** ** Titles of a media row *)

Section media_titles.
Import Media Routes Titles.

Lemma get_Some rows m code row :
  get_info rows m code = Some row → row ∈ rows ∧ slot row = (m, code).
Proof.
  unfold get_info. destruct (list_find _ rows) as [[i r]|] eqn:Hfind; [|done]. simpl.
  intros [= <-]. apply list_find_Some in Hfind as (Hi & [Hm Hc] & _).
  split; [by eapply list_elem_of_lookup_2|]. unfold slot. by rewrite Hm, Hc.
Qed.

Lemma get_None rows m code :
  get_info rows m code = None ↔ ∀ row, row ∈ rows → slot row ≠ (m, code).
Proof.
  unfold get_info. rewrite fmap_None, list_find_None, Forall_forall. unfold slot. split.
  - intros H row Hin [= Hm Hc]. by apply (H row Hin).
  - intros H row Hin [Hm Hc]. apply (H row Hin). by rewrite Hm, Hc.
Qed.

Lemma get_unique rows m code row :
  NoDup (slot <$> rows) → row ∈ rows → slot row = (m, code) → get_info rows m code = Some row.
Proof.
  intros Hnd Hin Hslot. destruct (get_info rows m code) as [row'|] eqn:Hget.
  - apply get_Some in Hget as [Hin' Hslot']. f_equal.
    apply (NoDup_fmap_eq slot rows); try done. congruence.
  - rewrite get_None in Hget. by destruct (Hget row Hin).
Qed.

Lemma find_info_findAll rows m code :
  find_info (MediaInfo_findAll rows m) code = get_info rows m code.
Proof.
  unfold find_info, MediaInfo_findAll, get_info. induction rows as [|r rows IH]; [done|].
  rewrite filter_cons. destruct (decide (mediaId r = m)) as [Hm|Hm]; cbn [list_find].
  - destruct (decide (languageCode r = code)) as [Hc|Hc].
    + by rewrite decide_True.
    + rewrite (decide_False (P := _ ∧ _)) by (by intros [_ ?]).
      rewrite <- !option_fmap_compose.
      destruct (list_find _ (filter _ rows)) as [[i x]|] eqn:E1;
      destruct (list_find _ rows) as [[j y]|] eqn:E2; simpl in *; congruence.
  - rewrite (decide_False (P := _ ∧ _)) by (by intros [? _]).
    rewrite <- option_fmap_compose.
    destruct (list_find _ (filter _ rows)) as [[i x]|] eqn:E1;
    destruct (list_find _ rows) as [[j y]|] eqn:E2; simpl in *; congruence.
Qed.

Lemma set_info_spec rows new_id m code title :
  titles_well_formed rows → new_id ∉ info_id <$> rows →
  let rows' := set_info rows new_id m code title (get_info rows m code) in
  info_title <$> get_info rows' m code = Js.or_undefined title ∧
  (∀ m' code', (m', code') ≠ (m, code) → get_info rows' m' code' = get_info rows m' code') ∧
  titles_well_formed rows' ∧
  (∀ i, i ∈ info_id <$> rows' → i = new_id ∨ i ∈ info_id <$> rows).
Proof.
  intros [Hids Hslots] Hfresh rows'. subst rows'. unfold set_info, Js.or_undefined.
  destruct (Js.truthy title) eqn:Htruthy.
  - destruct title as [s|]; [|done]. simpl.
    destruct (get_info rows m code) as [info|] eqn:Hget.
    + (* update *)
      apply get_Some in Hget as [Hin Hslot].
      set (f := λ row : MediaInfoRow,
             if decide (info_id row = info_id info)
             then mkMediaInfoRow (info_id row) (mediaId row) (languageCode row) s else row).
      assert (Hfi : f info = mkMediaInfoRow (info_id info) (mediaId info) (languageCode info) s).
      { unfold f. by rewrite decide_True. }
      assert (Hf : ∀ r, r ∈ rows → r ≠ info → f r = r).
      { intros r Hr Hne. unfold f. rewrite decide_False; [done|]. intros Heq. apply Hne.
        by apply (NoDup_fmap_eq info_id rows). }
      assert (Hfs : slot <$> MediaInfo_update rows (info_id info) s = slot <$> rows).
      { unfold MediaInfo_update. rewrite <- list_fmap_compose. apply list_fmap_ext.
        intros i r _. simpl. by case_decide. }
      assert (Hfid : info_id <$> MediaInfo_update rows (info_id info) s = info_id <$> rows).
      { unfold MediaInfo_update. rewrite <- list_fmap_compose. apply list_fmap_ext.
        intros i r _. simpl. by case_decide. }
      assert (Hmem : ∀ r, r ∈ rows → f r ∈ MediaInfo_update rows (info_id info) s).
      { intros r Hr. unfold MediaInfo_update. by apply list_elem_of_fmap_2. }
      assert (Hslots' : NoDup (slot <$> MediaInfo_update rows (info_id info) s))
        by (by rewrite Hfs).
      split_and!.
      * rewrite (get_unique _ m code (f info)); try done.
        -- by rewrite Hfi.
        -- by apply Hmem.
        -- by rewrite Hfi.
      * intros m' code' Hne.
        destruct (get_info rows m' code') as [row|] eqn:Hget'.
        -- apply get_Some in Hget' as [Hrow Hrs].
           assert (f row = row) as Hsame.
           { apply (Hf row Hrow). intros ->. congruence. }
           apply get_unique; try done. rewrite <- Hsame. by apply Hmem.
        -- apply get_None. intros row Hrow Hrs. rewrite get_None in Hget'.
           unfold MediaInfo_update in Hrow. apply list_elem_of_fmap in Hrow as (r & -> & Hr).
           apply (Hget' r Hr). rewrite <- Hrs. by case_decide.
      * split; [by rewrite Hfid|done].
      * intros i Hi. right. by rewrite <- Hfid.
    + (* create *)
      pose proof (proj1 (get_None rows m code) Hget) as Hnone.
      unfold MediaInfo_create.
      assert (Hslots' : NoDup (slot <$> rows ++ [mkMediaInfoRow new_id m code s])).
      { rewrite fmap_app. apply NoDup_app. split_and!; [done| |apply NoDup_singleton].
        intros x Hx [->|Hnil%elem_of_nil]%elem_of_cons; [|done].
        apply list_elem_of_fmap in Hx as (r & Hr & Hrin). by apply (Hnone r). }
      split_and!.
      * rewrite (get_unique _ m code (mkMediaInfoRow new_id m code s)); try done.
        apply elem_of_app. right. by left.
      * intros m' code' Hne.
        destruct (get_info rows m' code') as [row|] eqn:Hget'.
        -- apply get_Some in Hget' as [Hrow Hrs].
           apply get_unique; try done. apply elem_of_app. by left.
        -- apply get_None.
           intros row [Hrow|Hrow%list_elem_of_singleton]%elem_of_app.
           ++ rewrite get_None in Hget'. by apply Hget'.
           ++ subst row. unfold slot. simpl. congruence.
      * split; [|done]. rewrite fmap_app. apply NoDup_app.
        split_and!; [done| |apply NoDup_singleton].
        intros x Hx [->|Hnil%elem_of_nil]%elem_of_cons; done.
      * intros i. rewrite fmap_app, elem_of_app.
        intros [?|Hi%list_elem_of_singleton]; [by right|by left].
  - assert (Hundefined : (if Js.truthy title then title else None) = None)
      by (by rewrite Htruthy).
    destruct (get_info rows m code) as [info|] eqn:Hget.
    + (* destroy *)
      apply get_Some in Hget as [Hin Hslot].
      assert (Hmem : ∀ row, row ∈ MediaInfo_destroy_id rows (info_id info)
                            ↔ row ∈ rows ∧ row ≠ info).
      { intros row. unfold MediaInfo_destroy_id. rewrite list_elem_of_filter. split.
        - intros [Hne Hrow]. split; [done|]. by intros ->.
        - intros [Hrow Hne]. split; [|done]. intros Heq. apply Hne.
          by apply (NoDup_fmap_eq info_id rows). }
      assert (Hsub : MediaInfo_destroy_id rows (info_id info) `sublist_of` rows)
        by apply sublist_filter.
      assert (Hslots' : NoDup (slot <$> MediaInfo_destroy_id rows (info_id info))).
      { eapply sublist_NoDup; [exact Hslots|]. by apply sublist_fmap. }
      split_and!.
      * replace (get_info (MediaInfo_destroy_id rows (info_id info)) m code)
          with (@None MediaInfoRow); [done|].
        symmetry. apply get_None. intros row [Hrow Hne]%Hmem Hrs.
        apply Hne. apply (NoDup_fmap_eq slot rows); try done. congruence.
      * intros m' code' Hne.
        destruct (get_info rows m' code') as [row|] eqn:Hget'.
        -- apply get_Some in Hget' as [Hrow Hrs].
           apply get_unique; try done. apply Hmem. split; [done|].
           intros ->. congruence.
        -- apply get_None. intros row [Hrow _]%Hmem.
           rewrite get_None in Hget'. by apply Hget'.
      * split; [|done]. eapply sublist_NoDup; [exact Hids|]. by apply sublist_fmap.
      * intros i Hi. right. by apply (sublist_subseteq _ _ (sublist_fmap info_id _ _ Hsub)).
    + split_and!; try done.
      * by rewrite Hget.
      * intros i Hi. by right.
Qed.

(** Property X26. In a table with distinct ids and at most one
    title for a media row in a language, updating a media row that exists
    leaves it with exactly the requested titles: the Norwegian and the
    English title are the requested ones, a title that is not requested
    (or is empty) is removed; every other title of the table is as it
    was, and the table keeps its form. For a media row that does not exist
    the answer is 404 and nothing changes. *)
Theorem put_media_titles (w : world) (new_no new_en m : Z) (titleNo titleEn : option string) :
  titles_well_formed (mediaInfoTable w) →
  new_no ∉ info_id <$> mediaInfoTable w → new_en ∉ info_id <$> mediaInfoTable w →
  new_no ≠ new_en →
  let result := put_media w new_no new_en m titleNo titleEn in
  (mediaTable w !! m = None → result = (w, sendStatus 404)) ∧
  (is_Some (mediaTable w !! m) →
     result.2 = sendStatus 200 ∧
     title_of (mediaInfoTable result.1) m "no" = Js.or_undefined titleNo ∧
     title_of (mediaInfoTable result.1) m "en" = Js.or_undefined titleEn ∧
     (∀ m' code, (m', code) ≠ (m, "no") → (m', code) ≠ (m, "en") →
        title_of (mediaInfoTable result.1) m' code = title_of (mediaInfoTable w) m' code) ∧
     titles_well_formed (mediaInfoTable result.1) ∧
     mediaTable result.1 = mediaTable w ∧ files result.1 = files w).
Proof.
  intros Hwf Hfresh_no Hfresh_en Hdistinct result. subst result. unfold put_media.
  split; [by intros ->|]. intros [media ->]. simpl. split; [done|].
  unfold handleSetMediaInfo. rewrite !find_info_findAll.
  destruct (set_info_spec (mediaInfoTable w) new_no m "no" titleNo Hwf Hfresh_no)
    as (Hno & Hframe_no & Hwf1 & Hids1).
  set (rows1 := set_info (mediaInfoTable w) new_no m "no" titleNo
                  (get_info (mediaInfoTable w) m "no")) in *.
  assert (Hfresh1 : new_en ∉ info_id <$> rows1).
  { intros [?|?]%Hids1; [by apply Hdistinct|done]. }
  rewrite <- (Hframe_no m "en") by done.
  destruct (set_info_spec rows1 new_en m "en" titleEn Hwf1 Hfresh1)
    as (Hen & Hframe_en & Hwf2 & _).
  unfold title_of.
  split_and!; try done.
  - rewrite Hframe_en by done. exact Hno.
  - intros m' code Hne_no Hne_en.
    change (info_title <$> get_info (set_info rows1 new_en m "en" titleEn (get_info rows1 m "en")) m' code
            = info_title <$> get_info (mediaInfoTable w) m' code).
    by rewrite Hframe_en, Hframe_no.
Qed.

Lemma put_media_titles_witness :
  title_of (mediaInfoTable (put_media Examples.world_without_primary_file 3 4 7
                              None (Some "Blossom")).1) 7 "en" = Some "Blossom" ∧
  title_of (mediaInfoTable (put_media Examples.world_without_primary_file 3 4 7
                              None (Some "Blossom")).1) 7 "no" = None.
Proof.
  destruct (put_media_titles Examples.world_without_primary_file 3 4 7 None (Some "Blossom"))
    as [_ H200].
  - split; apply (bool_decide_unpack _); vm_compute; exact I.
  - intros Hin. apply list_elem_of_In in Hin. simpl in Hin.
    destruct Hin as [Hin|[Hin|[]]]; discriminate.
  - intros Hin. apply list_elem_of_In in Hin. simpl in Hin.
    destruct Hin as [Hin|[Hin|[]]]; discriminate.
  - discriminate.
  - destruct H200 as (_ & Hno & Hen & _); [by eexists|]. split; [exact Hen | exact Hno].
Defined.

End media_titles.

(** ** Permission on a key *)

Section permissions.
Import Auth.

Lemma elem_of_Set_add s x set : s ∈ Set_add x set ↔ s = x ∨ s ∈ set.
Proof.
  unfold Set_add. case_bool_decide as Hin.
  - split; [by right|]. by intros [->|?].
  - rewrite elem_of_app, list_elem_of_singleton. tauto.
Qed.

Lemma elem_of_new_Set s l : s ∈ new_Set l ↔ s ∈ l.
Proof.
  unfold new_Set.
  assert (H : ∀ acc, s ∈ fold_left (λ set s, Set_add s set) l acc ↔ s ∈ acc ∨ s ∈ l).
  { induction l as [|x l IH]; intros acc; simpl.
    - rewrite elem_of_nil. tauto.
    - rewrite IH, elem_of_Set_add, elem_of_cons. tauto. }
  rewrite H, elem_of_nil. tauto.
Qed.

(** Property X27. The middleware lets a request on a key pass
    exactly when the session user has a user row and either is an editor
    of the key and the required permission is [EDIT_KEY], or the key
    exists and the user created it and the permission is one of the four
    a creator has or one of the user's role, or the key exists, belongs to
    one of the user's workgroups and the permission is one of the user's
    role. A session user without a user row gets 500; every other refusal
    is a 403. *)
Theorem isPermittedKey_spec {User Editor} (permission : string) (req_user : option string)
    (user : option User) (permissions : list PermissionRow) (keys : list KeyRow)
    (editors : list Editor) :
  let verdict := isPermittedKey permission req_user user permissions keys editors in
  let of_role := permission ∈ permission_name <$> permissions in
  ((∃ granted, verdict = next granted) ↔
     Js.truthy req_user = true ∧ is_Some user ∧
     ((editors ≠ [] ∧ permission = "EDIT_KEY") ∨
      ∃ key rest, keys = key :: rest ∧
        ((Some (createdBy key) = req_user ∧
          (permission ∈ ["PUBLISH_KEY"; "SHARE_KEY"; "EDIT_KEY"; "EDIT_KEY_INFO"] ∨ of_role)) ∨
         (Some (createdBy key) ≠ req_user ∧
          (∃ g, workgroupId key = Some g ∧ Some g ∈ workgroup_id <$> permissions) ∧
          of_role)))) ∧
  (∀ granted, verdict = next granted → permission ∈ granted) ∧
  (verdict = refused 500 ↔ Js.truthy req_user = true ∧ user = None) ∧
  (∀ code, verdict = refused code → code = 403 ∨ code = 500).
Proof.
  intros verdict of_role. subst verdict. unfold isPermittedKey.
  destruct (Js.truthy req_user) eqn:Htruthy.
  2:{ split_and!; try done.
      - split; [by intros [? ?]|]. by intros [? _].
      - split; [done|]. by intros [? _].
      - intros code [= <-]. by left. }
  destruct user as [u|].
  2:{ split_and!; try done.
      - split; [by intros [? ?]|]. by intros (_ & [? ?] & _).
      - intros code [= <-]. by right. }
  set (after_key := match keys with [] => [] | key :: _ => _ end).
  set (set := if (0 <? length editors)%nat then _ else _).
  assert (Hset : permission ∈ set ↔
    (editors ≠ [] ∧ permission = "EDIT_KEY") ∨ permission ∈ after_key).
  { subst set. destruct editors as [|e es]; simpl.
    - split; [by right|]. by intros [[? _]|?].
    - rewrite elem_of_Set_add. split.
      + intros [->|?]; [left; by split|by right].
      + intros [[_ ->]|?]; [by left|by right]. }
  assert (Hkey : permission ∈ after_key ↔
    ∃ key rest, keys = key :: rest ∧
      ((Some (createdBy key) = req_user ∧
        (permission ∈ ["PUBLISH_KEY"; "SHARE_KEY"; "EDIT_KEY"; "EDIT_KEY_INFO"] ∨ of_role)) ∨
       (Some (createdBy key) ≠ req_user ∧
        (∃ g, workgroupId key = Some g ∧ Some g ∈ workgroup_id <$> permissions) ∧
        of_role))).
  { subst after_key of_role. destruct keys as [|key rest].
    { rewrite elem_of_nil. split; [done|]. by intros (? & ? & ? & _). }
    case_bool_decide as Hcreator.
    - rewrite !elem_of_Set_add, elem_of_new_Set. split.
      + intros Hin. exists key, rest. split; [done|]. left. split; [done|].
        rewrite !elem_of_cons. tauto.
      + intros (key0 & rest0 & [= <- <-] & [[_ Hp]|[Hne _]]); [|done].
        rewrite !elem_of_cons, elem_of_nil in Hp. tauto.
    - destruct (workgroupId key) as [g|] eqn:Hg.
      2:{ rewrite bool_decide_eq_true_2 by done. cbn [orb negb].
          rewrite elem_of_nil. split; [done|].
          intros (key0 & rest0 & [= <- <-] & [[Heq _]|(_ & (g0 & Hg0 & _) & _)]); [done|].
          by rewrite Hg in Hg0. }
      case_bool_decide as Hnone; [done|].
      case_bool_decide as Hin; cbn [orb negb].
      + rewrite elem_of_new_Set. split.
        * intros Hp. exists key, rest. split; [done|]. right. split_and!; try done.
          exists g. split; [by rewrite Hg|].
          apply elem_of_app in Hin as [?|Hin]; [done|].
          by apply list_elem_of_singleton in Hin.
        * intros (key0 & rest0 & [= <- <-] & [[Heq _]|(_ & _ & Hp)]); done.
      + rewrite elem_of_nil. split; [done|].
        intros (key0 & rest0 & [= <- <-] & [[Heq _]|(_ & (g0 & Hg0 & Hin0) & _)]); [done|].
        apply Hin. rewrite Hg in Hg0. simplify_eq. apply elem_of_app. by left. }
  case_bool_decide as Hin.
  - split_and!.
    + split; [intros _|intros _; eauto]. split; [done|]. split; [eauto|].
      apply Hset in Hin. destruct Hin as [?|Hin]; [by left|right; by apply Hkey].
    + by intros ? [= <-].
    + split; [done|]. by intros [_ ?].
    + by intros code ?.
  - split_and!.
    + split; [by intros [? ?]|].
      intros (_ & _ & [Hed|Hk]); exfalso; apply Hin, Hset; [by left|right; by apply Hkey].
    + done.
    + split; [done|]. by intros [_ ?].
    + intros code [= <-]. by left.
Qed.

Lemma isPermittedKey_spec_witness :
  isPermittedKey (User := unit) (Editor := unit) "PUBLISH_KEY" (Some "u1") (Some ())
    [] [mkKeyRow "u1" None] []
  = next ["PUBLISH_KEY"; "SHARE_KEY"; "EDIT_KEY"; "EDIT_KEY_INFO"].
Proof.
  destruct (isPermittedKey_spec (User := unit) (Editor := unit) "PUBLISH_KEY" (Some "u1")
              (Some ()) [] [mkKeyRow "u1" None] []) as (Hiff & _).
  destruct (proj2 Hiff) as [granted Hgranted].
  - split_and!; [reflexivity | by exists () |]. right.
    exists (mkKeyRow "u1" None), []. split; [done|]. left. split; [done|]. left. by left.
  - rewrite Hgranted. vm_compute in Hgranted. by simplify_eq.
Defined.

End permissions.

(** ** Parents of key groups *)

Section group_parents.
Import Groups.

Lemma GroupParents_findOne_Some rows g row :
  GroupParents_findOne rows g = Some row → row ∈ rows ∧ groupId row = g.
Proof.
  unfold GroupParents_findOne.
  destruct (list_find _ rows) as [[i r]|] eqn:Hfind; [|done]. simpl. intros [= <-].
  apply list_find_Some in Hfind as (Hi & Hg & _). split; [|done].
  by eapply list_elem_of_lookup_2.
Qed.

Lemma GroupParents_findOne_None rows g :
  GroupParents_findOne rows g = None ↔ ∀ row, row ∈ rows → groupId row ≠ g.
Proof.
  unfold GroupParents_findOne. rewrite fmap_None, list_find_None, Forall_forall. done.
Qed.

Lemma GroupParents_findOne_unique rows g row :
  NoDup (groupId <$> rows) → row ∈ rows → groupId row = g →
  GroupParents_findOne rows g = Some row.
Proof.
  intros Hnd Hin Hg.
  destruct (GroupParents_findOne rows g) as [row'|] eqn:Hfind.
  - apply GroupParents_findOne_Some in Hfind as [Hin' Hg'].
    f_equal. apply (NoDup_fmap_eq groupId rows); try done. congruence.
  - rewrite GroupParents_findOne_None in Hfind. by destruct (Hfind row Hin).
Qed.

(** Property X28. In a table that holds at most one
    parent row for a group and no row with the parent 0,
    [updateGroupParents(g, p)] makes [p] the parent of [g], or leaves [g]
    without a parent row when [p] is 0; the parents of the other groups
    are as before, and the table still holds at most one row for a group,
    under distinct ids, and no row with the parent 0. *)
Theorem updateGroupParents_sets_parent (rows : list ParentRow) (new_id g p : Z) :
  NoDup (groupId <$> rows) → NoDup (row_id <$> rows) →
  (∀ row, row ∈ rows → parentId row ≠ 0) →
  new_id ∉ row_id <$> rows →
  let rows' := updateGroupParents rows new_id g p in
  parentId <$> GroupParents_findOne rows' g = (if decide (p = 0) then None else Some p) ∧
  (∀ g', g' ≠ g → GroupParents_findOne rows' g' = GroupParents_findOne rows g') ∧
  NoDup (groupId <$> rows') ∧ NoDup (row_id <$> rows') ∧
  (∀ row, row ∈ rows' → parentId row ≠ 0).
Proof.
  intros Hgroups Hids Hnonzero Hfresh rows'. subst rows'. unfold updateGroupParents.
  destruct (GroupParents_findOne rows g) as [parent|] eqn:Hfind.
  - pose proof (GroupParents_findOne_Some _ _ _ Hfind) as [Hin Hg].
    case_decide as Hchange.
    2:{ rewrite Hfind. simpl. split_and!; try done.
        case_decide as Hp; [|by rewrite Hchange].
        destruct (Hnonzero parent Hin). congruence. }
    case_decide as Hp.
    + (* destroy *)
      assert (Hmem : ∀ row, row ∈ destroy rows parent ↔ row ∈ rows ∧ row ≠ parent).
      { intros row. unfold destroy. rewrite list_elem_of_filter. split.
        - intros [Hne Hrow]. split; [done|]. by intros ->.
        - intros [Hrow Hne]. split; [|done]. intros Heq. apply Hne.
          by apply (NoDup_fmap_eq row_id rows). }
      assert (Hsub : destroy rows parent `sublist_of` rows) by apply sublist_filter.
      assert (Hgroups' : NoDup (groupId <$> destroy rows parent)).
      { eapply sublist_NoDup; [exact Hgroups|]. by apply sublist_fmap. }
      split_and!.
      * replace (GroupParents_findOne (destroy rows parent) g) with (@None ParentRow); [done|].
        symmetry. apply GroupParents_findOne_None. intros row [Hrow Hne]%Hmem Hrg.
        apply Hne. apply (NoDup_fmap_eq groupId rows); try done. congruence.
      * intros g' Hg'.
        destruct (GroupParents_findOne rows g') as [row|] eqn:Hfind'.
        -- apply GroupParents_findOne_Some in Hfind' as [Hrow Hrg].
           apply GroupParents_findOne_unique; try done. apply Hmem. split; [done|].
           intros ->. congruence.
        -- apply GroupParents_findOne_None. intros row [Hrow _]%Hmem.
           rewrite GroupParents_findOne_None in Hfind'. by apply Hfind'.
      * done.
      * eapply sublist_NoDup; [exact Hids|]. by apply sublist_fmap.
      * intros row [Hrow _]%Hmem. by apply Hnonzero.
    + (* update *)
      set (f := λ r : ParentRow,
             if decide (row_id r = row_id parent)
             then mkParentRow (row_id r) (groupId r) p else r).
      assert (Hfp : f parent = mkParentRow (row_id parent) (groupId parent) p).
      { unfold f. by rewrite decide_True. }
      assert (Hf : ∀ r, r ∈ rows → r ≠ parent → f r = r).
      { intros r Hr Hne. unfold f. rewrite decide_False; [done|]. intros Heq. apply Hne.
        by apply (NoDup_fmap_eq row_id rows). }
      assert (Hfg : groupId <$> update rows parent p = groupId <$> rows).
      { unfold update. rewrite <- list_fmap_compose. apply list_fmap_ext.
        intros i r _. simpl. by case_decide. }
      assert (Hfi : row_id <$> update rows parent p = row_id <$> rows).
      { unfold update. rewrite <- list_fmap_compose. apply list_fmap_ext.
        intros i r _. simpl. by case_decide. }
      assert (Hgroups' : NoDup (groupId <$> update rows parent p)) by (by rewrite Hfg).
      assert (Hmem : ∀ r, r ∈ rows → f r ∈ update rows parent p).
      { intros r Hr. unfold update. by apply list_elem_of_fmap_2. }
      split_and!.
      * rewrite (GroupParents_findOne_unique _ g (f parent)); try done.
        -- by rewrite Hfp.
        -- by apply Hmem.
        -- by rewrite Hfp.
      * intros g' Hg'.
        destruct (GroupParents_findOne rows g') as [row|] eqn:Hfind'.
        -- apply GroupParents_findOne_Some in Hfind' as [Hrow Hrg].
           assert (f row = row) as Hsame.
           { apply (Hf row Hrow). intros ->. congruence. }
           apply GroupParents_findOne_unique; try done. rewrite <- Hsame. by apply Hmem.
        -- apply GroupParents_findOne_None. intros row Hrow Hrg.
           rewrite GroupParents_findOne_None in Hfind'.
           unfold update in Hrow. apply list_elem_of_fmap in Hrow as (r & -> & Hr).
           apply (Hfind' r Hr). rewrite <- Hrg. by case_decide.
      * done.
      * by rewrite Hfi.
      * intros row Hrow. unfold update in Hrow.
        apply list_elem_of_fmap in Hrow as (r & -> & Hr).
        case_decide; [done|]. by apply Hnonzero.
  - pose proof (proj1 (GroupParents_findOne_None rows g) Hfind) as Hnone.
    case_decide as Hp.
    + (* create *)
      unfold GroupParents_create.
      assert (Hgroups' : NoDup (groupId <$> rows ++ [mkParentRow new_id g p])).
      { rewrite fmap_app. apply NoDup_app. split_and!; [done| |apply NoDup_singleton].
        intros x Hx [->|Hnil%elem_of_nil]%elem_of_cons; [|done].
        apply list_elem_of_fmap in Hx as (r & Hr & Hrin). by apply (Hnone r). }
      split_and!.
      * rewrite (GroupParents_findOne_unique _ g (mkParentRow new_id g p)); try done.
        -- first [done | by rewrite decide_False].
        -- apply elem_of_app. right. by left.
      * intros g' Hg'.
        destruct (GroupParents_findOne rows g') as [row|] eqn:Hfind'.
        -- apply GroupParents_findOne_Some in Hfind' as [Hrow Hrg].
           apply GroupParents_findOne_unique; try done. apply elem_of_app. by left.
        -- apply GroupParents_findOne_None.
           intros row [Hrow|Hrow%list_elem_of_singleton]%elem_of_app.
           ++ rewrite GroupParents_findOne_None in Hfind'. by apply Hfind'.
           ++ subst row. simpl. congruence.
      * done.
      * rewrite fmap_app. apply NoDup_app. split_and!; [done| |apply NoDup_singleton].
        intros x Hx [->|Hnil%elem_of_nil]%elem_of_cons; done.
      * intros row [Hrow|Hrow%list_elem_of_singleton]%elem_of_app; [by apply Hnonzero|].
        by subst row.
    + subst p. rewrite Hfind. simpl. split_and!; done.
Qed.

Lemma updateGroupParents_sets_parent_witness :
  GroupParents_findOne
    (updateGroupParents [mkParentRow 1 10 20; mkParentRow 2 11 20] 3 10 30) 10
  = Some (mkParentRow 1 10 30) ∧
  GroupParents_findOne (updateGroupParents [mkParentRow 1 10 20; mkParentRow 2 11 20] 3 10 0) 10
  = None.
Proof.
  assert (Hg : NoDup (groupId <$> [mkParentRow 1 10 20; mkParentRow 2 11 20])).
  { apply (bool_decide_unpack _). vm_compute. exact I. }
  assert (Hi : NoDup (row_id <$> [mkParentRow 1 10 20; mkParentRow 2 11 20])).
  { apply (bool_decide_unpack _). vm_compute. exact I. }
  assert (Hz : ∀ row, row ∈ [mkParentRow 1 10 20; mkParentRow 2 11 20] → parentId row ≠ 0).
  { intros row Hrow. each_node Hrow; discriminate. }
  assert (Hf : 3 ∉ row_id <$> [mkParentRow 1 10 20; mkParentRow 2 11 20]).
  { intros Hin. simpl in Hin.
    repeat (apply elem_of_cons in Hin as [Hin'|Hin]; [discriminate|]).
    by apply elem_of_nil in Hin. }
  destruct (updateGroupParents_sets_parent _ 3 10 30 Hg Hi Hz Hf) as (H30 & _).
  destruct (updateGroupParents_sets_parent _ 3 10 0 Hg Hi Hz Hf) as (H0 & _).
  split; [reflexivity|]. simpl in H0.
  by destruct (GroupParents_findOne _ 10).
Defined.

End group_parents.

(** ** States of a character *)

Section multi_states.
Import States.

Lemma createMultiStates_loop characterId alternatives :
  ∀ (table : CharacterState_table) promises,
  ∃ table',
    fold_left (λ '(table, promises) alternative,
      let '(table, response) := CharacterState_update table characterId (alt_id alternative) in
      (table,
       promises ++ [if decide (response ≠ 0) then Return (state_of alternative) else Throws]))
      alternatives (table, promises)
    = (table',
       promises ++
       ((λ alternative,
           if decide (is_Some (table !! alt_id alternative))
           then Return (state_of alternative) else Throws) <$> alternatives)) ∧
    ∀ id, table' !! id
          = if bool_decide (id ∈ alt_id <$> alternatives)
            then (λ _, Some characterId) <$> table !! id
            else table !! id.
Proof.
  induction alternatives as [|a rest IH]; intros table promises.
  { exists table. split; [simpl; by rewrite app_nil_r|]. intros id.
    rewrite bool_decide_eq_false_2; [done|]. apply not_elem_of_nil. }
  cbn [fold_left].
  destruct (CharacterState_update table characterId (alt_id a)) as [table1 response] eqn:Hupd.
  unfold CharacterState_update in Hupd.
  destruct (table !! alt_id a) as [c|] eqn:Ha; injection Hupd as <- <-.
  - destruct (IH (<[alt_id a := Some characterId]> table)
                (promises ++ [Return (state_of a)])) as (table' & Hrun & Hlookup).
    exists table'. split.
    + rewrite decide_True by done. rewrite Hrun, <- app_assoc.
      apply (f_equal (pair _)), (f_equal (app _)).
      rewrite fmap_cons. cbn [app]. rewrite Ha.
      rewrite decide_True by eauto. apply (f_equal (cons _)).
      apply list_fmap_ext. intros i b _. cbv beta.
      destruct (decide (alt_id b = alt_id a)) as [->|Hne].
      * rewrite lookup_insert_eq, Ha. by rewrite !decide_True by eauto.
      * by rewrite lookup_insert_ne.
    + intros id. rewrite Hlookup, fmap_cons. destruct (decide (id = alt_id a)) as [->|Hne].
      * rewrite lookup_insert_eq, Ha. rewrite (bool_decide_eq_true_2 (_ ∈ _ :: _)) by (by left).
        by case_bool_decide.
      * rewrite lookup_insert_ne by done.
        case_bool_decide as H1; case_bool_decide as H2; try done.
        -- destruct H2. by right.
        -- apply elem_of_cons in H2 as [?|?]; done.
  - destruct (IH table (promises ++ [Throws])) as (table' & Hrun & Hlookup).
    exists table'. split.
    + rewrite decide_False by (by intros ?). rewrite Hrun, <- app_assoc.
      apply (f_equal (pair _)), (f_equal (app _)).
      rewrite fmap_cons. cbn [app]. rewrite Ha.
      rewrite decide_False; [done|]. by intros [? ?].
    + intros id. rewrite Hlookup, fmap_cons. destruct (decide (id = alt_id a)) as [->|Hne].
      * rewrite Ha. by repeat case_bool_decide.
      * case_bool_decide as H1; case_bool_decide as H2; try done.
        -- destruct H2. by right.
        -- apply elem_of_cons in H2 as [?|?]; done.
Qed.

Lemma Promise_all_fulfilled {A} (acc l : list A) :
  forEach (λ states (promise : outcome A), state ← promise; Return (states ++ [state]))
    acc (Return <$> l) = Return (acc ++ l).
Proof.
  revert acc. induction l as [|x l IH]; intros acc; simpl.
  - by rewrite app_nil_r.
  - by rewrite IH, <- app_assoc.
Qed.

Lemma Promise_all_rejected {A} (acc : list A) (promises : list (outcome A)) :
  Throws ∈ promises → Stuck ∉ promises →
  forEach (λ states (promise : outcome A), state ← promise; Return (states ++ [state]))
    acc promises = Throws.
Proof.
  revert acc. induction promises as [|p rest IH]; intros acc Hin Hnot.
  { by apply elem_of_nil in Hin. }
  simpl. destruct p as [a| |]; simpl.
  - apply IH.
    + by apply elem_of_cons in Hin as [?|?].
    + intros ?. apply Hnot. by right.
  - done.
  - destruct Hnot. by left.
Qed.

(** Property X29. [createMultiStates] assigns to the
    character every state row named by an alternative that exists,
    whichever character the row belonged to, and touches no other row. It
    is fulfilled, with one state per alternative in the order of the
    request, exactly when every alternative names an existing row; when
    one does not, it is rejected, yet the rows of the other alternatives
    have been assigned all the same. *)
Theorem createMultiStates_spec (table : CharacterState_table) (characterId : Z)
    (alternatives : list Alternative) :
  let result := createMultiStates table characterId alternatives in
  (∀ id, result.1 !! id
         = if bool_decide (id ∈ alt_id <$> alternatives)
           then (λ _, Some characterId) <$> table !! id
           else table !! id) ∧
  ((∀ alternative, alternative ∈ alternatives → is_Some (table !! alt_id alternative)) →
     result.2 = Return (state_of <$> alternatives)) ∧
  (∀ alternative, alternative ∈ alternatives → table !! alt_id alternative = None →
     result.2 = Throws).
Proof.
  intros result. subst result. unfold createMultiStates.
  destruct (createMultiStates_loop characterId alternatives table [])
    as (table' & Hrun & Hlookup).
  cbv zeta in Hrun |- *. rewrite Hrun. simpl. split_and!; [done| |].
  - intros Hall.
    replace ((λ alternative, if decide (is_Some (table !! alt_id alternative))
                             then Return (state_of alternative) else Throws) <$> alternatives)
      with (Return <$> (state_of <$> alternatives)).
    + apply (Promise_all_fulfilled []).
    + rewrite <- list_fmap_compose. apply list_fmap_ext. intros i a Ha. simpl.
      rewrite decide_True; [done|]. apply Hall. by eapply list_elem_of_lookup_2.
  - intros a Ha Hnone. apply Promise_all_rejected.
    + apply list_elem_of_fmap. exists a. split; [|done].
      rewrite decide_False; [done|]. rewrite Hnone. by intros [? ?].
    + intros (b & Hb & _)%list_elem_of_fmap. by case_decide.
Qed.

Lemma createMultiStates_spec_witness :
  let table : CharacterState_table := {[ 1 := Some 7; 2 := None ]} in
  (createMultiStates table 9 [mkAlternative 1 None None None; mkAlternative 3 None None None]).2
    = Throws ∧
  (createMultiStates table 9 [mkAlternative 1 None None None; mkAlternative 3 None None None]).1
    !! 1 = Some (Some 9).
Proof.
  intros table.
  destruct (createMultiStates_spec table 9
              [mkAlternative 1 None None None; mkAlternative 3 None None None])
    as (Hrows & _ & Hrejected).
  split.
  - apply (Hrejected (mkAlternative 3 None None None)); [|reflexivity]. right. by left.
  - rewrite Hrows. reflexivity.
Defined.

End multi_states.

(** ** Collections of a key *)

Section collections.
Import KeyAdmin.

Lemma serial_above rows row : row ∈ rows → row_id row < serial rows.
Proof.
  unfold serial. induction rows as [|r rows IH]; intros Hin.
  { by apply elem_of_nil in Hin. }
  simpl. apply elem_of_cons in Hin as [->|Hin]; [lia|]. specialize (IH Hin). lia.
Qed.

Lemma serial_fresh rows : serial rows ∉ row_id <$> rows.
Proof.
  intros (row & Heq & Hin)%list_elem_of_fmap. apply serial_above in Hin. lia.
Qed.

Lemma Collections_create_fold k added :
  ∀ rows, NoDup (row_id <$> rows) →
  ∃ created,
    fold_left (λ rows c, Collections_create rows k c) added rows = rows ++ created ∧
    NoDup (row_id <$> rows ++ created) ∧
    collectionId <$> created = added ∧
    Forall (λ row, keyId row = k) created.
Proof.
  induction added as [|c rest IH]; intros rows Hnd.
  { exists []. rewrite app_nil_r. done. }
  simpl. unfold Collections_create at 2.
  destruct (IH (rows ++ [mkCollectionsRow (serial rows) k c])) as (created & Hrun & Hnd' & Hc & Hk).
  { rewrite fmap_app. apply NoDup_app. split_and!; [done| |apply NoDup_singleton].
    intros x Hx [->|Hnil%elem_of_nil]%elem_of_cons; [|done]. by apply serial_fresh in Hx. }
  exists (mkCollectionsRow (serial rows) k c :: created).
  rewrite <- app_assoc in Hrun, Hnd'. split_and!; try done.
  - by rewrite fmap_cons, Hc.
  - by constructor.
Qed.

(** Property X30. After [updateCollections(keyId,
    collectionIds)] the collections linked to the key are exactly the
    requested ones; the links that were requested again are the same rows
    as before, the links of other keys are untouched, and the ids of the
    rows stay distinct. *)
Theorem updateCollections_sync (rows : list CollectionsRow) (k : string)
    (collectionIds : list Z) :
  NoDup (row_id <$> rows) →
  ∃ rows',
    updateCollections rows k (Some collectionIds) = Return rows' ∧
    (∀ c, (∃ row, row ∈ rows' ∧ keyId row = k ∧ collectionId row = c) ↔ c ∈ collectionIds) ∧
    (∀ row, row ∈ rows → keyId row = k → collectionId row ∈ collectionIds → row ∈ rows') ∧
    (∀ row, keyId row ≠ k → (row ∈ rows' ↔ row ∈ rows)) ∧
    NoDup (row_id <$> rows').
Proof.
  intros Hnd. unfold updateCollections.
  set (collections := Collections_findAll rows k).
  set (removed := row_id <$> filter (λ element, collectionId element ∉ collectionIds) collections).
  set (added := filter (λ id, id ∉ collectionId <$> collections) collectionIds).
  destruct (Collections_create_fold k added rows Hnd) as (created & -> & Hnd1 & Hc & Hk).
  assert (Hresult :
    (if (0 <? length removed)%nat then Collections_destroy (rows ++ created) removed
     else rows ++ created) = Collections_destroy (rows ++ created) removed).
  { destruct removed as [|x l] eqn:Hrem; [|done]. simpl. unfold Collections_destroy.
    symmetry. apply filter_all. apply Forall_forall. intros row _. apply not_elem_of_nil. }
  rewrite Hresult. eexists. split; [done|].
  assert (Hcoll : ∀ row, row ∈ collections ↔ row ∈ rows ∧ keyId row = k).
  { intros row. unfold collections, Collections_findAll. rewrite list_elem_of_filter. tauto. }
  assert (Hremoved : ∀ row, row ∈ rows →
    (row_id row ∈ removed ↔ keyId row = k ∧ collectionId row ∉ collectionIds)).
  { intros row Hrow. unfold removed. rewrite list_elem_of_fmap. split.
    - intros (row' & Hid & [Hnot [Hrow' Hkey]%Hcoll]%list_elem_of_filter).
      assert (row = row') as -> by (by apply (NoDup_fmap_eq row_id rows)). done.
    - intros [Hkey Hnot]. exists row. split; [done|]. apply list_elem_of_filter.
      split; [done|]. by apply Hcoll. }
  assert (Hcreated : ∀ row, row ∈ created → row_id row ∉ removed).
  { intros row Hrow Hin. unfold removed in Hin.
    apply list_elem_of_fmap in Hin as (row' & Hid & [_ [Hrow' _]%Hcoll]%list_elem_of_filter).
    rewrite fmap_app in Hnd1. apply NoDup_app in Hnd1 as (_ & Hdisj & _).
    apply (Hdisj (row_id row')); [by apply list_elem_of_fmap_2|].
    rewrite <- Hid. by apply list_elem_of_fmap_2. }
  assert (Hmem : ∀ row, row ∈ Collections_destroy (rows ++ created) removed ↔
    (row ∈ rows ∧ ¬ (keyId row = k ∧ collectionId row ∉ collectionIds)) ∨ row ∈ created).
  { intros row. unfold Collections_destroy. rewrite list_elem_of_filter, elem_of_app. split.
    - intros [Hnot [Hrow|Hrow]]; [left|by right]. split; [done|]. by rewrite <- Hremoved.
    - intros [[Hrow Hnot]|Hrow].
      + split; [|by left]. by rewrite Hremoved.
      + split; [|by right]. by apply Hcreated. }
  assert (Hadded : ∀ c, c ∈ added ↔ c ∈ collectionIds ∧ c ∉ collectionId <$> collections).
  { intros c. unfold added. rewrite list_elem_of_filter. tauto. }
  split_and!.
  - intros c. split.
    + intros (row & [[Hrow Hnot]|Hrow]%Hmem & Hkey & Hcid).
      * destruct (decide (c ∈ collectionIds)) as [|Hn]; [done|]. destruct Hnot.
        split; [done|]. congruence.
      * assert (c ∈ added) as [? _]%Hadded; [|done].
        rewrite <- Hc, <- Hcid. by apply list_elem_of_fmap_2.
    + intros Hin. destruct (decide (c ∈ collectionId <$> collections)) as [Hold|Hnew].
      * apply list_elem_of_fmap in Hold as (row & -> & [Hrow Hkey]%Hcoll).
        exists row. split_and!; try done. apply Hmem. left. split; [done|]. by intros [_ ?].
      * assert (c ∈ collectionId <$> created) as (row & -> & Hrow)%list_elem_of_fmap.
        { rewrite Hc. by apply Hadded. }
        exists row. split_and!; try done.
        -- apply Hmem. by right.
        -- rewrite Forall_forall in Hk. by apply Hk.
  - intros row Hrow Hkey Hin. apply Hmem. left. split; [done|]. by intros [_ ?].
  - intros row Hkey. rewrite Hmem. split.
    + intros [[? _]|Hrow]; [done|]. rewrite Forall_forall in Hk. by destruct (Hkey (Hk _ Hrow)).
    + intros Hrow. left. split; [done|]. by intros [? _].
  - eapply sublist_NoDup; [exact Hnd1|]. apply sublist_fmap, sublist_filter.
Qed.

Lemma updateCollections_sync_witness :
  updateCollections [mkCollectionsRow 1 "k1" 10; mkCollectionsRow 2 "k2" 10;
                     mkCollectionsRow 3 "k1" 11] "k1" (Some [11; 12])
  = Return [mkCollectionsRow 2 "k2" 10; mkCollectionsRow 3 "k1" 11;
            mkCollectionsRow 4 "k1" 12].
Proof.
  destruct (updateCollections_sync
              [mkCollectionsRow 1 "k1" 10; mkCollectionsRow 2 "k2" 10;
               mkCollectionsRow 3 "k1" 11] "k1" [11; 12]) as (rows' & Hrun & _).
  - apply (bool_decide_unpack _). vm_compute. exact I.
  - rewrite Hrun. vm_compute in Hrun. by simplify_eq.
Defined.

End collections.
